(** * Fake-news scrapers: traversal, identity and the record sink

    A shallow embedding of the four scraper scripts

      - [earki.js]                 (jachai.org, numbered list pages)    -> [Module Jachai]
      - [earki2_jokes.js]          (earki.co jokes, "load more" page)   -> [Module Jokes]
      - [earki_satire_scraper.js]  (earki.co satire, "load more" page)  -> [Module Satire]
      - the fact-watch scraper     (fact-watch.org, numbered pages)     -> [Module FactWatch]

    JavaScript strings are sequences of UTF-16 code units and are modelled
    as [list N].  Files hold the text handed to [fs.writeFileSync] and
    [fs.appendFileSync]; a line of a file is a run of code units closed by
    a line feed (code unit 10).  The UTF-8 encoding that a write applies is
    not modelled: it turns a line feed into the byte 10 and nothing else
    into that byte.  The browser (puppeteer), the DOM of the visited pages,
    [new URL], [new Date] and [crypto] are outside the scripts: the
    embedding takes what they answer as an argument. *)

From Stdlib Require Import ZArith NArith Lia List Ascii String Decimal DecimalN.
From stdpp Require Import gmap strings list.

Set Default Proof Using "Type".
Set Warnings "-clear-no-such-hyp".

(* ===================================================================== *)
(** * Part I: definitions *)
(* ===================================================================== *)

(** ** JavaScript strings and values *)

Abbreviation jsstring := (list N).

(** A literal: the code units of an ASCII string. *)
Definition js (s : string) : jsstring :=
  map N_of_ascii (list_ascii_of_string s).

(** The JavaScript values that reach the record fields: [null],
    [undefined], a string, or a (small, non-negative) number. *)
Inductive value :=
  | VNull
  | VUndefined
  | VStr (s : jsstring)
  | VNum (n : N).

Definition LF : N := 10.
Definition CR : N := 13.
Definition SPACE : N := 32.
Definition DQUOTE : N := 34.
Definition COMMA : N := 44.
Definition SLASH : N := 47.
Definition BACKSLASH : N := 92.

Fixpoint uint_units (d : Decimal.uint) : jsstring :=
  match d with
  | Decimal.Nil => []
  | Decimal.D0 d => 48%N :: uint_units d
  | Decimal.D1 d => 49%N :: uint_units d
  | Decimal.D2 d => 50%N :: uint_units d
  | Decimal.D3 d => 51%N :: uint_units d
  | Decimal.D4 d => 52%N :: uint_units d
  | Decimal.D5 d => 53%N :: uint_units d
  | Decimal.D6 d => 54%N :: uint_units d
  | Decimal.D7 d => 55%N :: uint_units d
  | Decimal.D8 d => 56%N :: uint_units d
  | Decimal.D9 d => 57%N :: uint_units d
  end.

(** [String(n)] for a non-negative integer. *)
Definition Number_toString (n : N) : jsstring := uint_units (N.to_uint n).

(** [String(v)]. *)
Definition String_of (v : value) : jsstring :=
  match v with
  | VNull => js "null"
  | VUndefined => js "undefined"
  | VStr s => s
  | VNum n => Number_toString n
  end.

(** [s.includes(c)] for a one-unit needle. *)
Definition includes (c : N) (s : jsstring) : bool := existsb (N.eqb c) s.

(** ECMAScript WhiteSpace and LineTerminator code units: what
    [String.prototype.trim] strips. *)
Definition is_ws (c : N) : bool :=
  ((9 <=? c) && (c <=? 13) || (c =? 32) || (c =? 160) || (c =? 5760)
   || (8192 <=? c) && (c <=? 8202) || (c =? 8232) || (c =? 8233)
   || (c =? 8239) || (c =? 8287) || (c =? 12288) || (c =? 65279))%N.

Fixpoint trimStart (s : jsstring) : jsstring :=
  match s with
  | [] => []
  | c :: t => if is_ws c then trimStart t else s
  end.

Definition trimEnd (s : jsstring) : jsstring := rev (trimStart (rev s)).

Definition trim (s : jsstring) : jsstring := trimEnd (trimStart s).

(** [s.replace(/\r?\n/g, SPACE)]: every line feed, together with a
    carriage return right before it, becomes one space. *)
Fixpoint replace_crlf_space (s : jsstring) : jsstring :=
  match s with
  | [] => []
  | c :: t =>
      if (c =? LF)%N then SPACE :: replace_crlf_space t
      else if (c =? CR)%N then
        match t with
        | d :: t' =>
            if (d =? LF)%N then SPACE :: replace_crlf_space t'
            else c :: replace_crlf_space t
        | [] => [c]
        end
      else c :: replace_crlf_space t
  end.

(** [s.replace(/DQUOTE/g, DQUOTE DQUOTE)]: every double quote is doubled. *)
Definition double_quotes (s : jsstring) : jsstring :=
  flat_map (fun c => if (c =? DQUOTE)%N then [DQUOTE; DQUOTE] else [c]) s.

(** The template literal that puts its argument between double quotes. *)
Definition in_quotes (s : jsstring) : jsstring := [DQUOTE] ++ s ++ [DQUOTE].

(** ** The tabular encoders *)

(** [csvEscape] of earki.js. *)
Definition csvEscape (s : value) : jsstring :=
  match s with
  | VNull | VUndefined => []
  | _ =>
      let str := String_of s in
      if existsb (fun c => (c =? COMMA) || (c =? DQUOTE) || (c =? LF))%N str
      then in_quotes (double_quotes str)
      else str
  end.

(** [toCsvField], with the same text in earki2_jokes.js,
    earki_satire_scraper.js and the fact-watch script. *)
Definition toCsvField (v : value) : jsstring :=
  match v with
  | VNull | VUndefined => []
  | _ =>
      let s := trim (replace_crlf_space (String_of v)) in
      if includes DQUOTE s || includes COMMA s
      then in_quotes (double_quotes s)
      else s
  end.

(** ** Regular expressions of the identity resolvers

    The three patterns [/post-(\d+)/], [/\/jokes\/joke\/(\d+)(?:\/|$)/]
    and [/\/satire\/article\/(\d+)\b/] have one shape: a literal, a greedy
    run of digits (the capture), and a condition on what follows.
    [String.prototype.match] returns the match that starts leftmost. *)

Definition is_digit (c : N) : bool := ((48 <=? c) && (c <=? 57))%N.

(** The class [\w]. *)
Definition is_word (c : N) : bool :=
  (is_digit c || (65 <=? c) && (c <=? 90) || (97 <=? c) && (c <=? 122)
   || (c =? 95))%N.

Fixpoint strip_prefix (lit s : jsstring) : option jsstring :=
  match lit, s with
  | [], _ => Some s
  | a :: lit', b :: s' => if (a =? b)%N then strip_prefix lit' s' else None
  | _ :: _, [] => None
  end.

(** The longest run of digits at the head of [s], and what is left. *)
Fixpoint span_digits (s : jsstring) : jsstring * jsstring :=
  match s with
  | c :: t =>
      if is_digit c then let (d, r) := span_digits t in (c :: d, r)
      else ([], s)
  | [] => ([], [])
  end.

(** The attempt at the head of [s]. *)
Definition capture_here (lit : jsstring) (ahead : jsstring -> bool)
    (s : jsstring) : option jsstring :=
  match strip_prefix lit s with
  | Some r =>
      let (d, rest) := span_digits r in
      match d with
      | [] => None
      | _ :: _ => if ahead rest then Some d else None
      end
  | None => None
  end.

(** The attempts from left to right; [m[1]] of the first that succeeds,
    [None] for [m === null]. *)
Fixpoint capture (lit : jsstring) (ahead : jsstring -> bool)
    (s : jsstring) : option jsstring :=
  match capture_here lit ahead s with
  | Some d => Some d
  | None =>
      match s with
      | [] => None
      | _ :: t => capture lit ahead t
      end
  end.

(** Nothing is asked of what follows the digits. *)
Definition ahead_any (rest : jsstring) : bool := true.

(** [(?:\/|$)]: a slash or the end of the input. *)
Definition ahead_slash_or_end (rest : jsstring) : bool :=
  match rest with
  | [] => true
  | c :: _ => (c =? SLASH)%N
  end.

(** [\b] after a digit: the end of the input or a non-word unit. *)
Definition ahead_word_boundary (rest : jsstring) : bool :=
  match rest with
  | [] => true
  | c :: _ => negb (is_word c)
  end.

(** ASCII case folding, as [/.../i] without the [u] flag compares the
    five letters of its literal. *)
Definition fold_ascii (c : N) : N :=
  if ((65 <=? c) && (c <=? 90))%N then (c + 32)%N else c.

Fixpoint starts_with_ci (lit s : jsstring) : bool :=
  match lit, s with
  | [], _ => true
  | a :: lit', b :: s' =>
      (fold_ascii a =? fold_ascii b)%N && starts_with_ci lit' s'
  | _ :: _, [] => false
  end.

(** [/lit/i.test(s)]. *)
Fixpoint test_ci (lit s : jsstring) : bool :=
  starts_with_ci lit s ||
  match s with
  | [] => false
  | _ :: t => test_ci lit t
  end.

(** ** The platform

    [new URL(s)] (its [hostname] and [pathname], or the [TypeError] it
    throws), [new Date(s)] (its time value, [None] for an invalid date),
    [Date.prototype.toISOString] and the SHA-1 hex digest of [crypto]. *)

Record URL := { hostname : jsstring; pathname : jsstring }.

Class Platform := {
  new_URL : jsstring -> option URL;
  new_Date : jsstring -> option Z;
  toISOString : Z -> jsstring;
  sha1 : jsstring -> jsstring
}.

(** [s.split("/")]. *)
Fixpoint split (sep : N) (s : jsstring) : list jsstring :=
  match s with
  | [] => [[]]
  | c :: t =>
      if (c =? sep)%N then [] :: split sep t
      else match split sep t with
           | seg :: segs => (c :: seg) :: segs
           | [] => [[c]]
           end
  end.

(** [Boolean(s)] for a string. *)
Definition truthy (s : jsstring) : bool :=
  match s with [] => false | _ :: _ => true end.

(** [Boolean(v)] for a nullable string. *)
Definition truthy_opt (v : option jsstring) : bool :=
  match v with Some s => truthy s | None => false end.

(** [a[a.length - 1] || dflt] for an array of strings. *)
Definition last_or {A} (dflt : A) (inj : jsstring -> A)
    (segs : list jsstring) : A :=
  match last segs with
  | Some seg => if truthy seg then inj seg else dflt
  | None => dflt
  end.

(** ** Records and their structured encoding *)

(** The object every script appends.  [None] is [null]. *)
Record Row := {
  article_id : option jsstring;
  publisher : option jsstring;
  source : option jsstring;
  category : option jsstring;
  published_at : option jsstring;
  headline : option jsstring;
  content : option jsstring;
  label : N
}.

Definition of_opt (v : option jsstring) : value :=
  match v with Some s => VStr s | None => VNull end.

Definition hexdigit (n : N) : N :=
  if (n <? 10)%N then (48 + n)%N else (87 + n)%N.

(** The escape [\uXXXX] with lowercase hexadecimal digits. *)
Definition unicode_escape (c : N) : jsstring :=
  [BACKSLASH; 117%N;
   hexdigit ((c / 4096) mod 16); hexdigit ((c / 256) mod 16);
   hexdigit ((c / 16) mod 16); hexdigit (c mod 16)].

Definition is_high_surrogate (c : N) : bool := ((55296 <=? c) && (c <=? 56319))%N.
Definition is_low_surrogate (c : N) : bool := ((56320 <=? c) && (c <=? 57343))%N.

(** The body of QuoteJSONString: the two-character escapes, [\uXXXX] for
    the other control characters and for lone surrogates, and every
    other unit (a surrogate pair included) as it is. *)
Fixpoint json_units (s : jsstring) : jsstring :=
  match s with
  | [] => []
  | c :: t =>
      if (c =? 8)%N then BACKSLASH :: 98%N :: json_units t
      else if (c =? 9)%N then BACKSLASH :: 116%N :: json_units t
      else if (c =? 10)%N then BACKSLASH :: 110%N :: json_units t
      else if (c =? 12)%N then BACKSLASH :: 102%N :: json_units t
      else if (c =? 13)%N then BACKSLASH :: 114%N :: json_units t
      else if (c =? DQUOTE)%N then BACKSLASH :: DQUOTE :: json_units t
      else if (c =? BACKSLASH)%N then BACKSLASH :: BACKSLASH :: json_units t
      else if (c <? 32)%N then unicode_escape c ++ json_units t
      else if is_high_surrogate c then
        match t with
        | d :: t' =>
            if is_low_surrogate d then c :: d :: json_units t'
            else unicode_escape c ++ json_units t
        | [] => unicode_escape c
        end
      else if is_low_surrogate c then unicode_escape c ++ json_units t
      else c :: json_units t
  end.

(** [JSON.stringify] of a nullable string. *)
Definition JSON_string (v : option jsstring) : jsstring :=
  match v with
  | Some s => in_quotes (json_units s)
  | None => js "null"
  end.

Definition JSON_member (key : string) (v : jsstring) : jsstring :=
  in_quotes (js key) ++ js ":" ++ v.

(** [Array.prototype.join] of strings. *)
Fixpoint join (sep : jsstring) (l : list jsstring) : jsstring :=
  match l with
  | [] => []
  | [x] => x
  | x :: t => x ++ sep ++ join sep t
  end.

(** [JSON.stringify(row)]: the members in the order the object literal
    lists them. *)
Definition JSON_stringify (r : Row) : jsstring :=
  js "{" ++
  join (js ",")
    [ JSON_member "article_id" (JSON_string (article_id r));
      JSON_member "publisher" (JSON_string (publisher r));
      JSON_member "source" (JSON_string (source r));
      JSON_member "category" (JSON_string (category r));
      JSON_member "published_at" (JSON_string (published_at r));
      JSON_member "headline" (JSON_string (headline r));
      JSON_member "content" (JSON_string (content r));
      JSON_member "label" (Number_toString (label r)) ] ++
  js "}".

(** ** The file system

    A file is the text written to it so far; a path that is not a key of
    the map does not exist.  The calls are taken to succeed: what a script
    does when a write throws is not represented, nor is the [data]
    directory that the scripts create first. *)

Abbreviation FS := (gmap string jsstring).

Definition existsSync (p : string) (fs : FS) : bool :=
  bool_decide (is_Some (fs !! p)).

Definition writeFileSync (p : string) (text : jsstring) (fs : FS) : FS :=
  <[p := text]> fs.

Definition unlink (p : string) (fs : FS) : FS := delete p fs.

(** Appending creates the file when it is missing. *)
Definition appendFileSync (p : string) (text : jsstring) (fs : FS) : FS :=
  <[p := default [] (fs !! p) ++ text]> fs.

Definition read (p : string) (fs : FS) : jsstring := default [] (fs !! p).

(** The number of lines of a text: its line feeds. *)
Definition lines (text : jsstring) : nat := length (List.filter (N.eqb LF) text).

Definition BOM : N := 65279.

Definition HEADER : jsstring :=
  js "article_id,publisher,source,category,published_at,headline,content,label"
  ++ [LF].

(** ** The text of an article body

    The callbacks that read an article run its text through a chain of
    [replace] calls.  [squeeze_lf limit 0] is [replace(/\n{3,}/g, "\n\n")]
    for [limit = 2] and [replace(/\n{2,}/g, "\n")] for [limit = 1]: of a
    run of line feeds the first [limit] are kept; [run] counts the line
    feeds just read. *)

Fixpoint squeeze_lf (limit run : nat) (s : jsstring) : jsstring :=
  match s with
  | [] => []
  | c :: t =>
      if (c =? LF)%N then
        if run <? limit then LF :: squeeze_lf limit (S run) t
        else squeeze_lf limit (S run) t
      else c :: squeeze_lf limit 0 t
  end.

(** [replace(/\s+\n/g, "\n")].  In a run of white space the greedy [\s+]
    backs off to the last line feed of the run that has a unit of the run
    before it: the run up to that line feed becomes one line feed and the
    rest of the run stays; a run with no such line feed stays as it is.
    [pend] holds the units of the current run that are not written yet,
    [seen] tells that a match has been found in the run. *)
Fixpoint drop_ws_before_lf (seen : bool) (pend s : jsstring) : jsstring :=
  match s with
  | [] => (if seen then [LF] else []) ++ pend
  | c :: t =>
      if (c =? LF)%N then
        if seen || truthy pend then drop_ws_before_lf true [] t
        else drop_ws_before_lf false [LF] t
      else if is_ws c then drop_ws_before_lf seen (pend ++ [c]) t
      else (if seen then [LF] else []) ++ pend
           ++ c :: drop_ws_before_lf false [] t
  end.

(** [replace(/\n\s+/g, "\n")]: a line feed swallows the white space that
    follows it; [skip] tells that a line feed was just written. *)
Fixpoint drop_ws_after_lf (skip : bool) (s : jsstring) : jsstring :=
  match s with
  | [] => []
  | c :: t =>
      if skip && is_ws c then drop_ws_after_lf true t
      else if (c =? LF)%N then LF :: drop_ws_after_lf true t
      else c :: drop_ws_after_lf false t
  end.

(** The chain of the jokes, satire and fact-watch callbacks. *)
Definition article_text (s : jsstring) : jsstring :=
  trim (drop_ws_after_lf false (drop_ws_before_lf false [] (squeeze_lf 1 0 s))).

(** [a || b] for a string that may be missing. *)
Definition or_else (a : option jsstring) (b : jsstring) : jsstring :=
  match a with
  | Some s => if truthy s then s else b
  | None => b
  end.

(** ** earki.js: the jachai.org fact-check pages *)

Module Jachai.

Definition START_PAGE : nat := 1.
Definition MAX_PAGES : nat := 500.
Definition OUT_CSV : string := "data/jachai_import.csv".
Definition OUT_JSONL : string := "data/jachai_import.jsonl".

Definition getArticleIdFromUrl `{Platform} (url : jsstring) : jsstring :=
  match new_URL url with
  | Some u =>
      match capture (js "post-") ahead_any (pathname u) with
      | Some d => d
      | None => sha1 url
      end
  | None => sha1 url
  end.

Definition hostnamePretty `{Platform} (url : jsstring) : option jsstring :=
  match new_URL url with
  | Some u =>
      Some (match strip_prefix (js "www.") (hostname u) with
            | Some r => r
            | None => hostname u
            end)
  | None => None
  end.

Definition categoryFromSlug `{Platform} (categoryHref : option jsstring)
    : option jsstring :=
  match categoryHref with
  | Some h =>
      if truthy h then
        match new_URL h with
        | Some u =>
            let segs := List.filter truthy (split SLASH (pathname u)) in
            last_or None Some segs
        | None => None
        end
      else None
  | None => None
  end.

Definition normalizeDateISO `{Platform} (dt : option jsstring)
    : option jsstring :=
  match dt with
  | Some s =>
      if truthy s then
        match new_Date s with
        | Some t => Some (toISOString t)
        | None => None
        end
      else None
  | None => None
  end.

Definition ensureOutputs (fs : FS) : FS :=
  let fs :=
    if existsSync OUT_CSV fs then fs
    else writeFileSync OUT_CSV (BOM :: HEADER) fs in
  if existsSync OUT_JSONL fs then unlink OUT_JSONL fs else fs.

(** The tabular line of a row, without the line feed that ends it. *)
Definition csv_fields (row : Row) : jsstring :=
  join (js ",")
    [ csvEscape (of_opt (article_id row));
      csvEscape (of_opt (publisher row));
      csvEscape (of_opt (source row));
      csvEscape (of_opt (category row));
      csvEscape (of_opt (published_at row));
      csvEscape (of_opt (headline row));
      csvEscape (of_opt (content row));
      Number_toString (label row) ].

Definition appendRow (row : Row) (fs : FS) : FS :=
  let line := csv_fields row ++ [LF] in
  let fs := appendFileSync OUT_CSV line fs in
  appendFileSync OUT_JSONL (JSON_stringify row ++ [LF]) fs.

(** An [article.list-view] element of a list page: its title link ([href]
    and [textContent]), its category link ([href]) and the [content]
    attribute of its date [meta]; [None] where the element is missing. *)
Record ListView := {
  titleA : option (jsstring * jsstring);
  catA : option jsstring;
  dateMeta : option (option jsstring)
}.

Record Item := {
  it_url : option jsstring;
  it_headline : option jsstring;
  it_categoryHref : option jsstring;
  it_published_at_raw : option jsstring
}.

Definition scrapeListPage (nodes : list ListView) : list Item :=
  List.filter (fun x => truthy_opt (it_url x) && truthy_opt (it_headline x))
    (map (fun el =>
            {| it_url := fst <$> titleA el;
               it_headline := (fun a => trim (snd a)) <$> titleA el;
               it_categoryHref := catA el;
               it_published_at_raw := mjoin (dateMeta el) |})
         nodes).

(** What [page.goto] and the two queries of a list page give: an exception
    (caught by the loop), or the response status ([None] for a missing
    response) and the [article.list-view] elements. *)
Inductive ListRender :=
  | ListThrows
  | ListPage (status : option N) (nodes : list ListView).

(** What [fetchArticleContent] gives: an exception, or the body text
    ([None] when the page has no [section.entry-body]). *)
Inductive Detail :=
  | DetailThrows
  | DetailText (text : option jsstring).

(** The site: the list page of each number and, for the [k]-th article
    visit of the run, the outcome at the visited URL. *)
Record Site := {
  goto : nat -> ListRender;
  fetchArticleContent : nat -> jsstring -> Detail
}.

(** The state of a run: the files, the counter [total], and two logs that
    the script does not keep: the list pages requested and the rows
    appended, each with the number of its list page. *)
Record Run := {
  files : FS;
  total : nat;
  visited : list nat;
  saved : list (nat * Row)
}.

(** The object literal [row] of the loop over the items. *)
Definition row `{Platform} (it : Item) (url : jsstring)
    (content : option jsstring) : Row :=
  {| article_id := Some (getArticleIdFromUrl url);
     publisher := hostnamePretty url;
     source := Some url;
     category := categoryFromSlug (it_categoryHref it);
     published_at := normalizeDateISO (it_published_at_raw it);
     headline := it_headline it;
     content := content;
     label := 0 |}.

(** The body of [for (const it of items)]; the flag tells that an
    exception left the loop.  An item without a URL does not pass the
    filter of [scrapeListPage]; one that did would make the digest throw. *)
Fixpoint each_item `{Platform} (site : Site) (pnum : nat)
    (items : list Item) (st : Run) : Run * bool :=
  match items with
  | [] => (st, false)
  | it :: rest =>
      match it_url it with
      | None => (st, true)
      | Some url =>
          match fetchArticleContent site (total st) url with
          | DetailThrows => (st, true)
          | DetailText text =>
              let row := row it url text in
              each_item site pnum rest
                {| files := appendRow row (files st);
                   total := S (total st);
                   visited := visited st;
                   saved := saved st ++ [(pnum, row)] |}
          end
      end
  end.

(** The loop [for (pnum = ...; pnum <= last; pnum++)] with [fuel] rounds
    left. *)
Fixpoint pages `{Platform} (site : Site) (fuel pnum : nat) (st : Run) : Run :=
  match fuel with
  | 0 => st
  | S fuel' =>
      let st :=
        {| files := files st; total := total st;
           visited := visited st ++ [pnum]; saved := saved st |} in
      match goto site pnum with
      | ListThrows => st
      | ListPage status nodes =>
          if (400 <=? default 0%N status)%N then st
          else
            match nodes with
            | [] => st
            | _ :: _ =>
                match each_item site pnum (scrapeListPage nodes) st with
                | (st', true) => st'
                | (st', false) => pages site fuel' (S pnum) st'
                end
            end
      end
  end.

Definition crawl `{Platform} (site : Site) (first last : nat) (fs : FS) : Run :=
  pages site (S last - first) first
    {| files := ensureOutputs fs; total := 0; visited := []; saved := [] |}.

Definition main `{Platform} (site : Site) (fs : FS) : Run :=
  crawl site START_PAGE MAX_PAGES fs.

(** The text [fetchArticleContent] returns, from the [innerText] of
    [section.entry-body]; [None] when the page has no such section. *)
Definition entry_body_text (innerText : option jsstring) : option jsstring :=
  (fun t => trim (squeeze_lf 2 0 t)) <$> innerText.

(** The list pages at which the loop breaks before it reads any item: the
    rendering throws, the status is 400 or more, or the page has no
    [article.list-view] element. *)
Definition stops (site : Site) (pnum : nat) : Prop :=
  match goto site pnum with
  | ListThrows => True
  | ListPage status nodes => (400 <= default 0 status)%N \/ nodes = []
  end.

(** An entry of the log [saved] made while list page [pnum] was open: the
    row built from an item of that page and from the body text that a
    visit of its URL gave. *)
Definition built `{Platform} (site : Site) (pnum : nat) (e : nat * Row) : Prop :=
  e.1 = pnum
  /\ exists status nodes it url text n,
       goto site pnum = ListPage status nodes
       /\ In it (scrapeListPage nodes)
       /\ it_url it = Some url
       /\ fetchArticleContent site n url = DetailText text
       /\ e.2 = row it url text.

End Jachai.

(** ** Listings

    The in-page callbacks of the three other scripts walk the anchors of
    the listing and keep, in page order, the absolute URL of each the
    first time it shows up ([seen] is the [Set] of the callback). *)

Fixpoint first_occurrences (seen : gset jsstring) (abs : list jsstring)
    : list jsstring :=
  match abs with
  | [] => []
  | a :: rest =>
      if bool_decide (a ∈ seen) then first_occurrences seen rest
      else a :: first_occurrences ({[a]} ∪ seen) rest
  end.

(** ** The fact-watch scraper: the fact-watch.org category pages *)

Module FactWatch.

Definition FIRST_PAGE : nat := 1.
Definition LAST_PAGE : nat := 70.
Definition JSONL_PATH : string := "data/factwatch_factchecks.jsonl".
Definition CSV_PATH : string := "data/factwatch_factchecks.csv".

Definition slugFromUrl `{Platform} (url : jsstring) : jsstring :=
  match new_URL url with
  | Some u =>
      let parts := List.filter truthy (split SLASH (pathname u)) in
      last_or [] (fun seg => seg) parts
  | None => []
  end.

Definition ensureOut (fs : FS) : FS :=
  let fs :=
    if existsSync JSONL_PATH fs then fs else writeFileSync JSONL_PATH [] fs in
  if existsSync CSV_PATH fs then fs else writeFileSync CSV_PATH HEADER fs.

Definition csv_fields (rec : Row) : jsstring :=
  join (js ",")
    (map toCsvField
       [ of_opt (article_id rec);
         of_opt (publisher rec);
         of_opt (source rec);
         of_opt (category rec);
         of_opt (published_at rec);
         of_opt (headline rec);
         VStr (default [] (content rec));
         VNum (label rec) ]).

Definition writeRecord (rec : Row) (fs : FS) : FS :=
  let fs := appendFileSync JSONL_PATH (JSON_stringify rec ++ [LF]) fs in
  let line := csv_fields rec ++ [LF] in
  appendFileSync CSV_PATH line fs.

(** An anchor of the grid is given by the absolute URL its [href]
    resolves to; [None] when the [href] is empty or [new URL] rejects
    it, the two cases the callback skips. *)
Definition collectCardUrlsOnList (anchors : list (option jsstring))
    : list jsstring :=
  first_occurrences ∅ (omap (fun a => a) anchors).

(** What [p.evaluate] returns for a post. *)
Record Data := {
  d_headline : jsstring;
  d_published_at : jsstring;
  d_content : jsstring;
  d_schemaText : jsstring
}.

(** What the callback of [p.evaluate] reads in the page of a post:
    [textContent] of the heading and of the date element, [innerText] of
    the schema block, and [innerText] and [textContent] of the copy of
    [section.fw-content] from which the schema block is removed; [None]
    for an element that is missing. *)
Record PostDom := {
  h1 : option jsstring;
  dateEl : option jsstring;
  schemaEl : option jsstring;
  contentRoot : option (jsstring * jsstring)
}.

(** The callback of [p.evaluate] in [scrapeSinglePost]; [toLowerCase] is
    [String.prototype.toLowerCase]. *)
Definition evaluate (toLowerCase : jsstring -> jsstring) (dom : PostDom) : Data :=
  {| d_headline := trim (or_else (h1 dom) []);
     d_published_at := trim (or_else (dateEl dom) []);
     d_content :=
       match contentRoot dom with
       | Some (innerText, textContent) =>
           article_text (or_else (Some innerText) (or_else (Some textContent) []))
       | None => []
       end;
     d_schemaText := toLowerCase (or_else (schemaEl dom) []) |}.

(** A visit of a post: an exception, a page without [.factcheck-schema],
    or the extracted data. *)
Inductive Post :=
  | PostThrows
  | PostNoSchema
  | PostData (data : Data).

Definition scrapeSinglePost `{Platform} (url : jsstring) (visit : Post)
    : option Row :=
  match visit with
  | PostThrows => None
  | PostNoSchema => None
  | PostData data =>
      let label : N :=
        if test_ci (js "false") (d_schemaText data) then 0%N else 1%N in
      Some {| article_id := Some (slugFromUrl url);
              publisher := Some (js "fact-watch");
              source := Some url;
              category := Some (js "fact-check");
              published_at := Some (d_published_at data);
              headline := Some (d_headline data);
              content :=
                if truthy (d_content data) then Some (d_content data)
                else None;
              label := label |}
  end.

(** The site: for each page number the anchors of the grid ([None] when
    [goto] or the wait for the grid throws), and the visit of the post at
    each position of each page. *)
Record Site := {
  list_page : nat -> option (list (option jsstring));
  post : nat -> nat -> jsstring -> Post
}.

Record Run := {
  files : FS;
  total : nat;
  visited : list nat;
  saved : list (nat * Row)
}.

(** The loop over [results]. *)
Fixpoint write_results (pageNum : nat) (results : list (option Row))
    (st : Run) : Run :=
  match results with
  | [] => st
  | None :: rest => write_results pageNum rest st
  | Some rec :: rest =>
      write_results pageNum rest
        {| files := writeRecord rec (files st);
           total := S (total st);
           visited := visited st;
           saved := saved st ++ [(pageNum, rec)] |}
  end.

(** [scrapeListPage] and the [total += saved] of its caller. *)
Definition scrapeListPage `{Platform} (site : Site) (pageNum : nat)
    (st : Run) : Run :=
  let st :=
    {| files := files st; total := total st;
       visited := visited st ++ [pageNum]; saved := saved st |} in
  match list_page site pageNum with
  | None => st
  | Some anchors =>
      let postUrls := collectCardUrlsOnList anchors in
      match postUrls with
      | [] => st
      | _ :: _ =>
          let results :=
            imap (fun i u => scrapeSinglePost u (post site pageNum i u))
                 postUrls in
          write_results pageNum results st
      end
  end.

Fixpoint pages `{Platform} (site : Site) (fuel p : nat) (st : Run) : Run :=
  match fuel with
  | 0 => st
  | S fuel' => pages site fuel' (S p) (scrapeListPage site p st)
  end.

Definition crawl `{Platform} (site : Site) (first last : nat) (fs : FS) : Run :=
  pages site (S last - first) first
    {| files := ensureOut fs; total := 0; visited := []; saved := [] |}.

Definition main `{Platform} (site : Site) (fs : FS) : Run :=
  crawl site FIRST_PAGE LAST_PAGE fs.

(** An entry of the log [saved]: the record of a post of its page. *)
Definition built `{Platform} (site : Site) (e : nat * Row) : Prop :=
  exists anchors i url,
    list_page site e.1 = Some anchors
    /\ collectCardUrlsOnList anchors !! i = Some url
    /\ scrapeSinglePost url (post site e.1 i url) = Some e.2.

End FactWatch.

(** ** earki2_jokes.js: the earki.co jokes page *)

Module Jokes.

Definition JSONL_PATH : string := "data/earki_jokes.jsonl".
Definition CSV_PATH : string := "data/earki_jokes.csv".
Definition MAX_CLICKS : nat := N.to_nat 100000.

Definition getArticleIdFromUrl (url : jsstring) : option jsstring :=
  capture (js "/jokes/joke/") ahead_slash_or_end url.

Definition ensureOut (fs : FS) : FS :=
  let fs :=
    if existsSync JSONL_PATH fs then fs else writeFileSync JSONL_PATH [] fs in
  if existsSync CSV_PATH fs then fs else writeFileSync CSV_PATH HEADER fs.

(** The anchors matched by the selector carry an [href] that starts with
    [/jokes/joke]; each is given by the absolute URL the page resolves it
    to.  The result pairs every URL with its id, the empty string when
    the pattern does not match. *)
Definition collectLinkObjs (anchors : list jsstring)
    : list (jsstring * jsstring) :=
  map (fun url => (url, default [] (getArticleIdFromUrl url)))
      (first_occurrences ∅ anchors).

(** What [p.evaluate] returns for an article. *)
Record Extracted := {
  x_headline : option jsstring;
  x_published_at : jsstring;
  x_content : option jsstring
}.

(** What the callback of [p.evaluate] reads in the article page: the
    title element ([content] is there for a [meta] element only), the
    three attributes of the time element, and [innerText] and
    [textContent] of the body element; [None] for an element or an
    attribute that is missing. *)
Record ArticleDom := {
  titleEl : option (option jsstring * jsstring);
  timeEl : option (option jsstring * option jsstring * option jsstring);
  bodyEl : option (jsstring * jsstring)
}.

(** The callback of [p.evaluate] in [scrapeOneArticle]. *)
Definition evaluate (dom : ArticleDom) : Extracted :=
  let headline :=
    (fun el => trim (or_else (fst el) (or_else (Some (snd el)) []))) <$> titleEl dom in
  let publishedAttr :=
    match timeEl dom with
    | Some (data_published, datetime, content) =>
        or_else data_published (or_else datetime (or_else content []))
    | None => []
    end in
  let content :=
    match bodyEl dom with
    | Some (innerText, textContent) =>
        let content := article_text (or_else (Some innerText) (or_else (Some textContent) [])) in
        if truthy content then Some content else None
    | None => None
    end in
  {| x_headline := headline;
     x_published_at := or_else (Some publishedAttr) [];
     x_content := content |}.

Definition buildRecord (url : jsstring) (x : Extracted) : Row :=
  {| article_id := Some (default [] (getArticleIdFromUrl url));
     publisher := Some (js "earki");
     source := Some url;
     category := Some (js "jokes");
     published_at :=
       Some (if truthy (x_published_at x) then x_published_at x else []);
     headline :=
       Some (match x_headline x with
             | Some h => if truthy h then h else []
             | None => []
             end);
     content := x_content x;
     label := 0 |}.

Definition csv_fields (record : Row) : jsstring :=
  join (js ",")
    (map toCsvField
       [ of_opt (article_id record);
         of_opt (publisher record);
         of_opt (source record);
         of_opt (category record);
         of_opt (published_at record);
         of_opt (headline record);
         match content record with
         | None => VStr []
         | Some c => VStr c
         end;
         VNum (label record) ]).

Definition writeRecord (record : Row) (fs : FS) : FS :=
  let fs := appendFileSync JSONL_PATH (JSON_stringify record ++ [LF]) fs in
  let csvLine := csv_fields record ++ [LF] in
  appendFileSync CSV_PATH csvLine fs.

(** [scrapeOneArticle]: [None] stands for the caught exception. *)
Definition scrapeOneArticle (url : jsstring) (visit : option Extracted)
    : option Row :=
  buildRecord url <$> visit.

(** What one turn of the clicking loop sees: whether the button text holds
    the end marker, and the button ([None] when there is none, else whether
    it is visible and enabled). *)
Record Poll := {
  noMore : bool;
  button : option bool
}.

(** The site: whether the first [goto] succeeds, the anchors at the [k]-th
    reading of the list ([None] when no card shows up in time), the [k]-th
    article visit of the run at the visited URL, and what the loop sees
    when [clicks] is [k].  The two [page.evaluate] calls of a turn stand
    outside every [try]: [poll] is [None] when one of them throws (the
    first, or the second once the first has told that the end marker is
    not there), which rejects [main].  Opening and closing the tab of a
    visit, which [scrapeOneArticle] does outside its [try], are taken to
    succeed. *)
Record Site := {
  opens : bool;
  cards : nat -> option (list jsstring);
  article : nat -> jsstring -> option Extracted;
  poll : nat -> option Poll
}.

(** A call of [scrapeOneArticle]: the reading of the list it comes from,
    the URL, and whether a record was written. *)
Record Visit := {
  v_round : nat;
  v_url : jsstring;
  v_saved : bool
}.

(** The state of [main]: the files, [seenIds], [totalSaved], [clicks], and
    what the script does not keep: the number of readings of the list, the
    article visits and the records written, oldest first. *)
Record Run := {
  files : FS;
  seenIds : gset jsstring;
  totalSaved : nat;
  clicks : nat;
  scans : nat;
  dispatched : list Visit;
  saved : list Row
}.

(** How [main] ends: it returns, or an exception reaches
    [main().catch] and the process exits with status 1. *)
Inductive Outcome :=
  | Finished (st : Run)
  | Failed (st : Run).

Definition state_of (o : Outcome) : Run :=
  match o with Finished st => st | Failed st => st end.

(** The loop [for (const { url, id } of newOnes)] of
    [processNewCardsOnList]; [MAX_ARTICLES] is [Infinity], which rules its
    [break] out. *)
Fixpoint each_new (site : Site) (round : nat)
    (newOnes : list (jsstring * jsstring)) (st : Run) : Run :=
  match newOnes with
  | [] => st
  | (url, id) :: rest =>
      let n := length (dispatched st) in
      match scrapeOneArticle url (article site n url) with
      | Some rec =>
          each_new site round rest
            {| files := writeRecord rec (files st);
               seenIds := {[id]} ∪ seenIds st;
               totalSaved := S (totalSaved st);
               clicks := clicks st;
               scans := scans st;
               dispatched :=
                 dispatched st ++
                 [{| v_round := round; v_url := url; v_saved := true |}];
               saved := saved st ++ [rec] |}
      | None =>
          each_new site round rest
            {| files := files st;
               seenIds := seenIds st;
               totalSaved := totalSaved st;
               clicks := clicks st;
               scans := scans st;
               dispatched :=
                 dispatched st ++
                 [{| v_round := round; v_url := url; v_saved := false |}];
               saved := saved st |}
      end
  end.

Definition newOnes_of (seen : gset jsstring)
    (linkObjs : list (jsstring * jsstring)) : list (jsstring * jsstring) :=
  List.filter (fun o => truthy (snd o) && negb (bool_decide (snd o ∈ seen)))
    linkObjs.

Definition processNewCardsOnList (site : Site) (st : Run) : Outcome :=
  let round := scans st in
  let st :=
    {| files := files st; seenIds := seenIds st; totalSaved := totalSaved st;
       clicks := clicks st; scans := S (scans st);
       dispatched := dispatched st; saved := saved st |} in
  match cards site round with
  | None => Failed st
  | Some anchors =>
      let linkObjs := collectLinkObjs anchors in
      let newOnes := newOnes_of (seenIds st) linkObjs in
      Finished (each_new site round newOnes st)
  end.

Definition count_click (st : Run) : Run :=
  {| files := files st; seenIds := seenIds st; totalSaved := totalSaved st;
     clicks := S (clicks st); scans := scans st;
     dispatched := dispatched st; saved := saved st |}.

(** The loop [while (true)] with [fuel] turns left.  Every turn that does
    not leave the loop adds one to [clicks], and the loop is left when
    [clicks] reaches [max_clicks].  A [page.evaluate] that throws leaves
    [main] with the exception. *)
Fixpoint clicking (site : Site) (max_clicks fuel : nat) (st : Run) : Outcome :=
  match fuel with
  | 0 => Finished st
  | S fuel' =>
      match poll site (clicks st) with
      | None => Failed st
      | Some seen =>
          if noMore seen then Finished st
          else
            match button seen with
            | None => Finished st
            | Some visible =>
                let after :=
                  if visible then processNewCardsOnList site st
                  else Finished st in
                match after with
                | Failed st' => Failed st'
                | Finished st' =>
                    let st' := count_click st' in
                    if max_clicks <=? clicks st' then Finished st'
                    else clicking site max_clicks fuel' st'
                end
            end
      end
  end.

Definition run (site : Site) (max_clicks : nat) (fs : FS) : Outcome :=
  let st :=
    {| files := ensureOut fs; seenIds := ∅; totalSaved := 0; clicks := 0;
       scans := 0; dispatched := []; saved := [] |} in
  if opens site then
    match processNewCardsOnList site st with
    | Failed st' => Failed st'
    | Finished st' => clicking site max_clicks (S max_clicks) st'
    end
  else Failed st.

Definition main (site : Site) (fs : FS) : Outcome :=
  run site MAX_CLICKS fs.

(** What holds of the state of a run at every point between two readings
    of the list: a visit belongs to a past reading and its URL has an id,
    which is in [seenIds] when the visit wrote a record; a URL is visited
    again only after a visit that wrote nothing, in a later reading; and
    the records written come from visits, one per source. *)
Record inv (site : Site) (st : Run) : Prop := {
  inv_visit : forall v, v ∈ dispatched st ->
    v_round v < scans st
    /\ exists d, getArticleIdFromUrl (v_url v) = Some d
                 /\ (v_saved v = true -> d ∈ seenIds st);
  inv_again : forall i j v1 v2, i < j ->
    dispatched st !! i = Some v1 -> dispatched st !! j = Some v2 ->
    v_url v1 = v_url v2 ->
    v_saved v1 = false /\ v_round v1 < v_round v2;
  inv_saved : forall rec, rec ∈ saved st ->
    exists v x n, v ∈ dispatched st /\ v_saved v = true
                  /\ article site n (v_url v) = Some x
                  /\ rec = buildRecord (v_url v) x;
  inv_once : NoDup (map source (saved st))
}.

End Jokes.

(** ** earki_satire_scraper.js: the earki.co satire page *)

Module Satire.

Definition BASE : jsstring := js "https://www.earki.co".
Definition JSONL_PATH : string := "data/earki_satire.jsonl".
Definition CSV_PATH : string := "data/earki_satire.csv".

Definition ensureOut (fs : FS) : FS :=
  let fs :=
    if existsSync JSONL_PATH fs then fs else writeFileSync JSONL_PATH [] fs in
  if existsSync CSV_PATH fs then fs else writeFileSync CSV_PATH HEADER fs.

(** The anchors are given by their [href] attribute ([None] for a
    missing one). *)
Definition collectAllLinks (hrefs : list (option jsstring)) : list jsstring :=
  first_occurrences ∅
    (omap (fun a =>
             let href := default [] a in
             if truthy href then
               Some (match strip_prefix (js "http") href with
                     | Some _ => href
                     | None => BASE ++ href
                     end)
             else None)
          hrefs).

Definition getArticleIdFromUrl (url : jsstring) : option jsstring :=
  capture (js "/satire/article/") ahead_word_boundary url.

(** What [p.evaluate] returns for an article. *)
Record Extracted := {
  x_headline : option jsstring;
  x_published_at : jsstring;
  x_content : option jsstring
}.

(** What the callback of [p.evaluate] reads in the article page:
    [textContent] of the title element, the [data-published] attribute of
    the time element and [innerText] of the body element; [None] for what
    is missing. *)
Record ArticleDom := {
  titleEl : option jsstring;
  timeEl : option (option jsstring);
  bodyEl : option jsstring
}.

(** The callback of [p.evaluate] in [main]. *)
Definition evaluate (dom : ArticleDom) : Extracted :=
  let headline := trim <$> titleEl dom in
  let publishedAttr := mjoin (timeEl dom) in
  let content :=
    match bodyEl dom with
    | Some innerText =>
        let content := article_text innerText in
        if length content =? 0 then None else Some content
    | None => None
    end in
  {| x_headline := headline;
     x_published_at := or_else publishedAttr [];
     x_content := content |}.

(** The object literal [record] of [main]. *)
Definition record (url : jsstring) (row : Extracted) : Row :=
  {| article_id := Some (default [] (getArticleIdFromUrl url));
     publisher := Some (js "earki");
     source := Some url;
     category := Some (js "article");
     published_at := Some (x_published_at row);
     headline :=
       Some (match x_headline row with
             | Some h => if truthy h then h else []
             | None => []
             end);
     content := x_content row;
     label := 0 |}.

Definition csv_fields (record : Row) : jsstring :=
  join (js ",")
    (map toCsvField
       [ of_opt (article_id record);
         of_opt (publisher record);
         of_opt (source record);
         of_opt (category record);
         of_opt (published_at record);
         of_opt (headline record);
         match content record with
         | None => VStr []
         | Some c => VStr c
         end;
         VNum (label record) ]).

(** The two appends of [main]. *)
Definition append (record : Row) (fs : FS) : FS :=
  let fs := appendFileSync JSONL_PATH (JSON_stringify record ++ [LF]) fs in
  let csvLine := csv_fields record ++ [LF] in
  appendFileSync CSV_PATH csvLine fs.

(** The site once the clicking has ended: the [href] of the anchors of the
    list and, for the [k]-th entry of [links], the outcome of visiting it
    ([None] for a caught exception). *)
Record Site := {
  hrefs : list (option jsstring);
  article : nat -> jsstring -> option Extracted
}.

Record Run := {
  files : FS;
  processed : nat;
  saved : list Row
}.

(** The loop [for (const url of links.slice(0, MAX_ARTICLES))], at entry
    [k] of [links]; [MAX_ARTICLES] is [Infinity]. *)
Fixpoint each_link (site : Site) (k : nat) (links : list jsstring)
    (st : Run) : Run :=
  match links with
  | [] => st
  | url :: rest =>
      match article site k url with
      | Some row =>
          let rec := record url row in
          each_link site (S k) rest
            {| files := append rec (files st);
               processed := S (processed st);
               saved := saved st ++ [rec] |}
      | None => each_link site (S k) rest st
      end
  end.

Definition main (site : Site) (fs : FS) : Run :=
  each_link site 0 (collectAllLinks (hrefs site))
    {| files := ensureOut fs; processed := 0; saved := [] |}.

End Satire.

(** ** Reading the encodings back

    The two decoders are not part of the scripts: they are the reader's
    side of the two formats (a field of a comma-separated line, the body
    of a JSON string) and serve to state what the encoders keep. *)

(** A doubled double quote stands for one. *)
Fixpoint undouble_quotes (s : jsstring) : jsstring :=
  match s with
  | [] => []
  | c :: t =>
      if (c =? DQUOTE)%N then
        match t with
        | d :: t' =>
            if (d =? DQUOTE)%N then DQUOTE :: undouble_quotes t'
            else c :: undouble_quotes t
        | [] => [c]
        end
      else c :: undouble_quotes t
  end.

(** A field that opens with a double quote is read between its quotes. *)
Definition csv_read_field (f : jsstring) : jsstring :=
  match f with
  | c :: t =>
      if (c =? DQUOTE)%N then undouble_quotes (removelast t) else f
  | [] => []
  end.

(** A comma-separated line read field by field (the line without the line
    feed that ends it): at the start of a field, in a plain field, in a
    quoted field, and after a double quote met in a quoted field.  [acc]
    holds the units of the current field. *)
Inductive csv_mode := FieldStart | InPlain | InQuoted | QuoteSeen.

Fixpoint csv_parse (m : csv_mode) (acc s : jsstring) : list jsstring :=
  match s with
  | [] => [acc]
  | c :: t =>
      match m with
      | FieldStart =>
          if (c =? DQUOTE)%N then csv_parse InQuoted [] t
          else if (c =? COMMA)%N then [] :: csv_parse FieldStart [] t
          else csv_parse InPlain [c] t
      | InPlain =>
          if (c =? COMMA)%N then acc :: csv_parse FieldStart [] t
          else csv_parse InPlain (acc ++ [c]) t
      | InQuoted =>
          if (c =? DQUOTE)%N then csv_parse QuoteSeen acc t
          else csv_parse InQuoted (acc ++ [c]) t
      | QuoteSeen =>
          if (c =? DQUOTE)%N then csv_parse InQuoted (acc ++ [DQUOTE]) t
          else if (c =? COMMA)%N then acc :: csv_parse FieldStart [] t
          else csv_parse InPlain (acc ++ [c]) t
      end
  end.

Definition csv_read_line (line : jsstring) : list jsstring :=
  csv_parse FieldStart [] line.

(** The text of a field of a row, [null] read as the empty text. *)
Definition field_texts (r : Row) : list jsstring :=
  [ default [] (article_id r); default [] (publisher r);
    default [] (source r); default [] (category r);
    default [] (published_at r); default [] (headline r);
    default [] (content r); Number_toString (label r) ].

(** [enc] is how a tabular encoder writes the text [txt]: between double
    quotes with its double quotes doubled, or as it is when it holds no
    double quote and no comma. *)
Definition csv_encodes (enc txt : jsstring) : Prop :=
  enc = in_quotes (double_quotes txt)
  \/ (enc = txt /\ includes DQUOTE txt = false /\ includes COMMA txt = false).

(** [seg] is the last non-empty segment of [path]: it is not empty and
    holds no slash, what follows it in the path is slashes only, and it
    starts the path or comes right after a slash. *)
Definition is_last_segment (path seg : jsstring) : Prop :=
  seg <> [] /\ ~ In SLASH seg
  /\ exists a b, path = a ++ seg ++ b /\ Forall (eq SLASH) b
                 /\ (a = [] \/ last a = Some SLASH).

(** No two neighbours [x], [y] of the text are in the relation [bad]. *)
Fixpoint no_pair (bad : N -> N -> bool) (s : jsstring) : bool :=
  match s with
  | x :: t =>
      match t with
      | y :: _ => negb (bad x y) && no_pair bad t
      | [] => true
      end
  | [] => true
  end.

Definition ws_then_lf (x y : N) : bool := is_ws x && (y =? LF)%N.
Definition lf_then_ws (x y : N) : bool := (x =? LF)%N && is_ws y.

Definition hexval (c : N) : N :=
  if (c <? 58)%N then (c - 48)%N else (c - 87)%N.

(** The body of a JSON string read back. *)
Fixpoint json_read (s : jsstring) : jsstring :=
  match s with
  | [] => []
  | c :: t =>
      if (c =? BACKSLASH)%N then
        match t with
        | e :: t1 =>
            if (e =? 98)%N then 8%N :: json_read t1
            else if (e =? 116)%N then 9%N :: json_read t1
            else if (e =? 110)%N then 10%N :: json_read t1
            else if (e =? 102)%N then 12%N :: json_read t1
            else if (e =? 114)%N then 13%N :: json_read t1
            else if (e =? 117)%N then
              match t1 with
              | h1 :: h2 :: h3 :: h4 :: t5 =>
                  (4096 * hexval h1 + 256 * hexval h2
                   + 16 * hexval h3 + hexval h4)%N :: json_read t5
              | _ => []
              end
            else e :: json_read t1
        | [] => []
        end
      else c :: json_read t
  end.

(** ** Sample inputs

    A stand-in platform for the examples: [sample_new_URL] splits
    [scheme://host/path] at the first slash, question mark or hash after
    the host and rejects a text without [://]; the date parser knows one
    date; the digest is forty zeros. *)

Fixpoint until_any (stops : list N) (s : jsstring) : jsstring * jsstring :=
  match s with
  | [] => ([], [])
  | c :: t =>
      if existsb (N.eqb c) stops then ([], s)
      else let (a, b) := until_any stops t in (c :: a, b)
  end.

Fixpoint after_scheme (s : jsstring) : option jsstring :=
  match strip_prefix (js "://") s with
  | Some r => Some r
  | None =>
      match s with
      | [] => None
      | _ :: t => after_scheme t
      end
  end.

Definition sample_new_URL (s : jsstring) : option URL :=
  match after_scheme s with
  | Some r =>
      let (host, r') := until_any [SLASH; 63%N; 35%N] r in
      let (path, _) := until_any [63%N; 35%N] r' in
      Some {| hostname := host;
              pathname := match path with [] => [SLASH] | _ => path end |}
  | None => None
  end.

Definition sample_date : jsstring := js "2023-08-22T14:38:19+06:00".
Definition sample_date_iso : jsstring := js "2023-08-22T08:38:19.000Z".

Definition sample_platform : Platform := {|
  new_URL := sample_new_URL;
  new_Date := fun s =>
    if bool_decide (s = sample_date) then Some 1692693499000%Z else None;
  toISOString := fun _ => sample_date_iso;
  sha1 := fun _ => replicate 40 48%N
|}.

(** A row whose headline and content hold a line feed, a comma and a
    double quote. *)
Definition sample_text : jsstring :=
  js "one," ++ [LF] ++ js "two " ++ [DQUOTE] ++ js "x" ++ [DQUOTE].

Definition sample_row : Row :=
  {| article_id := Some (js "1234");
     publisher := Some (js "jachai.org");
     source := Some (js "https://www.jachai.org/fact-checks/post-1234");
     category := Some (js "fact-checks");
     published_at := Some sample_date_iso;
     headline := Some sample_text;
     content := Some sample_text;
     label := 0 |}.

(** The line feeds held by the text fields of a row. *)
Definition field_lines (r : Row) : nat :=
  lines (default [] (article_id r)) + lines (default [] (publisher r))
  + lines (default [] (source r)) + lines (default [] (category r))
  + lines (default [] (published_at r)) + lines (default [] (headline r))
  + lines (default [] (content r)).

(** [N] calls of an append, oldest row first. *)
Definition append_all (append : Row -> FS -> FS) (rows : list Row) (fs : FS) : FS :=
  foldl (fun fs r => append r fs) fs rows.

(** The files the four scripts write. *)
Definition output_paths : list string :=
  [ Jachai.OUT_CSV; Jachai.OUT_JSONL;
    Jokes.CSV_PATH; Jokes.JSONL_PATH;
    Satire.CSV_PATH; Satire.JSONL_PATH;
    FactWatch.CSV_PATH; FactWatch.JSONL_PATH ].

(** ** What a pattern matches

    The meaning of the three patterns, stated without the search: the text
    is [pre], the literal, a non-empty run of digits [d] and [post], with
    the condition of the pattern on [post].  [String.prototype.match]
    returns the match that starts leftmost and, among these, the one whose
    run of digits is longest. *)

Definition matches (lit : jsstring) (ahead : jsstring -> bool)
    (s pre d post : jsstring) : Prop :=
  s = pre ++ lit ++ d ++ post /\ d <> [] /\ forallb is_digit d = true
  /\ ahead post = true.

Definition first_match (lit : jsstring) (ahead : jsstring -> bool)
    (s pre d post : jsstring) : Prop :=
  matches lit ahead s pre d post
  /\ forall pre' d' post', matches lit ahead s pre' d' post' ->
       length pre < length pre'
       \/ (length pre = length pre' /\ length d' <= length d).

(** A condition that holds before a digit holds after it as well: none of
    the three gives a shorter run of digits a chance the longest run does
    not have. *)
Definition ahead_closed (ahead : jsstring -> bool) : Prop :=
  forall c r, is_digit c = true -> ahead (c :: r) = true -> ahead r = true.

(** A lowercase hexadecimal digit. *)
Definition is_hex (c : N) : bool :=
  (is_digit c || (97 <=? c) && (c <=? 102))%N.

(** What the spec asks of the digest: forty hexadecimal digits. *)
Definition hex_digest (digest : jsstring -> jsstring) : Prop :=
  forall s, length (digest s) = 40 /\ forallb is_hex (digest s) = true.

Definition sample_post_url : jsstring :=
  js "https://www.jachai.org/fact-checks/post-1234".
Definition sample_joke_url : jsstring :=
  js "https://www.earki.co/jokes/joke/11081/some-title".
Definition sample_satire_url : jsstring :=
  js "https://www.earki.co/satire/article/10872/some-title".

(** A jachai site whose page 5 has no article and whose other pages list
    one article each. *)
Definition sample_list_view (n : nat) : Jachai.ListView :=
  {| Jachai.titleA :=
       Some (js "https://www.jachai.org/fact-checks/post-"
               ++ Number_toString (N.of_nat n),
             js " A claim ");
     Jachai.catA := Some (js "https://www.jachai.org/fact-checks/politics/");
     Jachai.dateMeta := Some (Some sample_date) |}.

Definition sample_jachai_site : Jachai.Site :=
  {| Jachai.goto := fun n =>
       if n =? 5 then Jachai.ListPage (Some 200%N) []
       else Jachai.ListPage (Some 200%N) [sample_list_view n];
     Jachai.fetchArticleContent := fun _ _ => Jachai.DetailText (Some sample_text) |}.

(** A jachai site whose page 5 has one [article.list-view] element without
    a title link, so that the page yields no item. *)
Definition sample_jachai_site_untitled : Jachai.Site :=
  {| Jachai.goto := fun n =>
       if n =? 5 then
         Jachai.ListPage (Some 200%N)
           [{| Jachai.titleA := None; Jachai.catA := None;
               Jachai.dateMeta := None |}]
       else Jachai.ListPage (Some 200%N) [sample_list_view n];
     Jachai.fetchArticleContent := fun _ _ => Jachai.DetailText (Some sample_text) |}.

(** A fact-watch site whose page 5 has no card and whose other pages list
    one post each, with a schema block that rates the claim false. *)
Definition sample_factwatch_site : FactWatch.Site :=
  {| FactWatch.list_page := fun n =>
       if n =? 5 then Some []
       else Some [Some (js "https://www.fact-watch.org/post-"
                          ++ Number_toString (N.of_nat n) ++ js "/")];
     FactWatch.post := fun _ _ _ =>
       FactWatch.PostData
         {| FactWatch.d_headline := js "A claim";
            FactWatch.d_published_at := js "August 22, 2023";
            FactWatch.d_content := js "Body";
            FactWatch.d_schemaText := js "rating: false" |} |}.

(** The text holds the literal, letter case aside. *)
Definition contains_ci (lit s : jsstring) : Prop :=
  exists pre w post,
    s = pre ++ w ++ post /\ map fold_ascii w = map fold_ascii lit.


(** A jokes page that lists three cards at every reading, the third with
    a URL without digits; the first article visit of the run fails; the
    button is there for two turns, then its text holds the end marker. *)
Definition sample_joke_url2 : jsstring :=
  js "https://www.earki.co/jokes/joke/11082/other-title".
Definition sample_joke_url_bad : jsstring :=
  js "https://www.earki.co/jokes/joke/abc".

Definition sample_extracted : Jokes.Extracted :=
  {| Jokes.x_headline := Some (js "A joke");
     Jokes.x_published_at := sample_date;
     Jokes.x_content := Some sample_text |}.

Definition sample_jokes_site : Jokes.Site :=
  {| Jokes.opens := true;
     Jokes.cards := fun _ =>
       Some [sample_joke_url; sample_joke_url2; sample_joke_url_bad;
             sample_joke_url];
     Jokes.article := fun n _ => if n =? 0 then None else Some sample_extracted;
     Jokes.poll := fun k =>
       if k <? 2 then Some {| Jokes.noMore := false; Jokes.button := Some true |}
       else Some {| Jokes.noMore := true; Jokes.button := Some true |} |}.

(** A satire page with two articles. *)
Definition sample_satire_site : Satire.Site :=
  {| Satire.hrefs :=
       [Some (js "/satire/article/10872/some-title");
        Some (js "/satire/article/10873/other-title");
        Some (js "/satire/article/10872/some-title")];
     Satire.article := fun _ _ =>
       Some {| Satire.x_headline := Some (js "A satire");
               Satire.x_published_at := sample_date;
               Satire.x_content := None |} |}.





(** Every record written by a run of earki2_jokes.js comes from the visit
    of the run that has its number [n], a visit that wrote its record: the
    record is built from the URL of that visit and from what the page gave
    at that visit. *)
Definition Jokes_from_visits (site : Jokes.Site) (st : Jokes.Run) : Prop :=
  forall rec, rec ∈ Jokes.saved st ->
    exists n v x,
      Jokes.dispatched st !! n = Some v /\ Jokes.v_saved v = true
      /\ Jokes.article site n (Jokes.v_url v) = Some x
      /\ rec = Jokes.buildRecord (Jokes.v_url v) x.

(** The books of a run of earki2_jokes.js: [totalSaved], the files and
    [seenIds] in terms of the visits of the run and of the records they
    wrote. *)
Record Jokes_books (fs : FS) (st : Jokes.Run) : Prop := {
  books_total : Jokes.totalSaved st = length (Jokes.saved st);
  books_files :
    Jokes.files st
    = append_all Jokes.writeRecord (Jokes.saved st) (Jokes.ensureOut fs);
  books_sources :
    map source (Jokes.saved st)
    = map (fun v => Some (Jokes.v_url v))
        (List.filter Jokes.v_saved (Jokes.dispatched st));
  books_seen : forall d,
    d ∈ Jokes.seenIds st <->
    exists v, v ∈ Jokes.dispatched st /\ Jokes.v_saved v = true
              /\ Jokes.getArticleIdFromUrl (Jokes.v_url v) = Some d
}.

(** How a run of earki2_jokes.js ends, and the caps it keeps: [clicks]
    never passes [max_clicks] (one turn of the loop is always allowed), and
    the list is read once before the loop and at most once per turn.  A run
    that ends without an exception has opened the list, has found cards at
    every reading of it, and has had an answer from the page at every turn
    it counted. *)
Definition Jokes_ending (site : Jokes.Site) (max_clicks : nat)
    (o : Jokes.Outcome) : Prop :=
  Jokes.clicks (Jokes.state_of o) <= Nat.max 1 max_clicks
  /\ match o with
     | Jokes.Finished st =>
         Jokes.scans st <= S (Jokes.clicks st)
         /\ Jokes.opens site = true
         /\ (forall k, k < Jokes.scans st -> Jokes.cards site k <> None)
         /\ (forall k, k < Jokes.clicks st -> Jokes.poll site k <> None)
     | Jokes.Failed st => Jokes.scans st <= S (S (Jokes.clicks st))
     end.

(** ** Reading a line of the JSONL file

    A reader of the text that [JSON.stringify] gives for a record: the
    members in the order of the object literal, each value a string token
    or [null], the label a run of digits. *)

(** The token up to its closing quote, and what follows the quote. *)
Fixpoint json_scan (s : jsstring) : option (jsstring * jsstring) :=
  match s with
  | [] => None
  | c :: t =>
      if (c =? DQUOTE)%N then Some ([], t)
      else if (c =? BACKSLASH)%N then
        match t with
        | e :: t1 => (fun p => (c :: e :: p.1, p.2)) <$> json_scan t1
        | [] => None
        end
      else (fun p => (c :: p.1, p.2)) <$> json_scan t
  end.

Definition json_take_string (s : jsstring)
    : option (option jsstring * jsstring) :=
  match strip_prefix (js "null") s with
  | Some rest => Some (None, rest)
  | None =>
      match s with
      | c :: t =>
          if (c =? DQUOTE)%N
          then (fun p => (Some (json_read p.1), p.2)) <$> json_scan t
          else None
      | [] => None
      end
  end.

Fixpoint units_uint (s : jsstring) : Decimal.uint :=
  match s with
  | [] => Decimal.Nil
  | c :: t =>
      let d := units_uint t in
      if (c =? 48)%N then Decimal.D0 d
      else if (c =? 49)%N then Decimal.D1 d
      else if (c =? 50)%N then Decimal.D2 d
      else if (c =? 51)%N then Decimal.D3 d
      else if (c =? 52)%N then Decimal.D4 d
      else if (c =? 53)%N then Decimal.D5 d
      else if (c =? 54)%N then Decimal.D6 d
      else if (c =? 55)%N then Decimal.D7 d
      else if (c =? 56)%N then Decimal.D8 d
      else Decimal.D9 d
  end.

Definition json_take_number (s : jsstring) : option (N * jsstring) :=
  match span_digits s with
  | ([], _) => None
  | (d, rest) => Some (N.of_uint (units_uint d), rest)
  end.

(** A member [key:value] after the text [before]. *)
Definition json_member_at {A} (take : jsstring -> option (A * jsstring))
    (before : string) (key : string) (s : jsstring) : option (A * jsstring) :=
  match strip_prefix (js before ++ in_quotes (js key) ++ js ":") s with
  | Some t => take t
  | None => None
  end.

Definition json_read_row (line : jsstring) : option Row :=
  match json_member_at json_take_string "{" "article_id" line with
  | Some (f1, s) =>
  match json_member_at json_take_string "," "publisher" s with
  | Some (f2, s) =>
  match json_member_at json_take_string "," "source" s with
  | Some (f3, s) =>
  match json_member_at json_take_string "," "category" s with
  | Some (f4, s) =>
  match json_member_at json_take_string "," "published_at" s with
  | Some (f5, s) =>
  match json_member_at json_take_string "," "headline" s with
  | Some (f6, s) =>
  match json_member_at json_take_string "," "content" s with
  | Some (f7, s) =>
  match json_member_at json_take_number "," "label" s with
  | Some (n, s) =>
      match strip_prefix (js "}") s with
      | Some [] =>
          Some {| article_id := f1; publisher := f2; source := f3;
                  category := f4; published_at := f5; headline := f6;
                  content := f7; label := n |}
      | _ => None
      end
  | None => None end
  | None => None end
  | None => None end
  | None => None end
  | None => None end
  | None => None end
  | None => None end
  | None => None end.

(* ===================================================================== *)
(** * Part II: properties *)
(* ===================================================================== *)

#[local] Arguments N.eqb : simpl never.
#[local] Arguments N.leb : simpl never.
#[local] Arguments N.ltb : simpl never.

(** ** Lines of a text *)

Lemma lines_app (a b : jsstring) : lines (a ++ b) = lines a + lines b.
Proof. unfold lines. by rewrite List.filter_app, length_app. Qed.

Lemma lines_cons (c : N) (s : jsstring) :
  lines (c :: s) = (if (LF =? c)%N then 1 else 0) + lines s.
Proof. unfold lines. cbn [List.filter]. by destruct (LF =? c)%N. Qed.

Lemma lines_rev (s : jsstring) : lines (rev s) = lines s.
Proof.
  induction s as [|c t IH]; [done|].
  simpl rev. rewrite lines_app, IH, !lines_cons. unfold lines at 2. simpl. lia.
Qed.

Lemma lines_zero_iff (s : jsstring) : lines s = 0 <-> ~ In LF s.
Proof.
  induction s as [|c t IH]; [by cbn; intuition|].
  rewrite lines_cons. cbn [In]. destruct (N.eqb_spec LF c) as [E|Hne].
  - split; [lia|]. intros H; exfalso; apply H; by left.
  - rewrite Nat.add_0_l, IH. intuition congruence.
Qed.

Lemma lines_js_ascii (s : string) :
  forallb (fun a => negb (N_of_ascii a =? LF)%N) (list_ascii_of_string s) = true ->
  lines (js s) = 0.
Proof.
  unfold js. induction (list_ascii_of_string s) as [|a l IH]; [done|].
  simpl. intros [Ha Hl]%andb_prop. rewrite lines_cons, (IH Hl).
  rewrite N.eqb_sym. by destruct (N_of_ascii a =? LF)%N.
Qed.

(** ** The tabular encoders *)

Example toCsvField_ex1 :
  toCsvField (VStr (js "a,b" ++ [LF] ++ js " c ")) = in_quotes (js "a,b  c").
Proof. reflexivity. Qed.

Example csvEscape_ex1 :
  csvEscape (VStr (js "a,b" ++ [LF] ++ js " c "))
  = in_quotes (js "a,b" ++ [LF] ++ js " c ").
Proof. reflexivity. Qed.

Lemma lines_replace_crlf_space (s : jsstring) :
  lines (replace_crlf_space s) = 0.
Proof.
  induction s as [|c t IH]; [done|].
  simpl. destruct (N.eqb_spec c LF) as [->|Hc].
  - by rewrite lines_cons.
  - destruct (N.eqb_spec c CR) as [->|Hc'].
    + destruct t as [|d t']; [done|].
      pose proof IH as IH'. cbn [replace_crlf_space] in IH'.
      destruct (N.eqb_spec d LF) as [->|Hd].
      * by rewrite lines_cons in IH' |- *.
      * by rewrite lines_cons, IH.
    + rewrite lines_cons, IH. destruct (N.eqb_spec LF c); [congruence|done].
Qed.

Lemma trimStart_suffix (s : jsstring) : exists p, s = p ++ trimStart s.
Proof.
  induction s as [|c t [p Hp]]; [by exists []|].
  simpl. destruct (is_ws c).
  - exists (c :: p). simpl. by f_equal.
  - by exists [].
Qed.

Lemma lines_trimStart (s : jsstring) : lines (trimStart s) <= lines s.
Proof.
  destruct (trimStart_suffix s) as [p Hp].
  rewrite Hp at 2. rewrite lines_app. lia.
Qed.

Lemma lines_trim (s : jsstring) : lines (trim s) <= lines s.
Proof.
  unfold trim, trimEnd. rewrite lines_rev.
  etrans; [apply lines_trimStart|]. rewrite lines_rev. apply lines_trimStart.
Qed.

Lemma lines_double_quotes (s : jsstring) : lines (double_quotes s) = lines s.
Proof.
  induction s as [|c t IH]; [done|].
  unfold double_quotes in *. simpl. rewrite lines_app, IH, lines_cons.
  destruct (N.eqb_spec c DQUOTE) as [->|Hc]; [done|].
  rewrite lines_cons. unfold lines at 1. cbn. lia.
Qed.

Lemma lines_in_quotes (s : jsstring) : lines (in_quotes s) = lines s.
Proof.
  unfold in_quotes. rewrite lines_app, lines_app. unfold lines at 1 3. simpl. lia.
Qed.

Lemma lines_toCsvField (v : value) : lines (toCsvField v) = 0.
Proof.
  assert (H : forall s, lines (trim (replace_crlf_space s)) = 0).
  { intros s. pose proof (lines_trim (replace_crlf_space s)) as H.
    rewrite lines_replace_crlf_space in H. lia. }
  destruct v as [| |s|n]; try done; unfold toCsvField;
    match goal with
    | |- context [trim (replace_crlf_space ?x)] =>
        specialize (H x); destruct (_ || _);
        [by rewrite lines_in_quotes, lines_double_quotes|done]
    end.
Qed.

Lemma lines_csvEscape (s : jsstring) : lines (csvEscape (VStr s)) = lines s.
Proof.
  unfold csvEscape. simpl. destruct (existsb _ s); [|done].
  by rewrite lines_in_quotes, lines_double_quotes.
Qed.

Lemma undouble_double_quotes (s : jsstring) :
  undouble_quotes (double_quotes s) = s.
Proof.
  induction s as [|c t IH]; [done|].
  unfold double_quotes in *. simpl.
  destruct (N.eqb_spec c DQUOTE) as [->|Hc]; simpl.
  - by rewrite IH.
  - destruct (N.eqb_spec c DQUOTE); [done|]. by rewrite IH.
Qed.

Lemma csv_read_in_quotes (s : jsstring) :
  csv_read_field (in_quotes (double_quotes s)) = s.
Proof.
  unfold in_quotes, csv_read_field. simpl.
  by rewrite removelast_last, undouble_double_quotes.
Qed.

Lemma csv_read_plain (s : jsstring) :
  includes DQUOTE s = false -> csv_read_field s = s.
Proof.
  destruct s as [|c t]; [done|]. unfold includes. simpl.
  intros [Hc _]%orb_false_elim. rewrite N.eqb_sym in Hc.
  unfold csv_read_field. by rewrite Hc.
Qed.

(** ** The structured encoding *)

Ltac N_props :=
  repeat match goal with
    | H : (_ =? _)%N = true |- _ => apply N.eqb_eq in H
    | H : (_ =? _)%N = false |- _ => apply N.eqb_neq in H
    | H : (_ <? _)%N = true |- _ => apply N.ltb_lt in H
    | H : (_ <? _)%N = false |- _ => apply N.ltb_ge in H
    | H : (_ <=? _)%N = true |- _ => apply N.leb_le in H
    | H : (_ <=? _)%N = false |- _ => apply N.leb_gt in H
    | H : (_ && _) = true |- _ => apply andb_true_iff in H; destruct H
    | H : (_ && _) = false |- _ => apply andb_false_iff in H; destruct H
    | H : (_ || _) = true |- _ => apply orb_true_iff in H; destruct H
    | H : (_ || _) = false |- _ => apply orb_false_iff in H; destruct H
    | H : negb _ = true |- _ => apply negb_true_iff in H
    | H : negb _ = false |- _ => apply negb_false_iff in H
    end.

Lemma lines_cons_ne (c : N) (s : jsstring) : c <> LF -> lines (c :: s) = lines s.
Proof.
  intros Hc. rewrite lines_cons. destruct (N.eqb_spec LF c); [congruence|done].
Qed.

Lemma json_units_cons (c : N) (t : jsstring) :
  json_units (c :: t) =
    if (c =? 8)%N then BACKSLASH :: 98%N :: json_units t
    else if (c =? 9)%N then BACKSLASH :: 116%N :: json_units t
    else if (c =? 10)%N then BACKSLASH :: 110%N :: json_units t
    else if (c =? 12)%N then BACKSLASH :: 102%N :: json_units t
    else if (c =? 13)%N then BACKSLASH :: 114%N :: json_units t
    else if (c =? DQUOTE)%N then BACKSLASH :: DQUOTE :: json_units t
    else if (c =? BACKSLASH)%N then BACKSLASH :: BACKSLASH :: json_units t
    else if (c <? 32)%N then unicode_escape c ++ json_units t
    else if is_high_surrogate c then
      match t with
      | d :: t' =>
          if is_low_surrogate d then c :: d :: json_units t'
          else unicode_escape c ++ json_units t
      | [] => unicode_escape c
      end
    else if is_low_surrogate c then unicode_escape c ++ json_units t
    else c :: json_units t.
Proof. reflexivity. Qed.

Lemma hexdigit_ge (n : N) : (48 <= hexdigit n)%N.
Proof. unfold hexdigit. destruct (n <? 10)%N; lia. Qed.

Lemma lines_unicode_escape (c : N) : lines (unicode_escape c) = 0.
Proof.
  unfold unicode_escape.
  rewrite !lines_cons_ne; [done|..];
    first [ discriminate
          | match goal with
            | |- hexdigit ?n <> _ => pose proof (hexdigit_ge n); unfold LF; lia
            end ].
Qed.

Lemma lines_json_units (s : jsstring) : lines (json_units s) = 0.
Proof.
  remember (length s) as n eqn:Hn. revert s Hn.
  induction n as [n IH] using lt_wf_ind. intros s ->.
  destruct s as [|c t]; [done|].
  assert (IHt : lines (json_units t) = 0) by (eapply IH; [|done]; simpl; lia).
  rewrite json_units_cons. unfold is_high_surrogate, is_low_surrogate.
  repeat case_match; N_props; subst;
    rewrite ?lines_app, ?lines_unicode_escape, ?IHt; try done;
    try (rewrite !lines_cons_ne; [first [done | eapply IH; [|done]; simpl; lia]|unfold LF; lia..]).
Qed.

Lemma lines_uint_units (d : Decimal.uint) : lines (uint_units d) = 0.
Proof. induction d; [done|simpl; by rewrite lines_cons_ne..]. Qed.

Lemma lines_Number_toString (n : N) : lines (Number_toString n) = 0.
Proof. apply lines_uint_units. Qed.

Lemma lines_JSON_string (v : option jsstring) : lines (JSON_string v) = 0.
Proof.
  destruct v as [s|]; [|done]. simpl. by rewrite lines_in_quotes, lines_json_units.
Qed.

Lemma lines_JSON_stringify (r : Row) : lines (JSON_stringify r) = 0.
Proof.
  unfold JSON_stringify, JSON_member. cbn [join].
  rewrite !lines_app, !lines_JSON_string, lines_Number_toString.
  by rewrite !lines_in_quotes.
Qed.

Lemma hexval_hexdigit (n : N) : (n < 16)%N -> hexval (hexdigit n) = n.
Proof.
  intros Hn. unfold hexval, hexdigit.
  destruct (N.ltb_spec n 10); [destruct (N.ltb_spec (48 + n) 58)|
                               destruct (N.ltb_spec (87 + n) 58)]; lia.
Qed.

Lemma hex_digits_sum (c : N) :
  (c < 65536)%N ->
  (4096 * ((c / 4096) mod 16) + 256 * ((c / 256) mod 16)
   + 16 * ((c / 16) mod 16) + c mod 16)%N = c.
Proof.
  intros Hc.
  pose proof (N.div_mod c 16) as H0.
  pose proof (N.div_mod (c / 16) 16) as H1.
  pose proof (N.div_mod (c / 256) 16) as H2.
  rewrite N.Div0.div_div in H1, H2. change (16 * 16)%N with 256%N in H1.
  change (256 * 16)%N with 4096%N in H2.
  assert (H3 : (c / 4096 < 16)%N) by (apply N.Div0.div_lt_upper_bound; lia).
  rewrite (N.mod_small _ _ H3). lia.
Qed.

Lemma json_read_plain (c : N) (t : jsstring) :
  c <> BACKSLASH -> json_read (c :: t) = c :: json_read t.
Proof.
  intros Hc. cbn [json_read]. by destruct (N.eqb_spec c BACKSLASH).
Qed.

Lemma json_read_unicode_escape (c : N) (rest : jsstring) :
  (c < 65536)%N -> json_read (unicode_escape c ++ rest) = c :: json_read rest.
Proof.
  intros Hc.
  change (json_read (unicode_escape c ++ rest))
    with ((4096 * hexval (hexdigit ((c / 4096) mod 16))
           + 256 * hexval (hexdigit ((c / 256) mod 16))
           + 16 * hexval (hexdigit ((c / 16) mod 16))
           + hexval (hexdigit (c mod 16)))%N :: json_read rest).
  rewrite !hexval_hexdigit by (apply N.mod_lt; lia).
  by rewrite hex_digits_sum.
Qed.

Lemma json_read_two (e r : N) (t : jsstring) :
  In (e, r) [(98, 8); (116, 9); (110, 10); (102, 12); (114, 13);
             (DQUOTE, DQUOTE); (BACKSLASH, BACKSLASH)]%N ->
  json_read (BACKSLASH :: e :: t) = r :: json_read t.
Proof.
  intros H. cbn [In] in H.
  repeat (destruct H as [H|H]; [injection H as <- <-; reflexivity|]).
  destruct H.
Qed.

Lemma json_read_units (s : jsstring) : json_read (json_units s) = s.
Proof.
  remember (length s) as n eqn:Hn. revert s Hn.
  induction n as [n IH] using lt_wf_ind. intros s ->.
  destruct s as [|c t]; [done|].
  assert (IHt : json_read (json_units t) = t) by (eapply IH; [|done]; simpl; lia).
  rewrite json_units_cons. unfold is_high_surrogate, is_low_surrogate.
  repeat case_match; N_props; subst;
    try (rewrite json_read_unicode_escape by lia);
    try (erewrite json_read_two by (cbn [In]; tauto));
    rewrite ?IHt; try done.
  - rewrite <- (app_nil_r (unicode_escape c)).
    by rewrite json_read_unicode_escape by lia.
  - rewrite !json_read_plain by (unfold BACKSLASH; lia).
    do 2 f_equal. eapply IH; [|done]. simpl; lia.
  - rewrite json_read_plain by (unfold BACKSLASH in *; lia). by rewrite IHt.
  - rewrite json_read_plain by (unfold BACKSLASH in *; lia). by rewrite IHt.
  - rewrite json_read_plain by (unfold BACKSLASH in *; lia). by rewrite IHt.
  - rewrite json_read_plain by (unfold BACKSLASH in *; lia). by rewrite IHt.
Qed.

(** ** C3: what the two tabular encoders and the structured encoding do *)

Lemma csvEscape_test (s : jsstring) :
  existsb (fun c => (c =? COMMA) || (c =? DQUOTE) || (c =? LF))%N s
  = includes COMMA s || includes DQUOTE s || includes LF s.
Proof.
  unfold includes. induction s as [|c t IH]; [done|].
  cbn [existsb]. rewrite IH.
  rewrite (N.eqb_sym COMMA c), (N.eqb_sym DQUOTE c), (N.eqb_sym LF c).
  destruct (c =? COMMA)%N, (c =? DQUOTE)%N, (c =? LF)%N; cbn;
    rewrite ?orb_true_r; try done.
Qed.

Lemma csv_read_csvEscape (s : jsstring) : csv_read_field (csvEscape (VStr s)) = s.
Proof.
  unfold csvEscape. cbn [String_of]. rewrite csvEscape_test.
  destruct (includes DQUOTE s) eqn:Hq.
  - rewrite orb_true_r. cbn. apply csv_read_in_quotes.
  - destruct (includes COMMA s), (includes LF s); cbn;
      first [apply csv_read_in_quotes | by apply csv_read_plain].
Qed.

Lemma csv_read_toCsvField (s : jsstring) :
  csv_read_field (toCsvField (VStr s)) = trim (replace_crlf_space s).
Proof.
  unfold toCsvField. cbn [String_of].
  destruct (includes DQUOTE _) eqn:Hq; cbn [orb].
  - apply csv_read_in_quotes.
  - destruct (includes COMMA _); [apply csv_read_in_quotes|by apply csv_read_plain].
Qed.

(** The counterexample to C3 as it is worded: in earki.js the line feed of
    a headline (or content) is not turned into a space, it stays in the
    quoted field; and [toCsvField] leaves a value that holds a line feed,
    but no comma and no double quote, without quotes. *)
Lemma C3_counterexample :
  csvEscape (VStr (js "a" ++ [LF] ++ js "b")) = in_quotes (js "a" ++ [LF] ++ js "b")
  /\ lines (Jachai.csv_fields sample_row) = 2
  /\ toCsvField (VStr (js "a" ++ [LF] ++ js "b")) = js "a b".
Proof. repeat split; vm_compute; reflexivity. Qed.

(** C3 (amended).  Both encoders map [null] and [undefined] to the empty
    field.  [csvEscape] (earki.js) puts a value that holds a comma, a
    double quote or a line feed between double quotes with its double
    quotes doubled and changes nothing else: the field reads back as the
    value, line feeds included.  [toCsvField] (the three other scripts)
    first turns every line feed, with a carriage return before it, into a
    space and trims the value, whatever the field; it then quotes the
    result when it holds a double quote or a comma, the field reads back as
    that result, and no field it returns holds a line feed.  The structured
    encoding of a string reads back as the string itself. *)
Theorem C3_tabular_encoding (s : jsstring) (v : value) :
  (csvEscape VNull = [] /\ csvEscape VUndefined = []
   /\ toCsvField VNull = [] /\ toCsvField VUndefined = [])
  /\ csvEscape (VStr s)
     = (if includes COMMA s || includes DQUOTE s || includes LF s
        then in_quotes (double_quotes s) else s)
  /\ csv_read_field (csvEscape (VStr s)) = s
  /\ lines (csvEscape (VStr s)) = lines s
  /\ (let t := trim (replace_crlf_space s) in
      toCsvField (VStr s)
      = (if includes DQUOTE t || includes COMMA t
         then in_quotes (double_quotes t) else t)
      /\ csv_read_field (toCsvField (VStr s)) = t)
  /\ lines (toCsvField v) = 0
  /\ JSON_string (Some s) = in_quotes (json_units s)
  /\ json_read (json_units s) = s.
Proof.
  split; [done|].
  split; [unfold csvEscape; cbn [String_of]; by rewrite csvEscape_test|].
  split; [apply csv_read_csvEscape|].
  split; [apply lines_csvEscape|].
  split; [split; [done|apply csv_read_toCsvField]|].
  split; [apply lines_toCsvField|].
  split; [done|apply json_read_units].
Qed.

(** ** The file system *)

Lemma read_append_eq (p : string) (t : jsstring) (fs : FS) :
  read p (appendFileSync p t fs) = read p fs ++ t.
Proof. unfold read, appendFileSync. by rewrite lookup_insert_eq. Qed.

Lemma read_append_ne (p q : string) (t : jsstring) (fs : FS) :
  p <> q -> read q (appendFileSync p t fs) = read q fs.
Proof. intros H. unfold read, appendFileSync. by rewrite lookup_insert_ne. Qed.

Lemma existsSync_true (p : string) (fs : FS) :
  existsSync p fs = true <-> is_Some (fs !! p).
Proof. unfold existsSync. by rewrite bool_decide_eq_true. Qed.

Lemma existsSync_false (p : string) (fs : FS) :
  existsSync p fs = false <-> fs !! p = None.
Proof.
  unfold existsSync. rewrite bool_decide_eq_false. by rewrite eq_None_not_Some.
Qed.

Lemma lines_HEADER : lines HEADER = 1.
Proof. vm_compute. reflexivity. Qed.

(** The shape shared by [ensureOut] of the three scripts. *)
Lemma ensureOut_shape (jsonl csv : string) (fs : FS) :
  jsonl <> csv ->
  let fs' :=
    (let fs1 := if existsSync jsonl fs then fs else writeFileSync jsonl [] fs in
     if existsSync csv fs1 then fs1 else writeFileSync csv HEADER fs1) in
  fs' !! jsonl = Some (read jsonl fs)
  /\ fs' !! csv = Some (if existsSync csv fs then read csv fs else HEADER).
Proof.
  intros Hne. cbn zeta. unfold writeFileSync, read.
  destruct (existsSync jsonl fs) eqn:Hj.
  - apply existsSync_true in Hj as [tj Hj].
    destruct (existsSync csv fs) eqn:Hc.
    + apply existsSync_true in Hc as [tc Hc]. by rewrite Hj, Hc.
    + apply existsSync_false in Hc.
      rewrite lookup_insert_ne, lookup_insert_eq, Hj by done. done.
  - apply existsSync_false in Hj.
    assert (Hc' : existsSync csv (<[jsonl:=[]]> fs) = existsSync csv fs).
    { unfold existsSync. by rewrite lookup_insert_ne. }
    rewrite Hc'. destruct (existsSync csv fs) eqn:Hc.
    + apply existsSync_true in Hc as [tc Hc].
      rewrite lookup_insert_eq, lookup_insert_ne, Hj, Hc by done. done.
    + rewrite lookup_insert_ne, !lookup_insert_eq, Hj by done. done.
Qed.

Lemma Jachai_ensureOutputs_shape (fs : FS) :
  Jachai.ensureOutputs fs !! Jachai.OUT_JSONL = None
  /\ Jachai.ensureOutputs fs !! Jachai.OUT_CSV
     = Some (if existsSync Jachai.OUT_CSV fs then read Jachai.OUT_CSV fs
             else BOM :: HEADER).
Proof.
  unfold Jachai.ensureOutputs, writeFileSync, unlink, read.
  assert (Hne : Jachai.OUT_CSV <> Jachai.OUT_JSONL) by done.
  destruct (existsSync Jachai.OUT_CSV fs) eqn:Hc.
  - apply existsSync_true in Hc as [tc Hc]. rewrite Hc.
    destruct (existsSync Jachai.OUT_JSONL fs) eqn:Hj.
    + by rewrite lookup_delete_eq, lookup_delete_ne.
    + by apply existsSync_false in Hj.
  - destruct (existsSync Jachai.OUT_JSONL _) eqn:Hj.
    + by rewrite lookup_delete_eq, lookup_delete_ne, lookup_insert_eq.
    + apply existsSync_false in Hj. by rewrite lookup_insert_eq.
Qed.

Ltac read_appends :=
  repeat first [ rewrite read_append_eq | rewrite read_append_ne by done ].

Lemma Jachai_appendRow_reads (row : Row) (fs : FS) :
  read Jachai.OUT_CSV (Jachai.appendRow row fs)
  = read Jachai.OUT_CSV fs ++ Jachai.csv_fields row ++ [LF]
  /\ read Jachai.OUT_JSONL (Jachai.appendRow row fs)
     = read Jachai.OUT_JSONL fs ++ JSON_stringify row ++ [LF].
Proof. unfold Jachai.appendRow. by read_appends. Qed.

Lemma Jokes_writeRecord_reads (row : Row) (fs : FS) :
  read Jokes.CSV_PATH (Jokes.writeRecord row fs)
  = read Jokes.CSV_PATH fs ++ Jokes.csv_fields row ++ [LF]
  /\ read Jokes.JSONL_PATH (Jokes.writeRecord row fs)
     = read Jokes.JSONL_PATH fs ++ JSON_stringify row ++ [LF].
Proof. unfold Jokes.writeRecord. by read_appends. Qed.

Lemma FactWatch_writeRecord_reads (row : Row) (fs : FS) :
  read FactWatch.CSV_PATH (FactWatch.writeRecord row fs)
  = read FactWatch.CSV_PATH fs ++ FactWatch.csv_fields row ++ [LF]
  /\ read FactWatch.JSONL_PATH (FactWatch.writeRecord row fs)
     = read FactWatch.JSONL_PATH fs ++ JSON_stringify row ++ [LF].
Proof. unfold FactWatch.writeRecord. by read_appends. Qed.

Lemma Satire_append_reads (row : Row) (fs : FS) :
  read Satire.CSV_PATH (Satire.append row fs)
  = read Satire.CSV_PATH fs ++ Satire.csv_fields row ++ [LF]
  /\ read Satire.JSONL_PATH (Satire.append row fs)
     = read Satire.JSONL_PATH fs ++ JSON_stringify row ++ [LF].
Proof. unfold Satire.append. by read_appends. Qed.

(** ** C4: the files after the first step of a run *)

(** The counterexample to C4 as it is worded: after [ensureOutputs] of
    earki.js the structured file does not exist, whether it was there
    before or not; and a tabular file that is already there is kept as it
    is, header or not. *)
Lemma C4_counterexample :
  existsSync Jachai.OUT_JSONL (Jachai.ensureOutputs ∅) = false
  /\ existsSync Jachai.OUT_JSONL
       (Jachai.ensureOutputs {[ Jachai.OUT_JSONL := js "{}" ++ [LF] ]}) = false
  /\ read Jokes.CSV_PATH (Jokes.ensureOut {[ Jokes.CSV_PATH := js "x" ++ [LF] ]})
     = js "x" ++ [LF].
Proof. repeat split; vm_compute; reflexivity. Qed.

(** C4 (amended).  After [ensureOut] of the jokes, satire and fact-watch
    scripts both files exist: a file that was missing is created, the
    structured one empty and the tabular one holding the header row alone,
    and a file that was there keeps its text.  After [ensureOutputs] of
    earki.js the tabular file exists, created with the byte-order mark
    and the header row when it was missing and kept as it is when it was
    there, and the structured file does not exist: it is removed when it
    was there and the first append creates it.  Every append of the four
    scripts leaves the text a file already holds in place and adds one row
    after it. *)
Theorem C4_ensure_outputs (fs : FS) (row : Row) :
  (Jokes.ensureOut fs !! Jokes.JSONL_PATH = Some (read Jokes.JSONL_PATH fs)
   /\ Jokes.ensureOut fs !! Jokes.CSV_PATH
      = Some (if existsSync Jokes.CSV_PATH fs then read Jokes.CSV_PATH fs
              else HEADER))
  /\ (Satire.ensureOut fs !! Satire.JSONL_PATH = Some (read Satire.JSONL_PATH fs)
      /\ Satire.ensureOut fs !! Satire.CSV_PATH
         = Some (if existsSync Satire.CSV_PATH fs then read Satire.CSV_PATH fs
                 else HEADER))
  /\ (FactWatch.ensureOut fs !! FactWatch.JSONL_PATH
      = Some (read FactWatch.JSONL_PATH fs)
      /\ FactWatch.ensureOut fs !! FactWatch.CSV_PATH
         = Some (if existsSync FactWatch.CSV_PATH fs
                 then read FactWatch.CSV_PATH fs else HEADER))
  /\ (Jachai.ensureOutputs fs !! Jachai.OUT_JSONL = None
      /\ Jachai.ensureOutputs fs !! Jachai.OUT_CSV
         = Some (if existsSync Jachai.OUT_CSV fs then read Jachai.OUT_CSV fs
                 else BOM :: HEADER))
  /\ (read Jokes.CSV_PATH (Jokes.writeRecord row fs)
      = read Jokes.CSV_PATH fs ++ Jokes.csv_fields row ++ [LF]
      /\ read Jokes.JSONL_PATH (Jokes.writeRecord row fs)
         = read Jokes.JSONL_PATH fs ++ JSON_stringify row ++ [LF])
  /\ (read Satire.CSV_PATH (Satire.append row fs)
      = read Satire.CSV_PATH fs ++ Satire.csv_fields row ++ [LF]
      /\ read Satire.JSONL_PATH (Satire.append row fs)
         = read Satire.JSONL_PATH fs ++ JSON_stringify row ++ [LF])
  /\ (read FactWatch.CSV_PATH (FactWatch.writeRecord row fs)
      = read FactWatch.CSV_PATH fs ++ FactWatch.csv_fields row ++ [LF]
      /\ read FactWatch.JSONL_PATH (FactWatch.writeRecord row fs)
         = read FactWatch.JSONL_PATH fs ++ JSON_stringify row ++ [LF])
  /\ (read Jachai.OUT_CSV (Jachai.appendRow row fs)
      = read Jachai.OUT_CSV fs ++ Jachai.csv_fields row ++ [LF]
      /\ read Jachai.OUT_JSONL (Jachai.appendRow row fs)
         = read Jachai.OUT_JSONL fs ++ JSON_stringify row ++ [LF]).
Proof.
  split; [by apply ensureOut_shape|].
  split; [by apply ensureOut_shape|].
  split; [by apply ensureOut_shape|].
  split; [apply Jachai_ensureOutputs_shape|].
  split; [apply Jokes_writeRecord_reads|].
  split; [apply Satire_append_reads|].
  split; [apply FactWatch_writeRecord_reads|apply Jachai_appendRow_reads].
Qed.

(** ** C5: lines after [N] appends *)

Lemma lines_of_opt_csvEscape (v : option jsstring) :
  lines (csvEscape (of_opt v)) = lines (default [] v).
Proof. destruct v as [s|]; [apply lines_csvEscape|done]. Qed.

Lemma Jachai_lines_csv_fields (r : Row) :
  lines (Jachai.csv_fields r) = field_lines r.
Proof.
  unfold Jachai.csv_fields, field_lines. cbn [join].
  rewrite !lines_app, !lines_of_opt_csvEscape, lines_Number_toString.
  change (lines (js ",")) with 0. lia.
Qed.

Lemma Jokes_lines_csv_fields (r : Row) : lines (Jokes.csv_fields r) = 0.
Proof.
  unfold Jokes.csv_fields. cbn [join map].
  rewrite !lines_app, !lines_toCsvField. reflexivity.
Qed.

Lemma Satire_lines_csv_fields (r : Row) : lines (Satire.csv_fields r) = 0.
Proof.
  unfold Satire.csv_fields. cbn [join map].
  rewrite !lines_app, !lines_toCsvField. reflexivity.
Qed.

Lemma FactWatch_lines_csv_fields (r : Row) : lines (FactWatch.csv_fields r) = 0.
Proof.
  unfold FactWatch.csv_fields. cbn [join map].
  rewrite !lines_app, !lines_toCsvField. reflexivity.
Qed.

Section appends.
Variables (append : Row -> FS -> FS) (csv jsonl : string)
          (csv_of : Row -> jsstring).
Hypothesis append_reads : forall row fs,
  read csv (append row fs) = read csv fs ++ csv_of row ++ [LF]
  /\ read jsonl (append row fs) = read jsonl fs ++ JSON_stringify row ++ [LF].

Lemma append_all_lines (rows : list Row) (fs : FS) :
  lines (read jsonl (append_all append rows fs))
  = lines (read jsonl fs) + length rows
  /\ lines (read csv (append_all append rows fs))
     = lines (read csv fs) + length rows
       + sum_list (map (fun r => lines (csv_of r)) rows).
Proof using append_reads.
  revert fs. induction rows as [|r rows IH]; intros fs.
  - cbn. lia.
  - unfold append_all in *. cbn [foldl].
    destruct (IH (append r fs)) as [IHj IHc]. rewrite IHj, IHc.
    destruct (append_reads r fs) as [Hc Hj]. rewrite Hc, Hj.
    rewrite !lines_app, lines_JSON_stringify. cbn [length map sum_list].
    change (lines [LF]) with 1. unfold id. lia.
Qed.
End appends.

Lemma sum_list_zero {A} (f : A -> nat) (l : list A) :
  (forall x, f x = 0) -> sum_list (map f l) = 0.
Proof. intros Hf. induction l as [|x l IH]; [done|]. cbn. by rewrite Hf, IH. Qed.

Lemma read_of_lookup (p : string) (fs : FS) (t : jsstring) :
  fs !! p = Some t -> read p fs = t.
Proof. unfold read. by intros ->. Qed.

Lemma lines_fresh (jsonl csv : string) (fs fs' : FS) :
  fs !! jsonl = None -> fs !! csv = None ->
  fs' !! jsonl = Some (read jsonl fs)
  /\ fs' !! csv = Some (if existsSync csv fs then read csv fs else HEADER) ->
  lines (read jsonl fs') = 0 /\ lines (read csv fs') = 1.
Proof.
  intros Hj Hc [Hj' Hc'].
  apply existsSync_false in Hc as Hc2. rewrite Hc2 in Hc'.
  rewrite (read_of_lookup _ _ _ Hj'), (read_of_lookup _ _ _ Hc').
  unfold read. rewrite Hj. by rewrite lines_HEADER.
Qed.

(** The counterexample to C5 as it is worded: one [appendRow] of earki.js
    with a row whose headline and content each hold a line feed leaves
    four lines in the tabular file, not two. *)
Lemma C5_counterexample :
  lines (read Jachai.OUT_CSV
           (append_all Jachai.appendRow [sample_row] (Jachai.ensureOutputs ∅)))
  = 4.
Proof. vm_compute. reflexivity. Qed.

(** C5 (amended).  Start where none of the output files exists.  In the
    jokes, satire and fact-watch scripts, [N] appends after [ensureOut]
    leave exactly [N] lines in the structured file and [N + 1] lines in the
    tabular file, whatever the rows hold.  In earki.js, [N] appends after
    [ensureOutputs] leave exactly [N] lines in the structured file, and in
    the tabular file [N + 1] lines plus one for every line feed held by
    the text fields of the rows. *)
Theorem C5_lines_after_appends (rows : list Row) (fs : FS) :
  (forall p, In p output_paths -> fs !! p = None) ->
  (lines (read Jokes.JSONL_PATH
            (append_all Jokes.writeRecord rows (Jokes.ensureOut fs)))
   = length rows
   /\ lines (read Jokes.CSV_PATH
               (append_all Jokes.writeRecord rows (Jokes.ensureOut fs)))
      = S (length rows))
  /\ (lines (read Satire.JSONL_PATH
               (append_all Satire.append rows (Satire.ensureOut fs)))
      = length rows
      /\ lines (read Satire.CSV_PATH
                  (append_all Satire.append rows (Satire.ensureOut fs)))
         = S (length rows))
  /\ (lines (read FactWatch.JSONL_PATH
               (append_all FactWatch.writeRecord rows (FactWatch.ensureOut fs)))
      = length rows
      /\ lines (read FactWatch.CSV_PATH
                  (append_all FactWatch.writeRecord rows (FactWatch.ensureOut fs)))
         = S (length rows))
  /\ (lines (read Jachai.OUT_JSONL
               (append_all Jachai.appendRow rows (Jachai.ensureOutputs fs)))
      = length rows
      /\ lines (read Jachai.OUT_CSV
                  (append_all Jachai.appendRow rows (Jachai.ensureOutputs fs)))
         = S (length rows) + sum_list (map field_lines rows)).
Proof.
  intros Hfresh.
  assert (Hp : forall p, In p output_paths -> fs !! p = None) by done.
  repeat split.
  1,2: destruct (append_all_lines _ _ _ _ Jokes_writeRecord_reads rows
                   (Jokes.ensureOut fs)) as [Hj Hc];
       destruct (lines_fresh Jokes.JSONL_PATH Jokes.CSV_PATH fs (Jokes.ensureOut fs))
         as [Hj0 Hc0];
       [apply Hp; cbn; tauto..|by apply ensureOut_shape|];
       rewrite ?Hj, ?Hc, ?Hj0, ?Hc0,
         ?(sum_list_zero _ _ Jokes_lines_csv_fields); lia.
  1,2: destruct (append_all_lines _ _ _ _ Satire_append_reads rows
                   (Satire.ensureOut fs)) as [Hj Hc];
       destruct (lines_fresh Satire.JSONL_PATH Satire.CSV_PATH fs (Satire.ensureOut fs))
         as [Hj0 Hc0];
       [apply Hp; cbn; tauto..|by apply ensureOut_shape|];
       rewrite ?Hj, ?Hc, ?Hj0, ?Hc0,
         ?(sum_list_zero _ _ Satire_lines_csv_fields); lia.
  1,2: destruct (append_all_lines _ _ _ _ FactWatch_writeRecord_reads rows
                   (FactWatch.ensureOut fs)) as [Hj Hc];
       destruct (lines_fresh FactWatch.JSONL_PATH FactWatch.CSV_PATH fs
                   (FactWatch.ensureOut fs)) as [Hj0 Hc0];
       [apply Hp; cbn; tauto..|by apply ensureOut_shape|];
       rewrite ?Hj, ?Hc, ?Hj0, ?Hc0,
         ?(sum_list_zero _ _ FactWatch_lines_csv_fields); lia.
  all: destruct (append_all_lines _ _ _ _ Jachai_appendRow_reads rows
                   (Jachai.ensureOutputs fs)) as [Hj Hc];
       destruct (Jachai_ensureOutputs_shape fs) as [Hj0 Hc0];
       assert (Hc1 : fs !! Jachai.OUT_CSV = None) by (apply Hp; cbn; tauto);
       apply existsSync_false in Hc1; rewrite Hc1 in Hc0;
       rewrite ?Hj, ?Hc; unfold read at 1; rewrite ?Hj0, ?Hc0; cbn [default].
  - done.
  - unfold id. rewrite lines_cons_ne, lines_HEADER by done.
    rewrite (map_ext _ field_lines) by apply Jachai_lines_csv_fields. lia.
Qed.

Lemma C5_lines_after_appends_witness :
  (forall p, In p output_paths -> (∅ : FS) !! p = None)
  /\ lines (read Jokes.JSONL_PATH
              (append_all Jokes.writeRecord [sample_row; sample_row]
                 (Jokes.ensureOut ∅))) = 2
  /\ lines (read Jokes.CSV_PATH
              (append_all Jokes.writeRecord [sample_row; sample_row]
                 (Jokes.ensureOut ∅))) = 3
  /\ lines (read Jachai.OUT_CSV
              (append_all Jachai.appendRow [sample_row; sample_row]
                 (Jachai.ensureOutputs ∅))) = 3 + 4.
Proof.
  assert (H : forall p, In p output_paths -> (∅ : FS) !! p = None)
    by (intros p _; apply lookup_empty).
  split; [exact H|].
  destruct (C5_lines_after_appends [sample_row; sample_row] ∅ H)
    as ((Hj & Hc) & _ & _ & (_ & Hc')).
  split; [exact Hj|]. split; [exact Hc|exact Hc'].
Defined.

(** ** The search of the patterns *)

Lemma strip_prefix_Some (lit s r : jsstring) :
  strip_prefix lit s = Some r <-> s = lit ++ r.
Proof.
  revert s. induction lit as [|a lit IH]; intros s; cbn.
  - split; congruence.
  - destruct s as [|b s]; [split; congruence|].
    destruct (N.eqb_spec a b) as [->|Hab].
    + rewrite IH. split; congruence.
    + split; congruence.
Qed.

Lemma span_digits_spec (s d r : jsstring) :
  span_digits s = (d, r) ->
  s = d ++ r /\ forallb is_digit d = true
  /\ match r with [] => True | c :: _ => is_digit c = false end.
Proof.
  revert d r. induction s as [|c t IH]; intros d r; cbn.
  - intros [= <- <-]. done.
  - destruct (is_digit c) eqn:Hc.
    + destruct (span_digits t) as [d' r'] eqn:Ht. intros [= <- <-].
      destruct (IH d' r' eq_refl) as (-> & Hd & Hr). cbn. by rewrite Hc.
    + intros [= <- <-]. cbn. by rewrite Hc.
Qed.

Lemma span_digits_app (d post : jsstring) :
  forallb is_digit d = true ->
  span_digits (d ++ post) = (d ++ fst (span_digits post), snd (span_digits post)).
Proof.
  induction d as [|c d IH]; cbn.
  - by destruct (span_digits post).
  - intros [Hc Hd]%andb_prop. rewrite Hc, (IH Hd). done.
Qed.

Lemma ahead_closed_run (ahead : jsstring -> bool) (d r : jsstring) :
  ahead_closed ahead -> forallb is_digit d = true ->
  ahead (d ++ r) = true -> ahead r = true.
Proof.
  intros Hcl. induction d as [|c d IH]; cbn; [done|].
  intros [Hc Hd]%andb_prop H. apply IH; [done|]. by eapply Hcl.
Qed.

Section search.
Variables (lit : jsstring) (ahead : jsstring -> bool).
Hypothesis ahead_ok : ahead_closed ahead.

(** An attempt that succeeds is a match at the head of the text. *)
Lemma capture_here_matches (s d : jsstring) :
  capture_here lit ahead s = Some d ->
  exists post, matches lit ahead s [] d post.
Proof.
  unfold capture_here.
  destruct (strip_prefix lit s) as [r|] eqn:Hr; [|done].
  apply strip_prefix_Some in Hr as ->.
  destruct (span_digits r) as [d0 rest] eqn:Hs.
  apply span_digits_spec in Hs as (-> & Hd & _).
  destruct d0 as [|c d0]; [done|].
  destruct (ahead rest) eqn:Ha; [|done]. intros [= <-].
  exists rest. by repeat split.
Qed.

(** A match at the head of the text makes the attempt succeed, with a
    run of digits that is at least as long. *)
Lemma matches_capture_here (s d post : jsstring) :
  matches lit ahead s [] d post ->
  exists d0, capture_here lit ahead s = Some d0 /\ length d <= length d0.
Proof using ahead_ok.
  intros (-> & Hne & Hd & Ha). unfold capture_here. cbn [app].
  assert (Hp : strip_prefix lit (lit ++ d ++ post) = Some (d ++ post))
    by by apply strip_prefix_Some.
  rewrite Hp, (span_digits_app _ _ Hd).
  destruct (span_digits post) as [d2 rest] eqn:Hs. cbn [fst snd].
  apply span_digits_spec in Hs as (-> & Hd2 & _).
  rewrite (ahead_closed_run _ _ _ ahead_ok Hd2 Ha).
  destruct d as [|c d]; [done|]. cbn [app].
  eexists; split; [done|]. cbn. rewrite length_app. lia.
Qed.

Lemma matches_shift (c : N) (s pre d post : jsstring) :
  matches lit ahead s pre d post -> matches lit ahead (c :: s) (c :: pre) d post.
Proof. intros (-> & H1 & H2 & H3). by split. Qed.

Lemma matches_unshift (c : N) (s pre d post : jsstring) :
  matches lit ahead (c :: s) (c :: pre) d post -> matches lit ahead s pre d post.
Proof. intros (H & H1 & H2 & H3). injection H as H. by split. Qed.

(** The search returns the first match. *)
Lemma capture_first_match (s d : jsstring) :
  capture lit ahead s = Some d ->
  exists pre post, first_match lit ahead s pre d post.
Proof using ahead_ok.
  induction s as [|c t IH].
  - cbn [capture]. destruct (capture_here lit ahead []) as [d0|] eqn:Hh; [|done].
    intros [= ->]. destruct (capture_here_matches _ _ Hh) as [post Hm].
    exists [], post. split; [done|]. intros pre' d' post' Hm'.
    destruct pre' as [|a pre']; [|cbn; lia]. right. split; [done|].
    destruct (matches_capture_here _ _ _ Hm') as (d1 & Hd1 & Hlen).
    rewrite Hh in Hd1. by injection Hd1 as <-.
  - cbn [capture]. destruct (capture_here lit ahead (c :: t)) as [d0|] eqn:Hh.
    + intros [= ->]. destruct (capture_here_matches _ _ Hh) as [post Hm].
      exists [], post. split; [done|]. intros pre' d' post' Hm'.
      destruct pre' as [|a pre']; [|cbn; lia]. right. split; [done|].
      destruct (matches_capture_here _ _ _ Hm') as (d1 & Hd1 & Hlen).
      rewrite Hh in Hd1. by injection Hd1 as <-.
    + intros Ht. destruct (IH Ht) as (pre & post & Hm & Hfirst).
      exists (c :: pre), post. split; [by apply matches_shift|].
      intros pre' d' post' Hm'. destruct pre' as [|a pre'].
      * destruct (matches_capture_here _ _ _ Hm') as (d1 & Hd1 & _). congruence.
      * assert (a = c) as -> by (destruct Hm' as (Heq & _); by injection Heq).
        apply matches_unshift in Hm'. specialize (Hfirst _ _ _ Hm'). cbn. lia.
Qed.

(** A text with a match makes the search succeed. *)
Lemma matches_capture (s pre d post : jsstring) :
  matches lit ahead s pre d post -> is_Some (capture lit ahead s).
Proof using ahead_ok.
  revert s. induction pre as [|c pre IH]; intros s Hm.
  - destruct (matches_capture_here _ _ _ Hm) as (d0 & Hd0 & _).
    destruct s; cbn [capture]; by rewrite Hd0.
  - destruct Hm as (-> & Hm). cbn [app capture].
    destruct (capture_here lit ahead _); [done|].
    apply IH. destruct Hm as (H1 & H2 & H3). by split.
Qed.

(** The first match is what the search returns. *)
Lemma first_match_capture (s pre d post : jsstring) :
  first_match lit ahead s pre d post -> capture lit ahead s = Some d.
Proof using ahead_ok.
  intros [Hm Hfirst].
  destruct (matches_capture _ _ _ _ Hm) as [d0 Hd0]. rewrite Hd0. f_equal.
  destruct (capture_first_match _ _ Hd0) as (pre0 & post0 & Hm0 & Hfirst0).
  destruct (Hfirst _ _ _ Hm0) as [Hlt|[Hlen Hd]];
    destruct (Hfirst0 _ _ _ Hm) as [Hlt0|[Hlen0 Hd']]; try lia.
  destruct Hm as (Hs & _), Hm0 as (Hs0 & _). rewrite Hs in Hs0.
  apply app_inj_1 in Hs0 as [_ Hs0]; [|done].
  apply app_inv_head in Hs0.
  apply app_inj_1 in Hs0 as [Hs0 _]; [done|lia].
Qed.

Lemma capture_None (s : jsstring) :
  capture lit ahead s = None <->
  forall pre d post, ~ matches lit ahead s pre d post.
Proof using ahead_ok.
  split.
  - intros Hn pre d post Hm. destruct (matches_capture _ _ _ _ Hm) as [? ?].
    congruence.
  - intros Hno. destruct (capture lit ahead s) as [d|] eqn:Hc; [|done].
    destruct (capture_first_match _ _ Hc) as (pre & post & Hm & _).
    by destruct (Hno _ _ _ Hm).
Qed.
End search.

Lemma ahead_any_closed : ahead_closed ahead_any.
Proof. by intros c r _ _. Qed.

Lemma ahead_slash_or_end_closed : ahead_closed ahead_slash_or_end.
Proof.
  intros c r Hc H. cbn in H. unfold is_digit in Hc. N_props. unfold SLASH in *. lia.
Qed.

Lemma ahead_word_boundary_closed : ahead_closed ahead_word_boundary.
Proof.
  intros c r Hc H. cbn in H. unfold is_word in H. rewrite Hc in H. done.
Qed.

(** ** C6: the identity resolvers return the captured digits *)

Example Jachai_id_ex :
  @Jachai.getArticleIdFromUrl sample_platform sample_post_url = js "1234".
Proof. vm_compute. reflexivity. Qed.

Example Jokes_id_ex : Jokes.getArticleIdFromUrl sample_joke_url = Some (js "11081").
Proof. vm_compute. reflexivity. Qed.

Example Satire_id_ex :
  Satire.getArticleIdFromUrl sample_satire_url = Some (js "10872").
Proof. vm_compute. reflexivity. Qed.

(** The counterexample to C6 as it is worded: the path of a jokes URL
    matches the pattern and the digits 12 are captured, but the resolver
    runs the pattern on the whole text of the URL, where a query comes
    right after the digits, and returns [null]. *)
Lemma C6_counterexample :
  (pathname <$> sample_new_URL (js "https://www.earki.co/jokes/joke/12?page=2"))
  = Some (js "/jokes/joke/12")
  /\ matches (js "/jokes/joke/") ahead_slash_or_end (js "/jokes/joke/12")
       [] (js "12") []
  /\ Jokes.getArticleIdFromUrl (js "https://www.earki.co/jokes/joke/12?page=2")
     = None.
Proof. split; [reflexivity|]. split; [by repeat split|reflexivity]. Qed.

(** C6 (amended).  Each resolver is a function of the URL (and of the URL
    parser and the digest of the platform): two calls on the same URL
    return the same identifier.  Whenever the pattern of a resolver matches
    the text the resolver runs it on (the path of the parsed URL in
    earki.js, the whole text of the URL in the jokes and satire scripts,
    where the origin of the site adds no match), the identifier is exactly
    the run of digits captured by the first match. *)
Theorem C6_identity_stability `{Platform} (url : jsstring) (u : URL)
    (pre d post : jsstring) :
  (forall url', url' = url ->
     Jachai.getArticleIdFromUrl url' = Jachai.getArticleIdFromUrl url
     /\ Jokes.getArticleIdFromUrl url' = Jokes.getArticleIdFromUrl url
     /\ Satire.getArticleIdFromUrl url' = Satire.getArticleIdFromUrl url
     /\ FactWatch.slugFromUrl url' = FactWatch.slugFromUrl url)
  /\ (new_URL url = Some u ->
      first_match (js "post-") ahead_any (pathname u) pre d post ->
      Jachai.getArticleIdFromUrl url = d)
  /\ (first_match (js "/jokes/joke/") ahead_slash_or_end url pre d post ->
      Jokes.getArticleIdFromUrl url = Some d)
  /\ (first_match (js "/satire/article/") ahead_word_boundary url pre d post ->
      Satire.getArticleIdFromUrl url = Some d)
  /\ Jokes.getArticleIdFromUrl (js "https://www.earki.co" ++ url)
     = Jokes.getArticleIdFromUrl url
  /\ Satire.getArticleIdFromUrl (Satire.BASE ++ url)
     = Satire.getArticleIdFromUrl url.
Proof.
  split; [by intros url' ->|].
  split; [|split; [|split]].
  - intros Hu Hm. unfold Jachai.getArticleIdFromUrl. rewrite Hu.
    by rewrite (first_match_capture _ _ ahead_any_closed _ _ _ _ Hm).
  - apply first_match_capture, ahead_slash_or_end_closed.
  - apply first_match_capture, ahead_word_boundary_closed.
  - split; reflexivity.
Qed.

Lemma C6_identity_stability_witness :
  (exists u pre post,
      @new_URL sample_platform sample_post_url = Some u
      /\ first_match (js "post-") ahead_any (pathname u) pre (js "1234") post
      /\ @Jachai.getArticleIdFromUrl sample_platform sample_post_url = js "1234")
  /\ (exists pre post,
         first_match (js "/jokes/joke/") ahead_slash_or_end sample_joke_url
           pre (js "11081") post
         /\ Jokes.getArticleIdFromUrl sample_joke_url = Some (js "11081"))
  /\ (exists pre post,
         first_match (js "/satire/article/") ahead_word_boundary
           sample_satire_url pre (js "10872") post
         /\ Satire.getArticleIdFromUrl sample_satire_url = Some (js "10872")).
Proof.
  split; [|split].
  - destruct (@new_URL sample_platform sample_post_url) as [u|] eqn:Hu;
      [|discriminate Hu].
    assert (Hc : capture (js "post-") ahead_any (pathname u) = Some (js "1234")).
    { injection Hu as <-. vm_compute. reflexivity. }
    destruct (capture_first_match _ _ ahead_any_closed _ _ Hc) as (pre & post & Hm).
    exists u, pre, post. split; [reflexivity|]. split; [exact Hm|].
    exact (proj1 (proj2 (@C6_identity_stability sample_platform sample_post_url
                           u pre (js "1234") post)) Hu Hm).
  - assert (Hc : capture (js "/jokes/joke/") ahead_slash_or_end sample_joke_url
                 = Some (js "11081")) by (vm_compute; reflexivity).
    destruct (capture_first_match _ _ ahead_slash_or_end_closed _ _ Hc)
      as (pre & post & Hm).
    exists pre, post. split; [exact Hm|].
    exact (proj1 (proj2 (proj2 (@C6_identity_stability sample_platform
             sample_joke_url {| hostname := []; pathname := [] |}
             pre (js "11081") post))) Hm).
  - assert (Hc : capture (js "/satire/article/") ahead_word_boundary
                   sample_satire_url = Some (js "10872")) by (vm_compute; reflexivity).
    destruct (capture_first_match _ _ ahead_word_boundary_closed _ _ Hc)
      as (pre & post & Hm).
    exists pre, post. split; [exact Hm|].
    exact (proj1 (proj2 (proj2 (proj2 (@C6_identity_stability sample_platform
             sample_satire_url {| hostname := []; pathname := [] |}
             pre (js "10872") post)))) Hm).
Defined.

(** ** C7: what the resolvers return when nothing matches *)

Lemma first_match_run (lit : jsstring) (ahead : jsstring -> bool)
    (s pre d post : jsstring) :
  first_match lit ahead s pre d post -> d <> [] /\ forallb is_digit d = true.
Proof. by intros [(_ & ? & ? & _) _]. Qed.

Lemma filter_split_nil (s : jsstring) :
  List.filter truthy (split SLASH s) = [] <-> Forall (eq SLASH) s.
Proof.
  induction s as [|c t IH]; [done|].
  cbn [split]. destruct (N.eqb_spec c SLASH) as [->|Hc].
  - cbn. rewrite IH. split; [by constructor|by inversion 1].
  - destruct (split SLASH t) as [|seg segs]; cbn;
      (split; [done|inversion 1; congruence]).
Qed.

Lemma last_or_filter_nil (l : list jsstring) :
  last_or [] (fun seg => seg) (List.filter truthy l) = []
  <-> List.filter truthy l = [].
Proof.
  split; [|by intros ->].
  unfold last_or.
  destruct (last (List.filter truthy l)) as [seg|] eqn:Hl.
  - apply last_Some_elem_of, list_elem_of_In, filter_In in Hl as [_ Hseg].
    rewrite Hseg. intros ->. done.
  - by rewrite last_None in Hl.
Qed.

Lemma slugFromUrl_empty `{Platform} (url : jsstring) :
  FactWatch.slugFromUrl url = [] <->
  new_URL url = None
  \/ exists u, new_URL url = Some u /\ Forall (eq SLASH) (pathname u).
Proof.
  unfold FactWatch.slugFromUrl. destruct (new_URL url) as [u|].
  - rewrite last_or_filter_nil, filter_split_nil.
    split; [intros Hu; right; by exists u|].
    intros [?|(u' & [= <-] & Hu)]; done.
  - split; [by left|done].
Qed.

(** The counterexample to C7 as it is worded: the jokes resolver returns
    [null] on a URL without the pattern, and the record gets the empty
    string as its identifier; the satire resolver does the same; the
    fact-watch resolver returns the empty string on a text that is not a
    URL and on a URL that has a query but no path segment.  None of the
    three falls back on a digest. *)
Lemma C7_counterexample :
  Jokes.getArticleIdFromUrl (js "https://www.earki.co/jokes?page=2") = None
  /\ (forall x, article_id (Jokes.buildRecord (js "https://www.earki.co/jokes?page=2") x)
                = Some [])
  /\ Satire.getArticleIdFromUrl (js "https://www.earki.co/satire") = None
  /\ @FactWatch.slugFromUrl sample_platform (js "not a url") = []
  /\ @FactWatch.slugFromUrl sample_platform (js "https://www.fact-watch.org/?p=7") = [].
Proof. repeat split; vm_compute; reflexivity. Qed.

(** C7 (amended).  No resolver throws: each returns a value on every
    text.  The resolver of earki.js returns a non-empty identifier: the
    digits captured in the path when the URL parses and its path matches,
    and the forty-digit hexadecimal digest of the whole URL otherwise, a
    malformed URL included.  The resolvers of the jokes and satire scripts
    return a non-empty run of digits when their pattern matches and [null]
    when it does not, and the record then holds the empty string.  The
    resolver of the fact-watch script returns the empty string exactly
    when the URL is malformed or its path has no non-empty segment. *)
Theorem C7_identity_total `{Platform} (url : jsstring)
    (x : Jokes.Extracted) (y : Satire.Extracted) :
  (hex_digest sha1 ->
     Jachai.getArticleIdFromUrl url <> []
     /\ ((exists u pre post,
             new_URL url = Some u
             /\ first_match (js "post-") ahead_any (pathname u) pre
                  (Jachai.getArticleIdFromUrl url) post)
         \/ (Jachai.getArticleIdFromUrl url = sha1 url
             /\ length (Jachai.getArticleIdFromUrl url) = 40
             /\ forallb is_hex (Jachai.getArticleIdFromUrl url) = true)))
  /\ (new_URL url = None -> Jachai.getArticleIdFromUrl url = sha1 url)
  /\ match Jokes.getArticleIdFromUrl url with
     | Some d => d <> [] /\ forallb is_digit d = true
     | None =>
         (forall pre d post,
             ~ matches (js "/jokes/joke/") ahead_slash_or_end url pre d post)
         /\ article_id (Jokes.buildRecord url x) = Some []
     end
  /\ match Satire.getArticleIdFromUrl url with
     | Some d => d <> [] /\ forallb is_digit d = true
     | None =>
         (forall pre d post,
             ~ matches (js "/satire/article/") ahead_word_boundary url pre d post)
         /\ article_id (Satire.record url y) = Some []
     end
  /\ (FactWatch.slugFromUrl url = [] <->
      new_URL url = None
      \/ exists u, new_URL url = Some u /\ Forall (eq SLASH) (pathname u)).
Proof.
  split; [|split; [|split; [|split]]].
  - intros Hsha. unfold Jachai.getArticleIdFromUrl.
    assert (Hdig : sha1 url <> [] /\
                   (sha1 url = sha1 url /\ length (sha1 url) = 40
                    /\ forallb is_hex (sha1 url) = true)).
    { destruct (Hsha url) as [Hlen Hhex]. split; [|done].
      intros E. by rewrite E in Hlen. }
    destruct (new_URL url) as [u|] eqn:Hu; [|split; [apply Hdig|right; apply Hdig]].
    destruct (capture (js "post-") ahead_any (pathname u)) as [d|] eqn:Hc;
      [|split; [apply Hdig|right; apply Hdig]].
    destruct (capture_first_match _ _ ahead_any_closed _ _ Hc) as (pre & post & Hm).
    split; [by apply first_match_run in Hm as [? _]|].
    left. by exists u, pre, post.
  - intros Hu. unfold Jachai.getArticleIdFromUrl. by rewrite Hu.
  - unfold Jokes.buildRecord. cbn [article_id]. unfold Jokes.getArticleIdFromUrl.
    destruct (capture _ ahead_slash_or_end url) as [d|] eqn:Hc.
    + destruct (capture_first_match _ _ ahead_slash_or_end_closed _ _ Hc)
        as (pre & post & Hm). by apply first_match_run in Hm.
    + split; [|done]. by apply (capture_None _ _ ahead_slash_or_end_closed).
  - unfold Satire.record. cbn [article_id]. unfold Satire.getArticleIdFromUrl.
    destruct (capture _ ahead_word_boundary url) as [d|] eqn:Hc.
    + destruct (capture_first_match _ _ ahead_word_boundary_closed _ _ Hc)
        as (pre & post & Hm). by apply first_match_run in Hm.
    + split; [|done]. by apply (capture_None _ _ ahead_word_boundary_closed).
  - apply slugFromUrl_empty.
Qed.

Lemma C7_identity_total_witness :
  hex_digest (@sha1 sample_platform)
  /\ @new_URL sample_platform (js "not a url") = None
  /\ @Jachai.getArticleIdFromUrl sample_platform (js "not a url") <> []
  /\ @Jachai.getArticleIdFromUrl sample_platform (js "not a url")
     = @sha1 sample_platform (js "not a url").
Proof.
  assert (Hsha : hex_digest (@sha1 sample_platform)) by (intros s; by split).
  split; [exact Hsha|]. split; [reflexivity|].
  pose proof (@C7_identity_total sample_platform (js "not a url")
                {| Jokes.x_headline := None; Jokes.x_published_at := [];
                   Jokes.x_content := None |}
                {| Satire.x_headline := None; Satire.x_published_at := [];
                   Satire.x_content := None |}) as (Hj & Hnone & _).
  split; [exact (proj1 (Hj Hsha))|exact (Hnone eq_refl)].
Defined.

(** ** The numbered pages of earki.js *)

Section jachai_run.
Context `{Platform} (site : Jachai.Site).

Lemma Jachai_each_item_log (pnum : nat) (items : list Jachai.Item)
    (st st' : Jachai.Run) (b : bool) :
  Jachai.each_item site pnum items st = (st', b) ->
  Jachai.visited st' = Jachai.visited st
  /\ exists l,
       Jachai.saved st' = Jachai.saved st ++ l
       /\ Forall (fun e => e.1 = pnum
                   /\ exists it url text n,
                        In it items /\ Jachai.it_url it = Some url
                        /\ Jachai.fetchArticleContent site n url
                           = Jachai.DetailText text
                        /\ e.2 = Jachai.row it url text) l.
Proof.
  revert st. induction items as [|it rest IH]; intros st; cbn [Jachai.each_item].
  - intros [= <- <-]. split; [done|]. exists []. by rewrite app_nil_r.
  - destruct (Jachai.it_url it) as [url|] eqn:Hurl.
    + destruct (Jachai.fetchArticleContent site _ url) as [|text] eqn:Hfetch.
      * intros [= <- <-]. split; [done|]. exists []. by rewrite app_nil_r.
      * intros Hrest. apply IH in Hrest as [Hv (l & Hs & Hl)].
        cbn in Hv, Hs. split; [done|].
        exists ((pnum, Jachai.row it url text) :: l).
        split; [by rewrite Hs, <- app_assoc|].
        constructor.
        -- split; [done|]. exists it, url, text, (Jachai.total st).
           by repeat split; [left|..].
        -- eapply Forall_impl; [exact Hl|].
           intros e [He (it' & u & t & n & Hin & Hrest)].
           split; [done|]. exists it', u, t, n. split; [by right|done].
    + intros [= <- <-]. split; [done|]. exists []. by rewrite app_nil_r.
Qed.

(** The pages requested are consecutive; every page but the last is one
    at which the loop does not stop, and so is every page with a row. *)
Lemma Jachai_pages_log (fuel pnum : nat) (st : Jachai.Run) :
  exists m ls,
    m <= fuel
    /\ Jachai.visited (Jachai.pages site fuel pnum st)
       = Jachai.visited st ++ seq pnum m
    /\ Jachai.saved (Jachai.pages site fuel pnum st) = Jachai.saved st ++ ls
    /\ Forall (fun e => pnum <= e.1 < pnum + m /\ ~ Jachai.stops site e.1
                        /\ Jachai.built site e.1 e) ls
    /\ (forall k, pnum <= k -> S k < pnum + m -> ~ Jachai.stops site k).
Proof.
  revert pnum st. induction fuel as [|fuel IH]; intros pnum st.
  { exists 0, []. cbn. rewrite !app_nil_r. repeat split; [lia|done|lia]. }
  cbn [Jachai.pages].
  assert (Hstop : forall st0 : Jachai.Run,
    Jachai.visited st0 = Jachai.visited st ++ [pnum] ->
    Jachai.saved st0 = Jachai.saved st ->
    exists m ls, m <= S fuel
      /\ Jachai.visited st0 = Jachai.visited st ++ seq pnum m
      /\ Jachai.saved st0 = Jachai.saved st ++ ls
      /\ Forall (fun e => pnum <= e.1 < pnum + m /\ ~ Jachai.stops site e.1
                          /\ Jachai.built site e.1 e) ls
      /\ (forall k, pnum <= k -> S k < pnum + m -> ~ Jachai.stops site k)).
  { intros st0 Hv Hs. exists 1, []. rewrite app_nil_r.
    repeat split; [lia|done|done|done|lia]. }
  destruct (Jachai.goto site pnum) as [|status nodes] eqn:Hgoto; [by apply Hstop|].
  destruct (400 <=? default 0%N status)%N eqn:Hstatus; [by apply Hstop|].
  destruct nodes as [|node nodes]; [by apply Hstop|].
  assert (Hgo : ~ Jachai.stops site pnum).
  { unfold Jachai.stops. rewrite Hgoto. apply N.leb_gt in Hstatus.
    intros [?|?]; [lia|done]. }
  destruct (Jachai.each_item _ _ _ _) as [st' b] eqn:Hitems.
  apply Jachai_each_item_log in Hitems as [Hv (l & Hs & Hl0)]. cbn in Hv, Hs.
  assert (Hl : Forall (Jachai.built site pnum) l).
  { eapply Forall_impl; [exact Hl0|].
    intros e [He (it & u & t & n & Hin & Hu & Hf & Hrow)]. split; [done|].
    by exists status, (node :: nodes), it, u, t, n. }
  destruct b.
  - exists 1, l. repeat split; [lia|done|done| |lia].
    eapply Forall_impl; [exact Hl|]. intros e He.
    pose proof He as [He1 _]. rewrite He1. split; [lia|by split].
  - destruct (IH (S pnum) st') as (m & ls & Hm & Hv' & Hs' & Hls & Hk).
    exists (S m), (l ++ ls). repeat split.
    + lia.
    + rewrite Hv', Hv, <- app_assoc. done.
    + rewrite Hs', Hs, <- app_assoc. done.
    + apply Forall_app. split.
      * eapply Forall_impl; [exact Hl|]. intros e He.
        pose proof He as [He1 _]. rewrite He1. split; [lia|by split].
      * eapply Forall_impl; [exact Hls|]. intros e (He1 & He2 & He3).
        split; [lia|by split].
    + intros k Hk1 Hk2. destruct (decide (k = pnum)) as [->|Hne]; [done|].
      apply Hk; lia.
Qed.

(** Past a page at which the loop stops nothing is requested, and no row
    comes from that page or a later one. *)
Lemma Jachai_crawl_stops (first last k : nat) (fs : FS) :
  first <= k -> Jachai.stops site k ->
  (forall n, In n (Jachai.visited (Jachai.crawl site first last fs)) -> n <= k)
  /\ (forall n row, In (n, row) (Jachai.saved (Jachai.crawl site first last fs))
                    -> n < k).
Proof.
  intros Hk Hstop. unfold Jachai.crawl.
  destruct (Jachai_pages_log (S last - first) first
              {| Jachai.files := Jachai.ensureOutputs fs; Jachai.total := 0;
                 Jachai.visited := []; Jachai.saved := [] |})
    as (m & ls & Hm & -> & -> & Hls & Hgo).
  cbn [Jachai.visited Jachai.saved app].
  assert (Hlast : first + m <= S k).
  { destruct (decide (first + m <= S k)) as [?|Hgt]; [done|].
    exfalso. apply (Hgo k); [done|lia|done]. }
  split.
  - intros n Hn%in_seq. lia.
  - intros n row Hin. rewrite Forall_forall in Hls.
    apply list_elem_of_In, Hls in Hin as (Hn & Hns & _). cbn in Hn, Hns.
    destruct (decide (n = k)) as [->|Hne]; [done|lia].
Qed.
End jachai_run.

(** ** The numbered pages of the fact-watch script *)

Section factwatch_run.
Context `{Platform} (site : FactWatch.Site).

Lemma FactWatch_write_results_log (pageNum : nat)
    (results : list (option Row)) (st : FactWatch.Run) :
  FactWatch.visited (FactWatch.write_results pageNum results st)
  = FactWatch.visited st
  /\ FactWatch.saved (FactWatch.write_results pageNum results st)
     = FactWatch.saved st ++ map (pair pageNum) (omap (fun r => r) results).
Proof.
  revert st. induction results as [|[r|] results IH]; intros st;
    cbn [FactWatch.write_results omap map].
  - by rewrite app_nil_r.
  - destruct (IH {| FactWatch.files := FactWatch.writeRecord r (FactWatch.files st);
                    FactWatch.total := S (FactWatch.total st);
                    FactWatch.visited := FactWatch.visited st;
                    FactWatch.saved := FactWatch.saved st ++ [(pageNum, r)] |})
      as [Hv Hs].
    rewrite Hv, Hs. cbn. by rewrite <- app_assoc.
  - apply IH.
Qed.

Lemma FactWatch_scrapeListPage_log (pageNum : nat) (st : FactWatch.Run) :
  FactWatch.visited (FactWatch.scrapeListPage site pageNum st)
  = FactWatch.visited st ++ [pageNum]
  /\ exists l,
       FactWatch.saved (FactWatch.scrapeListPage site pageNum st)
       = FactWatch.saved st ++ l
       /\ Forall (fun e => e.1 = pageNum /\ FactWatch.built site e) l.
Proof.
  unfold FactWatch.scrapeListPage.
  destruct (FactWatch.list_page site pageNum) as [anchors|] eqn:Hpage;
    [|split; [done|exists []; by rewrite app_nil_r]].
  destruct (FactWatch.collectCardUrlsOnList anchors) as [|u0 urls] eqn:Hurls;
    [split; [done|exists []; by rewrite app_nil_r]|].
  match goal with
  | |- context [FactWatch.write_results _ ?r ?s] =>
      destruct (FactWatch_write_results_log pageNum r s) as [Hv Hs]
  end.
  rewrite Hv, Hs. split; [done|]. eexists; split; [done|].
  apply Forall_forall. intros e He.
  apply list_elem_of_fmap in He as (r & -> & Hr).
  apply list_elem_of_omap in Hr as (o & Ho & Hor). cbn in Hor. subst o.
  apply list_elem_of_lookup in Ho as [i Hi].
  rewrite list_lookup_imap in Hi.
  destruct ((u0 :: urls) !! i) as [u|] eqn:Hu; [|done].
  cbn in Hi. injection Hi as Hi. split; [done|].
  exists anchors, i, u. cbn [fst snd]. by rewrite Hpage, Hurls.
Qed.

(** Every page from the first to the last is requested, whatever the
    pages hold. *)
Lemma FactWatch_pages_log (fuel p : nat) (st : FactWatch.Run) :
  FactWatch.visited (FactWatch.pages site fuel p st)
  = FactWatch.visited st ++ seq p fuel
  /\ exists l,
       FactWatch.saved (FactWatch.pages site fuel p st) = FactWatch.saved st ++ l
       /\ Forall (fun e => p <= e.1 < p + fuel /\ FactWatch.built site e) l.
Proof.
  revert p st. induction fuel as [|fuel IH]; intros p st; cbn [FactWatch.pages].
  - cbn. rewrite app_nil_r. split; [done|]. exists []. by rewrite app_nil_r.
  - destruct (IH (S p) (FactWatch.scrapeListPage site p st))
      as [Hv (l & Hs & Hl)].
    destruct (FactWatch_scrapeListPage_log p st) as [Hv0 (l0 & Hs0 & Hl0)].
    rewrite Hv, Hs, Hv0, Hs0, <- !app_assoc. split; [done|].
    exists (l0 ++ l). split; [done|]. apply Forall_app. split.
    + eapply Forall_impl; [exact Hl0|]. intros e [He1 He2]. split; [lia|done].
    + eapply Forall_impl; [exact Hl|]. intros e [He1 He2]. split; [lia|done].
Qed.

Lemma FactWatch_crawl_visited (first last : nat) (fs : FS) :
  FactWatch.visited (FactWatch.crawl site first last fs)
  = seq first (S last - first).
Proof. unfold FactWatch.crawl. by rewrite (proj1 (FactWatch_pages_log _ _ _)). Qed.

Lemma FactWatch_crawl_saved (first last : nat) (fs : FS) (e : nat * Row) :
  In e (FactWatch.saved (FactWatch.crawl site first last fs)) ->
  FactWatch.built site e.
Proof.
  unfold FactWatch.crawl.
  destruct (FactWatch_pages_log (S last - first) first
              {| FactWatch.files := FactWatch.ensureOut fs; FactWatch.total := 0;
                 FactWatch.visited := []; FactWatch.saved := [] |})
    as [_ (l & -> & Hl)].
  cbn. intros He. rewrite Forall_forall in Hl.
  by apply list_elem_of_In, Hl in He as [_ ?].
Qed.
End factwatch_run.

(** ** C1: where the numbered traversals stop *)

Example Jachai_crawl_ex :
  Jachai.visited (@Jachai.crawl sample_platform sample_jachai_site 1 70 ∅)
  = [1; 2; 3; 4; 5]
  /\ map fst (Jachai.saved (@Jachai.crawl sample_platform sample_jachai_site 1 70 ∅))
     = [1; 2; 3; 4].
Proof. split; vm_compute; reflexivity. Qed.

(** The counterexample to C1 as it is worded: the fact-watch pager with no
    card on page 5 goes on to page 6 and writes its record, up to the last
    page; and the jachai pager goes on as well when page 5 has an
    [article.list-view] element but yields no item. *)
Lemma C1_counterexample :
  FactWatch.list_page sample_factwatch_site 5 = Some []
  /\ In 6 (FactWatch.visited (@FactWatch.main sample_platform sample_factwatch_site ∅))
  /\ In 6 (map fst (FactWatch.saved
                      (@FactWatch.main sample_platform sample_factwatch_site ∅)))
  /\ Jachai.scrapeListPage
       [{| Jachai.titleA := None; Jachai.catA := None; Jachai.dateMeta := None |}]
     = []
  /\ In 6 (Jachai.visited
             (@Jachai.crawl sample_platform sample_jachai_site_untitled 1 8 ∅))
  /\ In 6 (map fst (Jachai.saved
                      (@Jachai.crawl sample_platform sample_jachai_site_untitled 1 8 ∅))).
Proof.
  split; [reflexivity|].
  split; [vm_compute; tauto|].
  split; [vm_compute; tauto|].
  split; [reflexivity|].
  split; vm_compute; tauto.
Qed.

(** C1 (amended).  In earki.js a list page whose rendering throws, whose
    status is 400 or more, or which holds no [article.list-view] element
    ends the traversal: no later page is requested, and no row of that page
    or of a later page is appended.  The fact-watch script has no stop of
    this kind: it requests every page from the first to the last, and a
    page that fails or holds no card adds no record. *)
Theorem C1_offset_pager_stop `{Platform} (jachai : Jachai.Site)
    (factwatch : FactWatch.Site) (first last k : nat) (fs : FS) :
  (first <= k -> Jachai.stops jachai k ->
   (forall n, In n (Jachai.visited (Jachai.crawl jachai first last fs)) -> n <= k)
   /\ (forall n row, In (n, row) (Jachai.saved (Jachai.crawl jachai first last fs))
                     -> n < k))
  /\ FactWatch.visited (FactWatch.crawl factwatch first last fs)
     = seq first (S last - first)
  /\ (forall e, In e (FactWatch.saved (FactWatch.crawl factwatch first last fs)) ->
                FactWatch.built factwatch e).
Proof.
  split; [apply Jachai_crawl_stops|].
  split; [apply FactWatch_crawl_visited|apply FactWatch_crawl_saved].
Qed.

Lemma C1_offset_pager_stop_witness :
  1 <= 5
  /\ Jachai.stops sample_jachai_site 5
  /\ (forall n,
        In n (Jachai.visited (@Jachai.crawl sample_platform sample_jachai_site 1 70 ∅))
        -> n <= 5)
  /\ (forall n row,
        In (n, row)
          (Jachai.saved (@Jachai.crawl sample_platform sample_jachai_site 1 70 ∅))
        -> n < 5).
Proof.
  assert (H1 : 1 <= 5) by lia.
  assert (H2 : Jachai.stops sample_jachai_site 5) by (right; reflexivity).
  split; [exact H1|]. split; [exact H2|].
  exact (proj1 (@C1_offset_pager_stop sample_platform sample_jachai_site
                  sample_factwatch_site 1 70 5 ∅) H1 H2).
Defined.

(** ** The readings of the jokes list *)

Lemma first_occurrences_spec (seen : gset jsstring) (abs : list jsstring) :
  NoDup (first_occurrences seen abs)
  /\ forall a, a ∈ first_occurrences seen abs <-> a ∈ abs /\ a ∉ seen.
Proof.
  revert seen. induction abs as [|a rest IH]; intros seen; cbn [first_occurrences].
  - split; [constructor|]. intros a. set_solver.
  - case_bool_decide as Ha.
    + destruct (IH seen) as [Hnd Hin]. split; [done|].
      intros b. rewrite Hin. set_solver.
    + destruct (IH ({[a]} ∪ seen)) as [Hnd Hin]. split.
      * constructor; [|done]. rewrite Hin. set_solver.
      * intros b. rewrite elem_of_cons, Hin.
        destruct (decide (b = a)) as [->|Hne]; set_solver.
Qed.

Lemma truthy_default (o : option jsstring) :
  truthy (default [] o) = true -> o = Some (default [] o).
Proof. by destruct o as [[|c d]|]. Qed.

Lemma map_fst_filter_pairs {B} (f : jsstring -> B) (P : jsstring * B -> bool)
    (l : list jsstring) :
  map fst (List.filter P (map (fun u => (u, f u)) l))
  = List.filter (fun u => P (u, f u)) l.
Proof.
  induction l as [|u l IH]; [done|]. cbn [map List.filter].
  destruct (P (u, f u)); cbn [map fst]; by rewrite IH.
Qed.

Lemma Jokes_newOnes_spec (seen : gset jsstring) (anchors : list jsstring) :
  let newOnes := Jokes.newOnes_of seen (Jokes.collectLinkObjs anchors) in
  NoDup (map fst newOnes)
  /\ forall url id, (url, id) ∈ newOnes ->
       url ∈ anchors /\ Jokes.getArticleIdFromUrl url = Some id /\ id ∉ seen.
Proof.
  cbn zeta. unfold Jokes.newOnes_of, Jokes.collectLinkObjs.
  destruct (first_occurrences_spec ∅ anchors) as [Hnd Hin].
  split.
  - rewrite map_fst_filter_pairs.
    by apply NoDup_ListNoDup, List.NoDup_filter, NoDup_ListNoDup.
  - intros url id Ho. apply list_elem_of_In, filter_In in Ho as [Ho Hf].
    apply list_elem_of_In, list_elem_of_fmap in Ho as (w & [= -> ->] & Hw).
    cbn [snd] in Hf. apply andb_prop in Hf as [Ht Hs].
    apply Hin in Hw as [Hw _]. split; [done|]. split.
    + by apply truthy_default.
    + apply negb_true_iff, bool_decide_eq_false in Hs. done.
Qed.

Section jokes_run.
Context (site : Jokes.Site).

(** One more visit keeps the invariant, when the URL was not visited with
    success before, nor in the current reading. *)
Lemma Jokes_inv_step (st st1 : Jokes.Run) (k : nat) (url id : jsstring)
    (b : bool) (recs : list Row) :
  Jokes.inv site st -> Jokes.scans st = S k -> Jokes.scans st1 = S k ->
  Jokes.dispatched st1
  = Jokes.dispatched st
    ++ [{| Jokes.v_round := k; Jokes.v_url := url; Jokes.v_saved := b |}] ->
  Jokes.seenIds st ⊆ Jokes.seenIds st1 ->
  Jokes.getArticleIdFromUrl url = Some id ->
  (b = true -> id ∈ Jokes.seenIds st1) ->
  (forall v1, v1 ∈ Jokes.dispatched st -> Jokes.v_url v1 = url ->
              Jokes.v_saved v1 = false /\ Jokes.v_round v1 < k) ->
  Jokes.saved st1 = Jokes.saved st ++ recs ->
  (forall r, r ∈ recs ->
     b = true /\ exists x n, Jokes.article site n url = Some x
                             /\ r = Jokes.buildRecord url x) ->
  length recs <= 1 ->
  Jokes.inv site st1.
Proof.
  intros Hinv Hsc Hsc1 Hd Hseen Hid Hb Hfresh Hs Hrecs Hlen.
  constructor.
  - intros v. rewrite Hd, elem_of_app, list_elem_of_singleton, Hsc1.
    intros [Hv| ->].
    + destruct (Jokes.inv_visit _ _ Hinv v Hv) as [Hr (d & Hd' & Hin)].
      rewrite Hsc in Hr. split; [done|]. exists d. split; [done|]. set_solver.
    + cbn. split; [lia|]. by exists id.
  - intros i j v1 v2 Hij. rewrite Hd, !lookup_app_Some.
    intros [H1|[Hi H1]] [H2|[Hj H2]] Hu.
    + by eapply (Jokes.inv_again _ _ Hinv).
    + apply list_lookup_singleton_Some in H2 as [_ <-]. cbn in *.
      apply Hfresh; [|done]. by eapply list_elem_of_lookup_2.
    + apply lookup_lt_Some in H2. lia.
    + apply list_lookup_singleton_Some in H1 as [H1 _].
      apply list_lookup_singleton_Some in H2 as [H2 _]. lia.
  - intros r. rewrite Hs, Hd, elem_of_app. intros [Hr|Hr].
    + destruct (Jokes.inv_saved _ _ Hinv r Hr) as (v & x & n & Hv & Hvs & Hx & ->).
      exists v, x, n. rewrite elem_of_app. by repeat split; [left|..].
    + destruct (Hrecs r Hr) as [-> (x & n & Hx & ->)].
      eexists {| Jokes.v_round := k; Jokes.v_url := url; Jokes.v_saved := true |}, x, n.
      rewrite elem_of_app, list_elem_of_singleton. by repeat split; [right|..].
  - rewrite Hs, map_app. apply NoDup_app. split; [apply (Jokes.inv_once _ _ Hinv)|].
    split.
    + intros o (r & -> & Hr)%list_elem_of_fmap (r' & Ho & Hr')%list_elem_of_fmap.
      destruct (Jokes.inv_saved _ _ Hinv r Hr) as (v & x & n & Hv & Hvs & _ & ->).
      destruct (Hrecs r' Hr') as [_ (x' & n' & _ & ->)]. cbn in Ho. injection Ho as Ho.
      destruct (Hfresh v Hv Ho) as [Hf _]. congruence.
    + destruct recs as [|r [|r' recs]]; cbn in *; [constructor| |lia].
      apply NoDup_singleton.
Qed.

Lemma Jokes_each_new_inv (k : nat) (seen0 : gset jsstring)
    (newOnes : list (jsstring * jsstring)) (st : Jokes.Run) :
  Jokes.scans st = S k ->
  Jokes.inv site st ->
  (forall v, v ∈ Jokes.dispatched st -> Jokes.v_round v < k ->
             Jokes.v_saved v = true ->
             exists d, Jokes.getArticleIdFromUrl (Jokes.v_url v) = Some d /\ d ∈ seen0) ->
  (forall v, v ∈ Jokes.dispatched st -> Jokes.v_round v = k ->
             Jokes.v_url v ∉ map fst newOnes) ->
  NoDup (map fst newOnes) ->
  (forall url id, (url, id) ∈ newOnes ->
                  Jokes.getArticleIdFromUrl url = Some id /\ id ∉ seen0) ->
  Jokes.inv site (Jokes.each_new site k newOnes st)
  /\ Jokes.scans (Jokes.each_new site k newOnes st) = S k
  /\ Jokes.clicks (Jokes.each_new site k newOnes st) = Jokes.clicks st.
Proof.
  revert st. induction newOnes as [|[url id] rest IH];
    intros st Hsc Hinv Hold Hcur Hnd Hnew; cbn [Jokes.each_new]; [done|].
  destruct (Hnew url id) as [Hid Hnot]; [by left|].
  cbn [map fst] in Hnd. apply NoDup_cons in Hnd as [Hurl Hnd].
  assert (Hfresh : forall v1, v1 ∈ Jokes.dispatched st -> Jokes.v_url v1 = url ->
                     Jokes.v_saved v1 = false /\ Jokes.v_round v1 < k).
  { intros v1 Hv1 Hu. destruct (Jokes.inv_visit _ _ Hinv v1 Hv1) as [Hr _].
    rewrite Hsc in Hr.
    assert (Hlt : Jokes.v_round v1 < k).
    { destruct (decide (Jokes.v_round v1 = k)) as [Hk|Hk]; [|lia].
      exfalso. apply (Hcur v1 Hv1 Hk). rewrite Hu. cbn. by left. }
    split; [|done]. destruct (Jokes.v_saved v1) eqn:Hs; [|done]. exfalso.
    destruct (Hold v1 Hv1 Hlt Hs) as (d & Hd & Hin). rewrite Hu in Hd. congruence. }
  assert (Hstep : forall (b : bool) (st1 : Jokes.Run),
    Jokes.inv site st1 -> Jokes.scans st1 = S k -> Jokes.clicks st1 = Jokes.clicks st ->
    Jokes.dispatched st1
    = Jokes.dispatched st
      ++ [{| Jokes.v_round := k; Jokes.v_url := url; Jokes.v_saved := b |}] ->
    Jokes.inv site (Jokes.each_new site k rest st1)
    /\ Jokes.scans (Jokes.each_new site k rest st1) = S k
    /\ Jokes.clicks (Jokes.each_new site k rest st1) = Jokes.clicks st).
  { intros b st1 Hinv1 Hsc1 Hcl1 Hd1. rewrite <- Hcl1. apply IH; try done.
    - intros v. rewrite Hd1, elem_of_app, list_elem_of_singleton.
      intros [Hv| ->]; [by apply Hold|cbn; lia].
    - intros v. rewrite Hd1, elem_of_app, list_elem_of_singleton.
      intros [Hv| ->] Hk; [|done].
      specialize (Hcur v Hv Hk). cbn [map fst] in Hcur. set_solver.
    - intros u i Hui. apply Hnew. by right. }
  destruct (Jokes.scrapeOneArticle url _) as [rec|] eqn:Hrec.
  - apply (Hstep true); [|done..].
    unfold Jokes.scrapeOneArticle in Hrec.
    apply fmap_Some in Hrec as (x & Hx & ->).
    eapply (Jokes_inv_step st _ k url id true [Jokes.buildRecord url x]);
      try done; cbn.
    + set_solver.
    + intros _. set_solver.
    + intros r ->%list_elem_of_singleton. split; [done|].
      by exists x, (length (Jokes.dispatched st)).
  - apply (Hstep false); [|done..].
    eapply (Jokes_inv_step st _ k url id false []); try done; cbn.
    + by rewrite app_nil_r.
    + intros r Hr. by apply elem_of_nil in Hr.
    + lia.
Qed.

Lemma Jokes_processNewCardsOnList_inv (st : Jokes.Run) :
  Jokes.inv site st ->
  Jokes.inv site (Jokes.state_of (Jokes.processNewCardsOnList site st))
  /\ Jokes.clicks (Jokes.state_of (Jokes.processNewCardsOnList site st))
     = Jokes.clicks st.
Proof.
  intros Hinv. unfold Jokes.processNewCardsOnList.
  set (st0 := {| Jokes.files := Jokes.files st; Jokes.seenIds := Jokes.seenIds st;
                 Jokes.totalSaved := Jokes.totalSaved st;
                 Jokes.clicks := Jokes.clicks st; Jokes.scans := S (Jokes.scans st);
                 Jokes.dispatched := Jokes.dispatched st;
                 Jokes.saved := Jokes.saved st |}).
  assert (Hinv0 : Jokes.inv site st0).
  { constructor; cbn.
    - intros v Hv. destruct (Jokes.inv_visit _ _ Hinv v Hv) as [Hr Hd]. split; [lia|done].
    - apply (Jokes.inv_again _ _ Hinv).
    - apply (Jokes.inv_saved _ _ Hinv).
    - apply (Jokes.inv_once _ _ Hinv). }
  destruct (Jokes.cards site (Jokes.scans st)) as [anchors|]; [|done].
  cbn [Jokes.state_of].
  destruct (Jokes_newOnes_spec (Jokes.seenIds st0) anchors) as [Hnd Hnew].
  destruct (Jokes_each_new_inv (Jokes.scans st) (Jokes.seenIds st)
              (Jokes.newOnes_of (Jokes.seenIds st0) (Jokes.collectLinkObjs anchors))
              st0) as (H1 & _ & H3); try done.
  - intros v Hv _ Hs. destruct (Jokes.inv_visit _ _ Hinv v Hv) as [_ (d & Hd & Hin)].
    exists d. split; [done|by apply Hin].
  - intros v Hv Hk. destruct (Jokes.inv_visit _ _ Hinv v Hv) as [Hr _]. lia.
  - intros url id Hui. by destruct (Hnew url id Hui) as (_ & ? & ?).
Qed.

Lemma Jokes_count_click_inv (st : Jokes.Run) :
  Jokes.inv site st -> Jokes.inv site (Jokes.count_click st).
Proof.
  intros Hinv. constructor; cbn.
  - apply (Jokes.inv_visit _ _ Hinv).
  - apply (Jokes.inv_again _ _ Hinv).
  - apply (Jokes.inv_saved _ _ Hinv).
  - apply (Jokes.inv_once _ _ Hinv).
Qed.

Lemma Jokes_clicking_inv (max_clicks fuel : nat) (st : Jokes.Run) :
  Jokes.inv site st -> Jokes.inv site (Jokes.state_of (Jokes.clicking site max_clicks fuel st)).
Proof.
  revert st. induction fuel as [|fuel IH]; intros st Hinv; cbn [Jokes.clicking];
    [done|].
  destruct (Jokes.poll site _) as [seen|]; [|done].
  destruct (Jokes.noMore _); [done|].
  destruct (Jokes.button _) as [visible|]; [|done].
  assert (Hafter : Jokes.inv site (Jokes.state_of
            (if visible then Jokes.processNewCardsOnList site st
             else Jokes.Finished st))).
  { destruct visible; [by apply Jokes_processNewCardsOnList_inv|done]. }
  destruct (if visible then _ else _) as [st'|st']; [|done].
  cbn [Jokes.state_of] in Hafter.
  destruct (max_clicks <=? _); [by apply Jokes_count_click_inv|].
  by apply IH, Jokes_count_click_inv.
Qed.

(** The invariant holds when the run ends, however it ends. *)
Lemma Jokes_run_inv (max_clicks : nat) (fs : FS) :
  Jokes.inv site (Jokes.state_of (Jokes.run site max_clicks fs)).
Proof.
  unfold Jokes.run.
  set (st := {| Jokes.files := Jokes.ensureOut fs; Jokes.seenIds := ∅;
                Jokes.totalSaved := 0; Jokes.clicks := 0; Jokes.scans := 0;
                Jokes.dispatched := []; Jokes.saved := [] |}).
  assert (Hinv : Jokes.inv site st).
  { constructor; cbn; [intros v Hv; by apply elem_of_nil in Hv|
                       intros i j v1 v2 _ Hv; by rewrite lookup_nil in Hv|
                       intros r Hr; by apply elem_of_nil in Hr|constructor]. }
  destruct (Jokes.opens site); [|done].
  destruct (Jokes_processNewCardsOnList_inv st Hinv) as [Hinv' _].
  destruct (Jokes.processNewCardsOnList site st) as [st'|st']; [|done].
  by apply Jokes_clicking_inv.
Qed.

(** The loop of [main] never runs out of turns: with one turn more than
    [max_clicks] the result is the result with any larger number. *)
Lemma Jokes_clicking_fuel (max_clicks fuel fuel' : nat) (st : Jokes.Run) :
  max_clicks - Jokes.clicks st < fuel -> max_clicks - Jokes.clicks st < fuel' ->
  Jokes.clicking site max_clicks fuel st = Jokes.clicking site max_clicks fuel' st.
Proof.
  revert fuel' st. induction fuel as [|fuel IH]; intros fuel' st Hf Hf'; [lia|].
  destruct fuel' as [|fuel']; [lia|]. cbn [Jokes.clicking].
  destruct (Jokes.poll site _) as [seen|]; [|done].
  destruct (Jokes.noMore _); [done|].
  destruct (Jokes.button _) as [visible|]; [|done].
  assert (Hcl : Jokes.clicks (Jokes.state_of
            (if visible then Jokes.processNewCardsOnList site st
             else Jokes.Finished st)) = Jokes.clicks st).
  { destruct visible; [|done].
    unfold Jokes.processNewCardsOnList.
    destruct (Jokes.cards _ _) as [anchors|]; [|done]. cbn [Jokes.state_of].
    generalize (Jokes.newOnes_of
      (Jokes.seenIds {| Jokes.files := Jokes.files st; Jokes.seenIds := Jokes.seenIds st;
                        Jokes.totalSaved := Jokes.totalSaved st;
                        Jokes.clicks := Jokes.clicks st;
                        Jokes.scans := S (Jokes.scans st);
                        Jokes.dispatched := Jokes.dispatched st;
                        Jokes.saved := Jokes.saved st |})
      (Jokes.collectLinkObjs anchors)).
    intros l.
    change (Jokes.clicks st) with (Jokes.clicks
      {| Jokes.files := Jokes.files st; Jokes.seenIds := Jokes.seenIds st;
         Jokes.totalSaved := Jokes.totalSaved st; Jokes.clicks := Jokes.clicks st;
         Jokes.scans := S (Jokes.scans st); Jokes.dispatched := Jokes.dispatched st;
         Jokes.saved := Jokes.saved st |}) at 2.
    generalize {| Jokes.files := Jokes.files st; Jokes.seenIds := Jokes.seenIds st;
         Jokes.totalSaved := Jokes.totalSaved st; Jokes.clicks := Jokes.clicks st;
         Jokes.scans := S (Jokes.scans st); Jokes.dispatched := Jokes.dispatched st;
         Jokes.saved := Jokes.saved st |}.
    induction l as [|[url id] l IHl]; intros st0; cbn [Jokes.each_new]; [done|].
    destruct (Jokes.scrapeOneArticle _ _); by rewrite IHl. }
  destruct (if visible then _ else _) as [st'|st']; [|done].
  cbn [Jokes.state_of] in Hcl.
  destruct (Nat.leb_spec max_clicks (Jokes.clicks (Jokes.count_click st')));
    [done|].
  cbn [Jokes.count_click Jokes.clicks] in *. apply IH; cbn; lia.
Qed.
End jokes_run.

(** ** C2 and C10: what the jokes run visits *)

Example Jokes_main_ex :
  map (fun v => (Jokes.v_round v, Jokes.v_url v, Jokes.v_saved v))
      (Jokes.dispatched (Jokes.state_of (Jokes.main sample_jokes_site ∅)))
  = [ (0, sample_joke_url, false); (0, sample_joke_url2, true);
      (1, sample_joke_url, true) ].
Proof. vm_compute. reflexivity. Qed.

(** The counterexample to C2 as it is worded: the first visit of a URL
    fails, its id does not enter [seenIds], and the next reading of the
    list visits the same URL again. *)
Lemma C2_counterexample :
  In {| Jokes.v_round := 0; Jokes.v_url := sample_joke_url; Jokes.v_saved := false |}
     (Jokes.dispatched (Jokes.state_of (Jokes.main sample_jokes_site ∅)))
  /\ In {| Jokes.v_round := 1; Jokes.v_url := sample_joke_url; Jokes.v_saved := true |}
        (Jokes.dispatched (Jokes.state_of (Jokes.main sample_jokes_site ∅))).
Proof. split; vm_compute; tauto. Qed.

(** C2 (amended).  In a run of the jokes script, a URL is visited a second
    time only when the earlier visit wrote no record, and then in a later
    reading of the list: a URL is visited at most once per reading, and
    never again after a visit that wrote its record.  No source is written
    twice, and every record written comes from a visit. *)
Theorem C2_dedup_incremental (site : Jokes.Site) (max_clicks : nat) (fs : FS)
    (i j : nat) (v1 v2 : Jokes.Visit) :
  (i < j ->
   Jokes.dispatched (Jokes.state_of (Jokes.run site max_clicks fs)) !! i = Some v1 ->
   Jokes.dispatched (Jokes.state_of (Jokes.run site max_clicks fs)) !! j = Some v2 ->
   Jokes.v_url v1 = Jokes.v_url v2 ->
   Jokes.v_saved v1 = false /\ Jokes.v_round v1 < Jokes.v_round v2)
  /\ NoDup (map source (Jokes.saved (Jokes.state_of (Jokes.run site max_clicks fs))))
  /\ (forall rec,
        rec ∈ Jokes.saved (Jokes.state_of (Jokes.run site max_clicks fs)) ->
        exists v x n,
          v ∈ Jokes.dispatched (Jokes.state_of (Jokes.run site max_clicks fs))
          /\ Jokes.v_saved v = true
          /\ Jokes.article site n (Jokes.v_url v) = Some x
          /\ rec = Jokes.buildRecord (Jokes.v_url v) x).
Proof.
  pose proof (Jokes_run_inv site max_clicks fs) as Hinv.
  split; [apply (Jokes.inv_again _ _ Hinv)|].
  split; [apply (Jokes.inv_once _ _ Hinv)|apply (Jokes.inv_saved _ _ Hinv)].
Qed.

Lemma C2_dedup_incremental_witness :
  0 < 2
  /\ Jokes.dispatched (Jokes.state_of (Jokes.run sample_jokes_site 5 ∅)) !! 0
     = Some {| Jokes.v_round := 0; Jokes.v_url := sample_joke_url;
               Jokes.v_saved := false |}
  /\ Jokes.dispatched (Jokes.state_of (Jokes.run sample_jokes_site 5 ∅)) !! 2
     = Some {| Jokes.v_round := 1; Jokes.v_url := sample_joke_url;
               Jokes.v_saved := true |}
  /\ (false = false /\ 0 < 1).
Proof.
  assert (H0 : 0 < 2) by lia.
  assert (H1 : Jokes.dispatched (Jokes.state_of (Jokes.run sample_jokes_site 5 ∅)) !! 0
               = Some {| Jokes.v_round := 0; Jokes.v_url := sample_joke_url;
                         Jokes.v_saved := false |}) by (vm_compute; reflexivity).
  assert (H2 : Jokes.dispatched (Jokes.state_of (Jokes.run sample_jokes_site 5 ∅)) !! 2
               = Some {| Jokes.v_round := 1; Jokes.v_url := sample_joke_url;
                         Jokes.v_saved := true |}) by (vm_compute; reflexivity).
  split; [exact H0|]. split; [exact H1|]. split; [exact H2|].
  exact (proj1 (C2_dedup_incremental sample_jokes_site 5 ∅ 0 2 _ _) H0 H1 H2 eq_refl).
Defined.

(** C10.  In a run of the jokes script, a URL that the pattern of the
    resolver does not match (its id in the list of cards is the empty
    string) is never visited, and no record with this source is written. *)
Theorem C10_no_id_no_dispatch (site : Jokes.Site) (max_clicks : nat) (fs : FS)
    (url : jsstring) :
  Jokes.getArticleIdFromUrl url = None ->
  (forall anchors, url ∈ anchors -> (url, []) ∈ Jokes.collectLinkObjs anchors)
  /\ (forall v,
        v ∈ Jokes.dispatched (Jokes.state_of (Jokes.run site max_clicks fs)) ->
        Jokes.v_url v <> url)
  /\ (forall rec,
        rec ∈ Jokes.saved (Jokes.state_of (Jokes.run site max_clicks fs)) ->
        source rec <> Some url).
Proof.
  intros Hnone. pose proof (Jokes_run_inv site max_clicks fs) as Hinv.
  split; [|split].
  - intros anchors Hin. unfold Jokes.collectLinkObjs.
    apply list_elem_of_fmap. exists url. rewrite Hnone. split; [done|].
    apply first_occurrences_spec. set_solver.
  - intros v Hv Hu. destruct (Jokes.inv_visit _ _ Hinv v Hv) as [_ (d & Hd & _)].
    congruence.
  - intros rec Hrec Hs.
    destruct (Jokes.inv_saved _ _ Hinv rec Hrec) as (v & x & n & Hv & _ & _ & ->).
    cbn in Hs. injection Hs as Hs.
    destruct (Jokes.inv_visit _ _ Hinv v Hv) as [_ (d & Hd & _)]. congruence.
Qed.

Lemma C10_no_id_no_dispatch_witness :
  Jokes.getArticleIdFromUrl sample_joke_url_bad = None
  /\ Jokes.cards sample_jokes_site 0
     = Some [sample_joke_url; sample_joke_url2; sample_joke_url_bad; sample_joke_url]
  /\ (forall v,
        v ∈ Jokes.dispatched (Jokes.state_of (Jokes.main sample_jokes_site ∅)) ->
        Jokes.v_url v <> sample_joke_url_bad)
  /\ (forall rec,
        rec ∈ Jokes.saved (Jokes.state_of (Jokes.main sample_jokes_site ∅)) ->
        source rec <> Some sample_joke_url_bad).
Proof.
  assert (H0 : Jokes.getArticleIdFromUrl sample_joke_url_bad = None)
    by (vm_compute; reflexivity).
  split; [exact H0|]. split; [reflexivity|].
  exact (proj2 (C10_no_id_no_dispatch sample_jokes_site Jokes.MAX_CLICKS ∅
                  sample_joke_url_bad H0)).
Defined.

(** ** The records of the satire run *)

Lemma Satire_each_link_saved (site : Satire.Site) (k : nat)
    (links : list jsstring) (st : Satire.Run) (rec : Row) :
  rec ∈ Satire.saved (Satire.each_link site k links st) ->
  rec ∈ Satire.saved st
  \/ exists url x n,
       url ∈ links /\ Satire.article site n url = Some x
       /\ rec = Satire.record url x.
Proof.
  revert k st. induction links as [|url rest IH]; intros k st;
    cbn [Satire.each_link]; [by left|].
  destruct (Satire.article site k url) as [x|] eqn:Hx.
  - intros [Hin|(u & x' & n & Hu & Hx' & ->)]%IH.
    + cbn in Hin. apply elem_of_app in Hin as [Hin| ->%list_elem_of_singleton];
        [by left|]. right. exists url, x, k. by repeat split; [left|..].
    + right. exists u, x', n. by repeat split; [right|..].
  - intros [Hin|(u & x' & n & Hu & Hx' & ->)]%IH; [by left|].
    right. exists u, x', n. by repeat split; [right|..].
Qed.

Lemma Satire_main_saved (site : Satire.Site) (fs : FS) (rec : Row) :
  rec ∈ Satire.saved (Satire.main site fs) ->
  exists url x n,
    url ∈ Satire.collectAllLinks (Satire.hrefs site)
    /\ Satire.article site n url = Some x /\ rec = Satire.record url x.
Proof.
  unfold Satire.main. intros [Hin|Hrec]%Satire_each_link_saved; [|done].
  by apply elem_of_nil in Hin.
Qed.

(** ** The test of the schema text *)

Lemma starts_with_ci_spec (lit s : jsstring) :
  starts_with_ci lit s = true <->
  exists w post, s = w ++ post /\ map fold_ascii w = map fold_ascii lit.
Proof.
  revert s. induction lit as [|a lit IH]; intros s; cbn [starts_with_ci].
  - split; [by exists [], s|done].
  - destruct s as [|b s].
    + split; [done|]. intros (w & post & Hs & Hw).
      symmetry in Hs. apply app_eq_nil in Hs as [-> _]. done.
    + rewrite andb_true_iff, N.eqb_eq, IH. split.
      * intros [Hab (w & post & -> & Hw)]. exists (b :: w), post.
        split; [done|]. cbn. by rewrite Hab, Hw.
      * intros (w & post & Hs & Hw). destruct w as [|c w]; [done|].
        cbn in Hs, Hw. injection Hs as -> ->. injection Hw as Hc Hw.
        split; [done|]. by exists w, post.
Qed.

Lemma test_ci_spec (lit s : jsstring) :
  test_ci lit s = true <-> contains_ci lit s.
Proof.
  unfold contains_ci. induction s as [|c t IH]; cbn [test_ci].
  - rewrite orb_false_r, starts_with_ci_spec. split.
    + intros (w & post & Hs & Hw). by exists [], w, post.
    + intros (pre & w & post & Hs & Hw).
      symmetry in Hs. apply app_eq_nil in Hs as [-> Hs]. by exists w, post.
  - rewrite orb_true_iff, starts_with_ci_spec, IH. split.
    + intros [(w & post & Hs & Hw)|(pre & w & post & -> & Hw)].
      * by exists [], w, post.
      * by exists (c :: pre), w, post.
    + intros (pre & w & post & Hs & Hw). destruct pre as [|c' pre].
      * left. by exists w, post.
      * right. cbn in Hs. injection Hs as -> ->. by exists pre, w, post.
Qed.

Example test_ci_ex :
  test_ci (js "false") (js "rating: false") = true
  /\ test_ci (js "false") (js "Rating: FALSE") = true
  /\ test_ci (js "false") (js "rating: true") = false.
Proof. repeat split. Qed.

Lemma Jachai_crawl_saved `{Platform} (site : Jachai.Site) (first last : nat)
    (fs : FS) (e : nat * Row) :
  In e (Jachai.saved (Jachai.crawl site first last fs)) ->
  Jachai.built site e.1 e.
Proof.
  unfold Jachai.crawl.
  destruct (Jachai_pages_log site (S last - first) first
              {| Jachai.files := Jachai.ensureOutputs fs; Jachai.total := 0;
                 Jachai.visited := []; Jachai.saved := [] |})
    as (m & ls & _ & _ & -> & Hls & _).
  cbn. intros He. rewrite Forall_forall in Hls.
  by apply list_elem_of_In, Hls in He as (_ & _ & ?).
Qed.

Lemma truthy_or_empty (s : jsstring) : (if truthy s then s else []) = s.
Proof. by destruct s. Qed.

Lemma filter_none {A} (f : A -> bool) (l : list A) :
  (forall x, In x l -> f x = false) -> List.filter f l = [].
Proof.
  induction l as [|a l IH]; intros Hf; [done|]. cbn [List.filter].
  rewrite (Hf a) by (left; done). apply IH. intros x Hx. apply Hf. by right.
Qed.

Lemma filter_all {A} (f : A -> bool) (l : list A) :
  (forall x, In x l -> f x = true) -> List.filter f l = l.
Proof.
  induction l as [|a l IH]; intros Hf; [done|]. cbn [List.filter].
  rewrite (Hf a) by (left; done). f_equal. apply IH. intros x Hx.
  apply Hf. by right.
Qed.

(** ** Which item, visit or post a record comes from *)

Section jachai_rows.
Context `{Platform} (site : Jachai.Site).

(** The rows of one reading of a list page follow its items one for one,
    and the visits follow the counter [total]. *)
Lemma Jachai_each_item_rows (pnum : nat) (items : list Jachai.Item)
    (st : Jachai.Run) :
  exists rows,
    Jachai.saved (Jachai.each_item site pnum items st).1
    = Jachai.saved st ++ map (pair pnum) rows
    /\ forall j r, rows !! j = Some r ->
         exists it url text,
           items !! j = Some it /\ Jachai.it_url it = Some url
           /\ Jachai.fetchArticleContent site (Jachai.total st + j) url
              = Jachai.DetailText text
           /\ r = Jachai.row it url text.
Proof.
  assert (Hnone : forall st0 : Jachai.Run, exists rows : list Row,
    Jachai.saved st0 = Jachai.saved st0 ++ map (pair pnum) rows
    /\ forall j r, rows !! j = Some r ->
         exists it url text,
           items !! j = Some it /\ Jachai.it_url it = Some url
           /\ Jachai.fetchArticleContent site (Jachai.total st0 + j) url
              = Jachai.DetailText text
           /\ r = Jachai.row it url text).
  { intros st0. exists []. cbn [map]. rewrite app_nil_r. split; [done|].
    intros j r Hj. by rewrite lookup_nil in Hj. }
  revert st Hnone. induction items as [|it rest IH]; intros st Hnone;
    cbn [Jachai.each_item]; [apply Hnone|].
  destruct (Jachai.it_url it) as [url|] eqn:Hurl; [|apply Hnone].
  destruct (Jachai.fetchArticleContent site (Jachai.total st) url)
    as [|text] eqn:Hf; [apply Hnone|].
  match goal with
  | |- context [Jachai.each_item site pnum rest ?s] =>
      destruct (IH s) as (rows & Hs & Hrows)
  end.
  { intros st0. exists []. cbn [map]. rewrite app_nil_r. split; [done|].
    intros j r Hj. by rewrite lookup_nil in Hj. }
  cbn [Jachai.saved Jachai.total] in Hs, Hrows.
  exists (Jachai.row it url text :: rows). split.
  - rewrite Hs, <- app_assoc. done.
  - intros [|j] r Hj; cbn in Hj.
    + injection Hj as <-. exists it, url, text. by rewrite Nat.add_0_r.
    + destruct (Hrows j r Hj) as (it' & url' & text' & Hit & Hu & Hfe & ->).
      exists it', url', text'.
      replace (Jachai.total st + S j) with (S (Jachai.total st) + j) by lia.
      done.
Qed.

(** The [j]-th row written while list page [p] was open comes from the
    [j]-th item of that page. *)
Lemma Jachai_pages_rows (fuel pnum : nat) (st : Jachai.Run) (p j : nat)
    (r : Row) :
  (forall e, In e (Jachai.saved st) -> e.1 < pnum) ->
  map snd (List.filter (fun e => e.1 =? p)
             (Jachai.saved (Jachai.pages site fuel pnum st))) !! j = Some r ->
  map snd (List.filter (fun e => e.1 =? p) (Jachai.saved st)) !! j = Some r
  \/ exists status nodes it url text n,
       Jachai.goto site p = Jachai.ListPage status nodes
       /\ Jachai.scrapeListPage nodes !! j = Some it
       /\ Jachai.it_url it = Some url
       /\ Jachai.fetchArticleContent site n url = Jachai.DetailText text
       /\ r = Jachai.row it url text.
Proof.
  revert pnum st. induction fuel as [|fuel IH]; intros pnum st Hlt;
    cbn [Jachai.pages]; [by left|].
  destruct (Jachai.goto site pnum) as [|status nodes] eqn:Hg; [by left|].
  destruct (400 <=? _)%N; [by left|].
  destruct nodes as [|el els] eqn:Hn; [by left|]. rewrite <- Hn.
  set (st0 := {| Jachai.files := Jachai.files st; Jachai.total := Jachai.total st;
                 Jachai.visited := Jachai.visited st ++ [pnum];
                 Jachai.saved := Jachai.saved st |}).
  destruct (Jachai_each_item_rows pnum (Jachai.scrapeListPage nodes) st0)
    as (rows & Hs & Hrows).
  destruct (Jachai.each_item site pnum (Jachai.scrapeListPage nodes) st0)
    as [st' b].
  cbn [fst Jachai.saved Jachai.total st0] in Hs, Hrows.
  assert (Hstep :
    map snd (List.filter (fun e => e.1 =? p) (Jachai.saved st')) !! j = Some r ->
    map snd (List.filter (fun e => e.1 =? p) (Jachai.saved st)) !! j = Some r
    \/ exists status nodes it url text n,
         Jachai.goto site p = Jachai.ListPage status nodes
         /\ Jachai.scrapeListPage nodes !! j = Some it
         /\ Jachai.it_url it = Some url
         /\ Jachai.fetchArticleContent site n url = Jachai.DetailText text
         /\ r = Jachai.row it url text).
  { rewrite Hs, List.filter_app, map_app.
    destruct (decide (p = pnum)) as [->|Hne].
    - rewrite (filter_none _ (Jachai.saved st)), (filter_all _ (map (pair pnum) rows)).
      + rewrite map_map. cbn [app snd]. rewrite map_id. intros Hj.
        destruct (Hrows j r Hj) as (it & url & text & Hit & Hu & Hfe & ->).
        right. rewrite <- Hn in Hg.
        by exists status, nodes, it, url, text, (Jachai.total st + j).
      + intros e (r0 & <- & _)%in_map_iff. apply Nat.eqb_refl.
      + intros e He. apply Nat.eqb_neq. apply Hlt in He. lia.
    - rewrite (filter_none _ (map (pair pnum) rows)).
      + rewrite app_nil_r. by left.
      + intros e (r0 & <- & _)%in_map_iff. apply Nat.eqb_neq. cbn. lia. }
  destruct b; [exact Hstep|].
  intros Hj. apply IH in Hj as [Hj|Hj]; [by apply Hstep|by right|].
  intros e. rewrite Hs, in_app_iff, in_map_iff.
  intros [He|(r0 & <- & _)]; [apply Hlt in He; lia|cbn; lia].
Qed.

Lemma Jachai_crawl_rows (first last : nat) (fs : FS) (e : nat * Row) :
  In e (Jachai.saved (Jachai.crawl site first last fs)) ->
  exists j status nodes it url text n,
    map snd (List.filter (fun e' => e'.1 =? e.1)
               (Jachai.saved (Jachai.crawl site first last fs))) !! j
    = Some e.2
    /\ Jachai.goto site e.1 = Jachai.ListPage status nodes
    /\ Jachai.scrapeListPage nodes !! j = Some it
    /\ Jachai.it_url it = Some url
    /\ Jachai.fetchArticleContent site n url = Jachai.DetailText text
    /\ e.2 = Jachai.row it url text.
Proof.
  intros He.
  assert (Hin : e.2 ∈ map snd (List.filter (fun e' : nat * Row => e'.1 =? e.1)
                  (Jachai.saved (Jachai.crawl site first last fs)))).
  { apply list_elem_of_In, in_map, filter_In. split; [done|apply Nat.eqb_refl]. }
  apply list_elem_of_lookup in Hin as [j Hj]. exists j.
  unfold Jachai.crawl in Hj |- *.
  pose proof Hj as Hj'.
  apply Jachai_pages_rows in Hj' as [Hnil|(status & nodes & it & url & text & n & Hr)].
  - cbn in Hnil. by rewrite lookup_nil in Hnil.
  - by exists status, nodes, it, url, text, n.
  - cbn. tauto.
Qed.
End jachai_rows.

Section jokes_visits.
Context (site : Jokes.Site).

Lemma Jokes_each_new_from_visits (k : nat)
    (newOnes : list (jsstring * jsstring)) (st : Jokes.Run) :
  Jokes_from_visits site st ->
  Jokes_from_visits site (Jokes.each_new site k newOnes st).
Proof.
  revert st. induction newOnes as [|[url id] rest IH]; intros st Hst;
    cbn [Jokes.each_new]; [done|].
  unfold Jokes.scrapeOneArticle.
  destruct (Jokes.article site (length (Jokes.dispatched st)) url) as [x|] eqn:Hx;
    cbn [fmap option_fmap option_map]; apply IH; intros rec;
    cbn [Jokes.saved Jokes.dispatched].
  - intros [Hrec| ->%list_elem_of_singleton]%elem_of_app.
    + destruct (Hst rec Hrec) as (n & v & x' & Hn & Hv & Hx' & ->).
      exists n, v, x'. split; [by apply lookup_app_l_Some|done].
    + eexists (length (Jokes.dispatched st)), _, x.
      split; [by apply list_lookup_middle|]. cbn [Jokes.v_saved Jokes.v_url].
      done.
  - intros Hrec. destruct (Hst rec Hrec) as (n & v & x' & Hn & Hv & Hx' & ->).
    exists n, v, x'. split; [by apply lookup_app_l_Some|done].
Qed.

Lemma Jokes_processNewCardsOnList_from_visits (st : Jokes.Run) :
  Jokes_from_visits site st ->
  Jokes_from_visits site (Jokes.state_of (Jokes.processNewCardsOnList site st)).
Proof.
  intros Hst. unfold Jokes.processNewCardsOnList.
  destruct (Jokes.cards site (Jokes.scans st)) as [anchors|]; [|exact Hst].
  cbn [Jokes.state_of]. apply Jokes_each_new_from_visits. exact Hst.
Qed.

Lemma Jokes_clicking_from_visits (max_clicks fuel : nat) (st : Jokes.Run) :
  Jokes_from_visits site st ->
  Jokes_from_visits site (Jokes.state_of (Jokes.clicking site max_clicks fuel st)).
Proof.
  revert st. induction fuel as [|fuel IH]; intros st Hst; cbn [Jokes.clicking];
    [done|].
  destruct (Jokes.poll site _) as [seen|]; [|done].
  destruct (Jokes.noMore _); [done|].
  destruct (Jokes.button _) as [visible|]; [|done].
  assert (Hafter : Jokes_from_visits site (Jokes.state_of
            (if visible then Jokes.processNewCardsOnList site st
             else Jokes.Finished st))).
  { destruct visible; [by apply Jokes_processNewCardsOnList_from_visits|done]. }
  destruct (if visible then _ else _) as [st'|st']; [|done].
  cbn [Jokes.state_of] in Hafter.
  destruct (max_clicks <=? _); [done|]. by apply IH.
Qed.

Lemma Jokes_run_from_visits (max_clicks : nat) (fs : FS) :
  Jokes_from_visits site (Jokes.state_of (Jokes.run site max_clicks fs)).
Proof.
  unfold Jokes.run.
  set (st := {| Jokes.files := Jokes.ensureOut fs; Jokes.seenIds := ∅;
                Jokes.totalSaved := 0; Jokes.clicks := 0; Jokes.scans := 0;
                Jokes.dispatched := []; Jokes.saved := [] |}).
  assert (Hst : Jokes_from_visits site st).
  { intros rec Hrec. by apply elem_of_nil in Hrec. }
  destruct (Jokes.opens site); [|done].
  pose proof (Jokes_processNewCardsOnList_from_visits st Hst) as Hst'.
  destruct (Jokes.processNewCardsOnList site st) as [st'|st']; [|done].
  by apply Jokes_clicking_from_visits.
Qed.
End jokes_visits.

(** A record of the satire script comes from the link that has the number
    of its visit. *)
Lemma Satire_each_link_index (site : Satire.Site) (k : nat)
    (links : list jsstring) (st : Satire.Run) (rec : Row) :
  rec ∈ Satire.saved (Satire.each_link site k links st) ->
  rec ∈ Satire.saved st
  \/ exists j url x,
       links !! j = Some url /\ Satire.article site (k + j) url = Some x
       /\ rec = Satire.record url x.
Proof.
  revert k st. induction links as [|url rest IH]; intros k st;
    cbn [Satire.each_link]; [by left|].
  destruct (Satire.article site k url) as [x|] eqn:Hx.
  - intros [Hin|(j & u & x' & Hu & Hx' & ->)]%IH.
    + cbn in Hin. apply elem_of_app in Hin as [Hin| ->%list_elem_of_singleton];
        [by left|]. right. exists 0, url, x. by rewrite Nat.add_0_r.
    + right. exists (S j), u, x'. split; [done|].
      by replace (k + S j) with (S k + j) by lia.
  - intros [Hin|(j & u & x' & Hu & Hx' & ->)]%IH; [by left|].
    right. exists (S j), u, x'. split; [done|].
    by replace (k + S j) with (S k + j) by lia.
Qed.

(** ** C8: the date of a record *)

(** The counterexample to C8 as it is worded: earki.js writes [null], not
    the raw text, for a date it cannot parse; the jokes script writes the
    raw text of a date that the platform parses and would print otherwise. *)
Lemma C8_counterexample :
  @new_Date sample_platform (js "yesterday") = None
  /\ @Jachai.normalizeDateISO sample_platform (Some (js "yesterday")) = None
  /\ (@toISOString sample_platform <$> @new_Date sample_platform sample_date)
     = Some sample_date_iso
  /\ sample_date_iso <> sample_date
  /\ published_at (Jokes.buildRecord sample_joke_url sample_extracted)
     = Some sample_date.
Proof. repeat split; vm_compute; congruence. Qed.

(** C8 (amended).  In earki.js the date of a record is the ISO-8601 UTC
    text of the raw date of its own item, the item of its list page that
    stands where the row stands among the rows of that page and whose URL
    is the source of the row, when that text is not empty and parses, and
    [null] otherwise.  In the jokes, satire and fact-watch scripts it is
    the raw text that the page of the article gave at the visit of the
    record's own source, as it is: these scripts normalize no date. *)
Theorem C8_published_at `{Platform} (jachai : Jachai.Site) (jokes : Jokes.Site)
    (satire : Satire.Site) (factwatch : FactWatch.Site)
    (first last max_clicks : nat) (fs : FS) :
  (forall e, In e (Jachai.saved (Jachai.crawl jachai first last fs)) ->
     exists j status nodes it,
       map snd (List.filter (fun e' => e'.1 =? e.1)
                  (Jachai.saved (Jachai.crawl jachai first last fs))) !! j
       = Some e.2
       /\ Jachai.goto jachai e.1 = Jachai.ListPage status nodes
       /\ Jachai.scrapeListPage nodes !! j = Some it
       /\ source e.2 = Jachai.it_url it
       /\ published_at e.2
          = match Jachai.it_published_at_raw it with
            | Some [] => None
            | Some raw => toISOString <$> new_Date raw
            | None => None
            end)
  /\ (forall rec,
        rec ∈ Jokes.saved (Jokes.state_of (Jokes.run jokes max_clicks fs)) ->
        exists n v x,
          Jokes.dispatched (Jokes.state_of (Jokes.run jokes max_clicks fs)) !! n
          = Some v
          /\ Jokes.v_saved v = true
          /\ source rec = Some (Jokes.v_url v)
          /\ Jokes.article jokes n (Jokes.v_url v) = Some x
          /\ published_at rec = Some (Jokes.x_published_at x))
  /\ (forall rec, rec ∈ Satire.saved (Satire.main satire fs) ->
        exists n url x,
          Satire.collectAllLinks (Satire.hrefs satire) !! n = Some url
          /\ source rec = Some url
          /\ Satire.article satire n url = Some x
          /\ published_at rec = Some (Satire.x_published_at x))
  /\ (forall e, In e (FactWatch.saved (FactWatch.crawl factwatch first last fs)) ->
        exists anchors i url data,
          FactWatch.list_page factwatch e.1 = Some anchors
          /\ FactWatch.collectCardUrlsOnList anchors !! i = Some url
          /\ source e.2 = Some url
          /\ FactWatch.post factwatch e.1 i url = FactWatch.PostData data
          /\ published_at e.2 = Some (FactWatch.d_published_at data)).
Proof.
  split; [|split; [|split]].
  - intros e He.
    apply Jachai_crawl_rows in He
      as (j & status & nodes & it & url & text & n & Hj & Hg & Hit & Hu & _ & Hrow).
    exists j, status, nodes, it. rewrite Hrow in Hj |- *.
    split; [done|]. split; [done|]. split; [done|]. split; [by rewrite Hu|].
    cbn. unfold Jachai.normalizeDateISO.
    destruct (Jachai.it_published_at_raw it) as [[|c raw]|]; [done| |done].
    cbn. by destruct (new_Date _).
  - intros rec Hrec.
    destruct (Jokes_run_from_visits jokes max_clicks fs rec Hrec)
      as (n & v & x & Hn & Hv & Hx & ->).
    exists n, v, x. split; [done|]. split; [done|]. split; [done|].
    split; [done|]. cbn. by rewrite truthy_or_empty.
  - intros rec Hrec. unfold Satire.main in Hrec.
    apply Satire_each_link_index in Hrec as [Hin|(j & url & x & Hj & Hx & ->)];
      [by apply elem_of_nil in Hin|].
    by exists j, url, x.
  - intros e He. apply FactWatch_crawl_saved in He as (anchors & i & url & Ha & Hi & He).
    unfold FactWatch.scrapeSinglePost in He.
    destruct (FactWatch.post factwatch e.1 i url) as [| |data] eqn:Hpost; [done..|].
    injection He as <-. by exists anchors, i, url, data.
Qed.

Lemma C8_published_at_witness :
  Jokes.buildRecord sample_joke_url2 sample_extracted
    ∈ Jokes.saved (Jokes.state_of (Jokes.run sample_jokes_site 5 ∅))
  /\ exists n v x,
       Jokes.dispatched (Jokes.state_of (Jokes.run sample_jokes_site 5 ∅)) !! n
       = Some v
       /\ Jokes.v_saved v = true
       /\ source (Jokes.buildRecord sample_joke_url2 sample_extracted)
          = Some (Jokes.v_url v)
       /\ Jokes.article sample_jokes_site n (Jokes.v_url v) = Some x
       /\ published_at (Jokes.buildRecord sample_joke_url2 sample_extracted)
          = Some (Jokes.x_published_at x).
Proof.
  assert (Hin : Jokes.buildRecord sample_joke_url2 sample_extracted
                  ∈ Jokes.saved (Jokes.state_of (Jokes.run sample_jokes_site 5 ∅))).
  { apply list_elem_of_In. vm_compute. tauto. }
  split; [exact Hin|].
  exact (proj1 (proj2 (@C8_published_at sample_platform sample_jachai_site
                         sample_jokes_site sample_satire_site sample_factwatch_site
                         1 70 5 ∅)) _ Hin).
Defined.

(** ** C9: the label of a record *)

(** C9.  In the fact-watch script the label of a record is 0 exactly when
    the schema text of its own post (the post of its list page whose link
    is the source of the record, read at the place the link has in the
    list; the text is lower-cased in the page) holds the word false,
    letter case aside, and 1 otherwise.  In the three other scripts the
    label of every record is 0. *)
Theorem C9_labels `{Platform} (jachai : Jachai.Site) (jokes : Jokes.Site)
    (satire : Satire.Site) (factwatch : FactWatch.Site)
    (first last max_clicks : nat) (fs : FS) :
  (forall e, In e (FactWatch.saved (FactWatch.crawl factwatch first last fs)) ->
     exists anchors i url data,
       FactWatch.list_page factwatch e.1 = Some anchors
       /\ FactWatch.collectCardUrlsOnList anchors !! i = Some url
       /\ source e.2 = Some url
       /\ FactWatch.post factwatch e.1 i url = FactWatch.PostData data
       /\ (label e.2 = 0%N <-> contains_ci (js "false") (FactWatch.d_schemaText data))
       /\ (label e.2 = 1%N <-> ~ contains_ci (js "false") (FactWatch.d_schemaText data)))
  /\ (forall e, In e (Jachai.saved (Jachai.crawl jachai first last fs)) ->
        label e.2 = 0%N)
  /\ (forall rec,
        rec ∈ Jokes.saved (Jokes.state_of (Jokes.run jokes max_clicks fs)) ->
        label rec = 0%N)
  /\ (forall rec, rec ∈ Satire.saved (Satire.main satire fs) -> label rec = 0%N).
Proof.
  split; [|split; [|split]].
  - intros e He. apply FactWatch_crawl_saved in He as (anchors & i & url & Ha & Hi & He).
    unfold FactWatch.scrapeSinglePost in He.
    destruct (FactWatch.post factwatch e.1 i url) as [| |data] eqn:Hpost; [done..|].
    injection He as <-. exists anchors, i, url, data.
    split; [done|]. split; [done|]. split; [done|]. split; [done|]. cbn [label].
    rewrite <- test_ci_spec.
    destruct (test_ci (js "false") (FactWatch.d_schemaText data)); split; split;
      done.
  - intros e He.
    by apply Jachai_crawl_saved in He
      as (_ & status & nodes & it & url & text & n & _ & _ & _ & _ & ->).
  - intros rec Hrec.
    by destruct (Jokes.inv_saved _ _ (Jokes_run_inv jokes max_clicks fs) rec Hrec)
      as (v & x & n & _ & _ & _ & ->).
  - intros rec Hrec. by apply Satire_main_saved in Hrec as (url & x & n & _ & _ & ->).
Qed.

Lemma C9_labels_witness :
  In (1, {| article_id := Some (js "post-1");
            publisher := Some (js "fact-watch");
            source := Some (js "https://www.fact-watch.org/post-1/");
            category := Some (js "fact-check");
            published_at := Some (js "August 22, 2023");
            headline := Some (js "A claim");
            content := Some (js "Body");
            label := 0 |})
     (FactWatch.saved (@FactWatch.crawl sample_platform sample_factwatch_site 1 3 ∅))
  /\ exists anchors i url data,
       FactWatch.list_page sample_factwatch_site 1 = Some anchors
       /\ FactWatch.collectCardUrlsOnList anchors !! i = Some url
       /\ Some (js "https://www.fact-watch.org/post-1/") = Some url
       /\ FactWatch.post sample_factwatch_site 1 i url = FactWatch.PostData data
       /\ (0%N = 0%N <-> contains_ci (js "false") (FactWatch.d_schemaText data))
       /\ (0%N = 1%N <-> ~ contains_ci (js "false") (FactWatch.d_schemaText data)).
Proof.
  assert (Hin :
    In (1, {| article_id := Some (js "post-1");
              publisher := Some (js "fact-watch");
              source := Some (js "https://www.fact-watch.org/post-1/");
              category := Some (js "fact-check");
              published_at := Some (js "August 22, 2023");
              headline := Some (js "A claim");
              content := Some (js "Body");
              label := 0 |})
       (FactWatch.saved (@FactWatch.crawl sample_platform sample_factwatch_site 1 3 ∅))).
  { vm_compute. tauto. }
  split; [exact Hin|].
  exact (proj1 (@C9_labels sample_platform sample_jachai_site sample_jokes_site
                  sample_satire_site sample_factwatch_site 1 3 5 ∅) _ Hin).
Defined.

(** ** White space at the ends and between the lines of a text *)

Lemma is_ws_LF : is_ws LF = true.
Proof. reflexivity. Qed.

Lemma trimStart_head (s : jsstring) :
  match trimStart s with c :: _ => is_ws c = false | [] => True end.
Proof.
  induction s as [|c t IH]; [done|]. cbn [trimStart].
  by destruct (is_ws c) eqn:Hc.
Qed.

Lemma trimEnd_prefix (s : jsstring) : exists q, s = trimEnd s ++ q.
Proof.
  unfold trimEnd. destruct (trimStart_suffix (rev s)) as [p Hp].
  exists (rev p). rewrite <- rev_app_distr, <- Hp. by rewrite rev_involutive.
Qed.

Lemma trimEnd_last (s : jsstring) :
  match last (trimEnd s) with Some c => is_ws c = false | None => True end.
Proof.
  unfold trimEnd. pose proof (trimStart_head (rev s)) as H.
  destruct (trimStart (rev s)) as [|c t]; [done|].
  cbn [rev]. by rewrite last_snoc.
Qed.

(** [trim] cuts white space off both ends and nothing else. *)
Lemma trim_spec (s : jsstring) :
  (exists p q, s = p ++ trim s ++ q
               /\ forallb is_ws p = true /\ forallb is_ws q = true)
  /\ match trim s with c :: _ => is_ws c = false | [] => True end
  /\ match last (trim s) with Some c => is_ws c = false | None => True end.
Proof.
  assert (Hstart : forall x, exists p, x = p ++ trimStart x /\ forallb is_ws p = true).
  { induction x as [|c t (p & Hp & Hws)]; [by exists []|]. cbn [trimStart].
    destruct (is_ws c) eqn:Hc; [|by exists []].
    exists (c :: p). cbn. rewrite Hc, Hws. split; [by f_equal|done]. }
  unfold trim. split; [|split].
  - destruct (Hstart s) as (p & Hp & Hpw).
    destruct (Hstart (rev (trimStart s))) as (q & Hq & Hqw).
    exists p, (rev q). split; [|split; [done|]].
    + rewrite Hp at 1. f_equal. unfold trimEnd.
      rewrite <- rev_app_distr, <- Hq. by rewrite rev_involutive.
    + rewrite forallb_forall in *. intros c Hc. apply Hqw. by apply in_rev.
  - pose proof (trimStart_head s) as Hh.
    destruct (trimEnd_prefix (trimStart s)) as [q Hq].
    destruct (trimEnd (trimStart s)) as [|c t]; [done|].
    rewrite Hq in Hh. done.
  - apply trimEnd_last.
Qed.

Lemma no_pair_cons (bad : N -> N -> bool) (x y : N) (t : jsstring) :
  no_pair bad (x :: y :: t) = negb (bad x y) && no_pair bad (y :: t).
Proof. reflexivity. Qed.

Lemma no_pair_app (bad : N -> N -> bool) (a b : jsstring) :
  no_pair bad (a ++ b) = true -> no_pair bad a = true /\ no_pair bad b = true.
Proof.
  induction a as [|x a IH]; [done|]. destruct a as [|y a].
  - cbn [app]. destruct b as [|y b]; [done|].
    rewrite no_pair_cons. intros [_ H]%andb_prop. done.
  - cbn [app] in *. rewrite !no_pair_cons. intros [Hx H]%andb_prop.
    destruct (IH H) as [Ha Hb]. by rewrite Hx, Ha.
Qed.

Lemma no_pair_app_cons (bad : N -> N -> bool) (a b : jsstring) (c : N) :
  no_pair bad (a ++ [c]) = true -> no_pair bad (c :: b) = true ->
  no_pair bad (a ++ c :: b) = true.
Proof.
  intros Ha Hb. induction a as [|x a IH]; [done|]. destruct a as [|y a].
  - cbn [app] in *. rewrite no_pair_cons in Ha |- *.
    apply andb_prop in Ha as [Hx _]. by rewrite Hx, Hb.
  - cbn [app] in *. rewrite no_pair_cons in Ha |- *.
    apply andb_prop in Ha as [Hx Ha]. by rewrite Hx, IH.
Qed.

Lemma no_pair_spec (bad : N -> N -> bool) (s : jsstring) :
  no_pair bad s = true <->
  forall a x y b, s = a ++ x :: y :: b -> bad x y = false.
Proof.
  split.
  - intros Hs a x y b ->. apply no_pair_app in Hs as [_ Hs].
    rewrite no_pair_cons in Hs. apply andb_prop in Hs as [Hs _].
    by apply negb_true_iff.
  - induction s as [|x s IH]; [done|]. intros H. destruct s as [|y s]; [done|].
    rewrite no_pair_cons, (H [] x y s eq_refl). cbn [negb andb].
    apply IH. intros a x' y' b Heq. apply (H (x :: a) x' y' b). by rewrite Heq.
Qed.

(** ** The text of an article body *)

Lemma squeeze_lf_head (limit : nat) (s : jsstring) (run k : nat) (rest : jsstring) :
  squeeze_lf limit run s = replicate k LF ++ rest -> k <= limit - run.
Proof.
  revert run k. induction s as [|c t IH]; intros run k; cbn [squeeze_lf].
  - destruct k; [lia|done].
  - destruct (N.eqb_spec c LF) as [->|Hc].
    + destruct (Nat.ltb_spec run limit) as [Hlt|Hge].
      * destruct k as [|k]; [lia|]. cbn [replicate app]. intros [= H].
        apply IH in H. lia.
      * intros H. apply IH in H. lia.
    + destruct k as [|k]; [lia|]. cbn [replicate app]. intros [= H _]. congruence.
Qed.

Lemma squeeze_lf_suffix (limit : nat) (s : jsstring) (run : nat) (a o : jsstring) :
  squeeze_lf limit run s = a ++ o ->
  exists run' s', o = squeeze_lf limit run' s'.
Proof.
  revert run a. induction s as [|c t IH]; intros run a; cbn [squeeze_lf].
  - intros H. symmetry in H. apply app_eq_nil in H as [_ ->]. by exists 0, [].
  - destruct a as [|x a].
    + cbn [app]. intros <-. exists run, (c :: t). done.
    + destruct (N.eqb_spec c LF) as [->|Hc].
      * destruct (run <? limit).
        -- cbn [app]. intros [= _ H]. by apply IH in H.
        -- intros H. by apply (IH _ (x :: a)) in H.
      * cbn [app]. intros [= _ H]. by apply IH in H.
Qed.

Lemma squeeze_lf_other (limit run : nat) (s : jsstring) :
  List.filter (fun c => negb (c =? LF)%N) (squeeze_lf limit run s)
  = List.filter (fun c => negb (c =? LF)%N) s.
Proof.
  revert run. induction s as [|c t IH]; intros run; [done|]. cbn [squeeze_lf].
  destruct (N.eqb_spec c LF) as [->|Hc].
  - cbn [List.filter]. rewrite N.eqb_refl. cbn [negb].
    destruct (run <? limit); [cbn [List.filter]; rewrite N.eqb_refl|]; apply IH.
  - cbn [List.filter]. destruct (N.eqb_spec c LF); [done|]. cbn [negb].
    by rewrite IH.
Qed.

(** Of a run of line feeds at most [limit] are kept, and every other unit
    stays where it is. *)
Lemma squeeze_lf_spec (limit : nat) (s : jsstring) :
  (forall a b, squeeze_lf limit 0 s <> a ++ replicate (S limit) LF ++ b)
  /\ List.filter (fun c => negb (c =? LF)%N) (squeeze_lf limit 0 s)
     = List.filter (fun c => negb (c =? LF)%N) s.
Proof.
  split; [|apply squeeze_lf_other].
  intros a b H. apply squeeze_lf_suffix in H as (run & s' & H).
  symmetry in H. apply squeeze_lf_head in H. lia.
Qed.

Lemma no_pair_ws_then_lf_tail (l : jsstring) :
  ~ In LF (tail l) -> no_pair ws_then_lf l = true.
Proof.
  induction l as [|x l IH]; [done|]. destruct l as [|y l]; [done|].
  cbn [tail] in *. intros Hy. rewrite no_pair_cons. unfold ws_then_lf at 1.
  destruct (N.eqb_spec y LF) as [->|Hne]; [exfalso; apply Hy; by left|].
  rewrite andb_false_r. cbn [negb andb]. apply IH. intros Hin. apply Hy. by right.
Qed.

Lemma drop_ws_before_lf_ok (s : jsstring) (seen : bool) (pend : jsstring) :
  ~ In LF (tail pend) -> (seen = true -> ~ In LF pend) ->
  no_pair ws_then_lf (drop_ws_before_lf seen pend s) = true.
Proof.
  revert seen pend. induction s as [|c t IH]; intros seen pend Htail Hseen;
    cbn [drop_ws_before_lf].
  - apply no_pair_ws_then_lf_tail. destruct seen; [|done].
    cbn [app tail]. by apply Hseen.
  - destruct (N.eqb_spec c LF) as [->|Hc].
    + destruct (seen || truthy pend); apply IH; cbn; intuition discriminate.
    + destruct (is_ws c) eqn:Hws.
      * apply IH.
        -- destruct pend as [|x pend]; [done|]. cbn [app tail] in *.
           rewrite in_app_iff. cbn. intuition congruence.
        -- intros Hs. rewrite in_app_iff. cbn. specialize (Hseen Hs).
           intuition congruence.
      * rewrite app_assoc. apply no_pair_app_cons.
        -- apply no_pair_ws_then_lf_tail. rewrite <- app_assoc.
           destruct seen.
           ++ cbn [app tail]. rewrite in_app_iff. cbn.
              specialize (Hseen eq_refl). intuition congruence.
           ++ cbn [app]. destruct pend as [|x pend]; [done|]. cbn [app tail] in *.
              rewrite in_app_iff. cbn. intuition congruence.
        -- destruct (drop_ws_before_lf false [] t) as [|y r] eqn:Hr; [done|].
           rewrite no_pair_cons. unfold ws_then_lf at 1. rewrite Hws. cbn [andb negb].
           rewrite <- Hr. apply IH; cbn; intuition discriminate.
Qed.

Lemma drop_ws_after_lf_ok (s : jsstring) (skip : bool) :
  no_pair lf_then_ws (drop_ws_after_lf skip s) = true
  /\ (skip = true ->
      match drop_ws_after_lf skip s with c :: _ => is_ws c = false | [] => True end)
  /\ (forall r, drop_ws_after_lf skip s = LF :: r ->
                skip = false /\ exists t, s = LF :: t)
  /\ (no_pair ws_then_lf s = true ->
      no_pair ws_then_lf (drop_ws_after_lf skip s) = true).
Proof.
  revert skip. induction s as [|c t IH]; intros skip; [done|].
  cbn [drop_ws_after_lf].
  assert (Htail : no_pair ws_then_lf (c :: t) = true -> no_pair ws_then_lf t = true).
  { intros H. by apply (no_pair_app _ [c]) in H as [_ H]. }
  destruct (skip && is_ws c) eqn:Hskip.
  - apply andb_prop in Hskip as [-> Hws].
    destruct (IH true) as (H1 & H2 & H3 & H4).
    split; [done|]. split; [done|]. split.
    + intros r Hr. by destruct (H3 r Hr).
    + intros H. by apply H4, Htail.
  - destruct (N.eqb_spec c LF) as [->|Hc].
    + destruct (IH true) as (H1 & H2 & H3 & H4).
      rewrite is_ws_LF, andb_true_r in Hskip. subst skip.
      specialize (H2 eq_refl).
      split; [|split; [done|split]].
      * destruct (drop_ws_after_lf true t) as [|y r]; [done|].
        rewrite no_pair_cons, H1. unfold lf_then_ws at 1. by rewrite H2.
      * intros r _. split; [done|by exists t].
      * intros H. specialize (H4 (Htail H)).
        destruct (drop_ws_after_lf true t) as [|y r]; [done|].
        rewrite no_pair_cons, H4. unfold ws_then_lf at 1.
        destruct (N.eqb_spec y LF) as [->|Hy]; [by rewrite is_ws_LF in H2|].
        by rewrite andb_false_r.
    + destruct (IH false) as (H1 & H2 & H3 & H4).
      split; [|split; [|split]].
      * destruct (drop_ws_after_lf false t) as [|y r]; [done|].
        rewrite no_pair_cons, H1. unfold lf_then_ws at 1.
        destruct (N.eqb_spec c LF); [done|]. done.
      * intros ->. cbn in Hskip. done.
      * intros r [= ? _]. done.
      * intros H. specialize (H4 (Htail H)).
        destruct (drop_ws_after_lf false t) as [|y r] eqn:Hr; [done|].
        rewrite no_pair_cons, H4. unfold ws_then_lf at 1.
        destruct (N.eqb_spec y LF) as [->|Hy]; [|by rewrite andb_false_r].
        destruct (H3 r eq_refl) as [_ (t' & ->)].
        rewrite no_pair_cons in H. apply andb_prop in H as [H _].
        unfold ws_then_lf in H. rewrite N.eqb_refl, andb_true_r in H.
        apply negb_true_iff in H. by rewrite H.
Qed.

Lemma article_text_pairs (s : jsstring) :
  no_pair ws_then_lf (article_text s) = true
  /\ no_pair lf_then_ws (article_text s) = true.
Proof.
  unfold article_text.
  set (r := drop_ws_after_lf false
              (drop_ws_before_lf false [] (squeeze_lf 1 0 s))).
  destruct (drop_ws_after_lf_ok (drop_ws_before_lf false [] (squeeze_lf 1 0 s)) false)
    as (H1 & _ & _ & H4).
  assert (H2 : no_pair ws_then_lf r = true).
  { apply H4, drop_ws_before_lf_ok; cbn; intuition discriminate. }
  destruct (trim_spec r) as [(p & q & Hr & _) _].
  fold r in H1. rewrite Hr in H1, H2.
  apply no_pair_app in H1 as [_ H1]. apply no_pair_app in H1 as [H1 _].
  apply no_pair_app in H2 as [_ H2]. apply no_pair_app in H2 as [H2 _].
  done.
Qed.

Lemma trim_nil_iff (s : jsstring) : trim s = [] <-> forallb is_ws s = true.
Proof.
  destruct (trim_spec s) as ((p & q & Hs & Hp & Hq) & Hhead & _). split.
  - intros H. rewrite H in Hs. cbn [app] in Hs. rewrite Hs, forallb_app.
    by rewrite Hp, Hq.
  - intros H. destruct (trim s) as [|c t]; [done|]. exfalso.
    rewrite Hs, !forallb_app in H. cbn in H. rewrite Hhead in H.
    by rewrite andb_false_r in H.
Qed.

Lemma forallb_is_ws_squeeze (limit run : nat) (s : jsstring) :
  forallb is_ws (squeeze_lf limit run s) = forallb is_ws s.
Proof.
  revert run. induction s as [|c t IH]; intros run; [done|]. cbn [squeeze_lf].
  destruct (N.eqb_spec c LF) as [->|Hc].
  - cbn [forallb]. rewrite is_ws_LF. cbn [andb].
    destruct (run <? limit); [cbn [forallb]; rewrite is_ws_LF|]; apply IH.
  - cbn [forallb]. by rewrite IH.
Qed.

(** ** A tabular line read back *)

Lemma csv_parse_plain (t acc rest : jsstring) :
  includes COMMA t = false ->
  csv_parse InPlain acc (t ++ COMMA :: rest)
  = (acc ++ t) :: csv_parse FieldStart [] rest
  /\ csv_parse InPlain acc t = [acc ++ t].
Proof.
  revert acc. induction t as [|c t IH]; intros acc Hc.
  - cbn. rewrite N.eqb_refl, app_nil_r. done.
  - unfold includes in Hc. cbn [existsb] in Hc.
    apply orb_false_elim in Hc as [Hc Ht]. rewrite N.eqb_sym in Hc.
    cbn [app csv_parse]. rewrite Hc.
    destruct (IH (acc ++ [c]) Ht) as [H1 H2].
    rewrite H1, H2, <- !app_assoc. done.
Qed.

Lemma csv_parse_quoted (t acc rest : jsstring) :
  csv_parse InQuoted acc (double_quotes t ++ DQUOTE :: COMMA :: rest)
  = (acc ++ t) :: csv_parse FieldStart [] rest
  /\ csv_parse InQuoted acc (double_quotes t ++ [DQUOTE]) = [acc ++ t].
Proof.
  revert acc. induction t as [|c t IH]; intros acc.
  - cbn. rewrite !N.eqb_refl, app_nil_r. done.
  - unfold double_quotes in *. cbn [flat_map].
    destruct (N.eqb_spec c DQUOTE) as [->|Hc].
    + cbn [app csv_parse]. rewrite !N.eqb_refl.
      destruct (IH (acc ++ [DQUOTE])) as [H1 H2].
      rewrite H1, H2, <- !app_assoc. done.
    + cbn [app csv_parse]. destruct (N.eqb_spec c DQUOTE); [done|].
      destruct (IH (acc ++ [c])) as [H1 H2].
      rewrite H1, H2, <- !app_assoc. done.
Qed.

(** A field as an encoder writes it reads back as its text, and the
    reading goes on after the comma. *)
Lemma csv_parse_field (enc txt rest : jsstring) :
  csv_encodes enc txt ->
  csv_parse FieldStart [] (enc ++ COMMA :: rest)
  = txt :: csv_parse FieldStart [] rest
  /\ csv_parse FieldStart [] enc = [txt].
Proof.
  intros [->|(-> & Hq & Hc)].
  - unfold in_quotes. cbn [app csv_parse]. rewrite N.eqb_refl, <- !app_assoc.
    cbn [app]. apply (csv_parse_quoted txt []).
  - destruct txt as [|c t].
    + cbn. by rewrite N.eqb_refl.
    + unfold includes in Hq, Hc. cbn [existsb] in Hq, Hc.
      apply orb_false_elim in Hq as [Hq _]. apply orb_false_elim in Hc as [Hc Ht].
      rewrite N.eqb_sym in Hq. rewrite N.eqb_sym in Hc.
      cbn [app csv_parse]. rewrite Hq, Hc. apply (csv_parse_plain t [c]), Ht.
Qed.

Lemma toCsvField_encodes (v : value) :
  csv_encodes (toCsvField v)
    match v with
    | VNull | VUndefined => []
    | _ => trim (replace_crlf_space (String_of v))
    end.
Proof.
  assert (H : forall t, csv_encodes
                (if includes DQUOTE t || includes COMMA t
                 then in_quotes (double_quotes t) else t) t).
  { intros t. destruct (includes DQUOTE t) eqn:Hq; [by left|].
    destruct (includes COMMA t) eqn:Hc; [by left|]. by right. }
  destruct v; [by right|by right|apply H..].
Qed.

Lemma csvEscape_encodes (v : value) :
  csv_encodes (csvEscape v)
    match v with
    | VNull | VUndefined => []
    | _ => String_of v
    end.
Proof.
  assert (H : forall t, csv_encodes
                (if existsb (fun c => (c =? COMMA) || (c =? DQUOTE) || (c =? LF))%N t
                 then in_quotes (double_quotes t) else t) t).
  { intros t. rewrite csvEscape_test.
    destruct (includes COMMA t) eqn:Hc; [by left|].
    destruct (includes DQUOTE t) eqn:Hq; [by left|].
    destruct (includes LF t); [by left|by right]. }
  destruct v; [by right|by right|apply H..].
Qed.

Lemma uint_units_digits (d : Decimal.uint) :
  forallb is_digit (uint_units d) = true.
Proof. induction d; [done|cbn; by rewrite IHd..]. Qed.

Lemma Number_toString_encodes (n : N) :
  csv_encodes (Number_toString n) (Number_toString n).
Proof.
  right. split; [done|]. unfold Number_toString, includes.
  pose proof (uint_units_digits (N.to_uint n)) as H.
  induction (uint_units (N.to_uint n)) as [|c l IH]; [done|].
  cbn [forallb existsb] in *. apply andb_prop in H as [Hc Hl].
  destruct (IH Hl) as [IH1 IH2]. rewrite IH1, IH2, !orb_false_r.
  unfold is_digit in Hc. N_props.
  split; apply N.eqb_neq; unfold DQUOTE, COMMA; lia.
Qed.

(** Eight fields joined by commas read back as their eight texts. *)
Lemma csv_read_line_eight (e1 e2 e3 e4 e5 e6 e7 e8 t1 t2 t3 t4 t5 t6 t7 t8 : jsstring) :
  csv_encodes e1 t1 -> csv_encodes e2 t2 -> csv_encodes e3 t3 ->
  csv_encodes e4 t4 -> csv_encodes e5 t5 -> csv_encodes e6 t6 ->
  csv_encodes e7 t7 -> csv_encodes e8 t8 ->
  csv_read_line (join (js ",") [e1; e2; e3; e4; e5; e6; e7; e8])
  = [t1; t2; t3; t4; t5; t6; t7; t8].
Proof.
  intros H1 H2 H3 H4 H5 H6 H7 H8. unfold csv_read_line. cbn [join].
  change (js ",") with [COMMA]. cbn [app].
  rewrite (proj1 (csv_parse_field _ _ _ H1)), (proj1 (csv_parse_field _ _ _ H2)),
    (proj1 (csv_parse_field _ _ _ H3)), (proj1 (csv_parse_field _ _ _ H4)),
    (proj1 (csv_parse_field _ _ _ H5)), (proj1 (csv_parse_field _ _ _ H6)),
    (proj1 (csv_parse_field _ _ _ H7)), (proj2 (csv_parse_field _ _ [] H8)).
  done.
Qed.

Lemma toCsvField_of_opt_encodes (o : option jsstring) :
  csv_encodes (toCsvField (of_opt o)) (trim (replace_crlf_space (default [] o))).
Proof. destruct o as [t|]; [apply (toCsvField_encodes (VStr t))|by right]. Qed.

Lemma csvEscape_of_opt_encodes (o : option jsstring) :
  csv_encodes (csvEscape (of_opt o)) (default [] o).
Proof. destruct o as [t|]; [apply (csvEscape_encodes (VStr t))|by right]. Qed.

(** X1.  A tabular line written by the jokes, satire or fact-watch script
    reads back, field by field, as the eight fields of the record, each
    with its line breaks turned into spaces and its ends trimmed: the
    commas and double quotes of a field never split or merge fields. *)
Theorem csv_line_round_trip_toCsvField (r : Row) :
  csv_read_line (Jokes.csv_fields r)
  = map (fun t => trim (replace_crlf_space t)) (field_texts r)
  /\ csv_read_line (Satire.csv_fields r)
     = map (fun t => trim (replace_crlf_space t)) (field_texts r)
  /\ csv_read_line (FactWatch.csv_fields r)
     = map (fun t => trim (replace_crlf_space t)) (field_texts r).
Proof.
  assert (Hc : csv_encodes
                 (toCsvField match content r with
                             | None => VStr []
                             | Some c => VStr c
                             end)
                 (trim (replace_crlf_space (default [] (content r))))).
  { destruct (content r) as [c|]; [apply (toCsvField_encodes (VStr c))|by right]. }
  split; [|split].
  - unfold Jokes.csv_fields, field_texts. cbn [map].
    apply csv_read_line_eight; try apply toCsvField_of_opt_encodes; [done|].
    apply (toCsvField_encodes (VNum (label r))).
  - unfold Satire.csv_fields, field_texts. cbn [map].
    apply csv_read_line_eight; try apply toCsvField_of_opt_encodes; [done|].
    apply (toCsvField_encodes (VNum (label r))).
  - unfold FactWatch.csv_fields, field_texts. cbn [map].
    apply csv_read_line_eight; try apply toCsvField_of_opt_encodes.
    + apply (toCsvField_encodes (VStr (default [] (content r)))).
    + apply (toCsvField_encodes (VNum (label r))).
Qed.

(** X2.  A tabular line written by earki.js reads back, field by field, as
    the eight fields of the row unchanged ([null] as the empty text), line
    feeds, commas and double quotes included. *)
Theorem csv_line_round_trip_csvEscape (r : Row) :
  csv_read_line (Jachai.csv_fields r) = field_texts r.
Proof.
  unfold Jachai.csv_fields, field_texts.
  apply csv_read_line_eight; try apply csvEscape_of_opt_encodes.
  apply Number_toString_encodes.
Qed.

(** X3.  The body text that [fetchArticleContent] of earki.js returns holds
    no run of three line feeds and no white space at either end; it is the
    empty string, not [null], exactly when the section holds white space
    only, and [null] only when the page has no section. *)
Theorem entry_body_text_clean (innerText : jsstring) :
  Jachai.entry_body_text None = None
  /\ exists r,
       Jachai.entry_body_text (Some innerText) = Some r
       /\ (forall a b, r <> a ++ [LF; LF; LF] ++ b)
       /\ match r with c :: _ => is_ws c = false | [] => True end
       /\ match last r with Some c => is_ws c = false | None => True end
       /\ (r = [] <-> forallb is_ws innerText = true).
Proof.
  split; [done|]. eexists. split; [reflexivity|].
  destruct (trim_spec (squeeze_lf 2 0 innerText)) as ((p & q & Hs & _) & Hh & Hl).
  split; [|split; [done|split; [done|]]].
  - intros a b Hr. rewrite Hr in Hs.
    apply (proj1 (squeeze_lf_spec 2 innerText) (p ++ a) (b ++ q)).
    rewrite Hs, <- !app_assoc. done.
  - by rewrite trim_nil_iff, forallb_is_ws_squeeze.
Qed.

(** X4.  The text that the jokes, satire and fact-watch callbacks make of
    an article body holds no white space next to a line feed, before it or
    after it (so no blank line and no line that starts or ends with white
    space), and no white space at either end. *)
Theorem article_text_clean (s : jsstring) :
  (forall a x y b, article_text s = a ++ x :: y :: b ->
     ~ (is_ws x = true /\ y = LF) /\ ~ (x = LF /\ is_ws y = true))
  /\ match article_text s with c :: _ => is_ws c = false | [] => True end
  /\ match last (article_text s) with Some c => is_ws c = false | None => True end.
Proof.
  destruct (article_text_pairs s) as [H1 H2].
  split.
  - intros a x y b Heq.
    pose proof (proj1 (no_pair_spec _ _) H1 a x y b Heq) as Hb1.
    pose proof (proj1 (no_pair_spec _ _) H2 a x y b Heq) as Hb2.
    unfold ws_then_lf in Hb1. unfold lf_then_ws in Hb2. split.
    + intros [Hx ->]. by rewrite Hx, N.eqb_refl in Hb1.
    + intros [-> Hy]. by rewrite Hy, N.eqb_refl in Hb2.
  - unfold article_text. split; apply trim_spec.
Qed.

Example article_text_ex :
  article_text (js "  a " ++ [LF; LF; LF] ++ js "  b " ++ [LF] ++ js " c" ++ [LF])
  = js "a" ++ [LF] ++ js "b" ++ [LF] ++ js "c".
Proof. reflexivity. Qed.







(** ** The cards of a listing *)

Lemma first_occurrences_app (seen : gset jsstring) (l1 l2 : list jsstring) :
  first_occurrences seen (l1 ++ l2)
  = first_occurrences seen l1
    ++ first_occurrences (list_to_set l1 ∪ seen) l2.
Proof.
  revert seen. induction l1 as [|a l1 IH]; intros seen; cbn [app first_occurrences].
  - f_equal. set_solver.
  - case_bool_decide as Ha.
    + rewrite IH. do 2 f_equal. set_solver.
    + rewrite IH. cbn [app]. do 3 f_equal. set_solver.
Qed.

Lemma Jokes_id_not_empty (url d : jsstring) :
  Jokes.getArticleIdFromUrl url = Some d -> d <> [].
Proof.
  intros Hc.
  destruct (capture_first_match _ _ ahead_slash_or_end_closed _ _ Hc)
    as (pre & post & Hm).
  by apply first_match_run in Hm as [? _].
Qed.

(** X6.  The three collectors of card links return every link of the
    listing once, in the order of first appearance: the result has no
    duplicate and holds exactly the links of the listing, and when the
    listing grows at its end (more cards loaded) the earlier result stays
    as the head of the new one.  In the jokes script every link comes with
    its id, the empty string exactly when the URL has none. *)
Theorem listings_deduplicated (anchors more : list jsstring)
    (fw_anchors : list (option jsstring)) (hrefs : list (option jsstring)) :
  (NoDup (map fst (Jokes.collectLinkObjs anchors))
   /\ (forall url, url ∈ map fst (Jokes.collectLinkObjs anchors) <-> url ∈ anchors)
   /\ (forall url id, (url, id) ∈ Jokes.collectLinkObjs anchors ->
         (id = [] <-> Jokes.getArticleIdFromUrl url = None)
         /\ (id <> [] -> Jokes.getArticleIdFromUrl url = Some id))
   /\ exists new, Jokes.collectLinkObjs (anchors ++ more)
                  = Jokes.collectLinkObjs anchors ++ new)
  /\ (NoDup (FactWatch.collectCardUrlsOnList fw_anchors)
      /\ forall url, url ∈ FactWatch.collectCardUrlsOnList fw_anchors
                     <-> Some url ∈ fw_anchors)
  /\ (NoDup (Satire.collectAllLinks hrefs)
      /\ forall url, url ∈ Satire.collectAllLinks hrefs <->
           exists href, Some href ∈ hrefs /\ href <> []
             /\ url = match strip_prefix (js "http") href with
                      | Some _ => href
                      | None => Satire.BASE ++ href
                      end).
Proof.
  split; [|split].
  - unfold Jokes.collectLinkObjs.
    destruct (first_occurrences_spec ∅ anchors) as [Hnd Hin].
    rewrite map_map. cbn [fst]. rewrite map_id.
    split; [done|]. split; [intros url; rewrite Hin; set_solver|]. split.
    + intros url id (u & [= -> ->] & _)%list_elem_of_fmap.
      destruct (Jokes.getArticleIdFromUrl u) as [d|] eqn:Hd; cbn [default].
      * pose proof (Jokes_id_not_empty _ _ Hd). split; [split; done|done].
      * split; [done|]. intros Hne. by destruct Hne.
    + rewrite first_occurrences_app, map_app. by eexists.
  - unfold FactWatch.collectCardUrlsOnList.
    destruct (first_occurrences_spec ∅ (omap (fun a => a) fw_anchors)) as [Hnd Hin].
    split; [done|]. intros url. rewrite Hin, list_elem_of_omap. split.
    + intros [(o & Ho & ->) _]. done.
    + intros Hu. split; [by exists (Some url)|set_solver].
  - unfold Satire.collectAllLinks.
    match goal with
    | |- context [first_occurrences ∅ ?l] =>
        destruct (first_occurrences_spec ∅ l) as [Hnd Hin]
    end.
    split; [done|]. intros url. rewrite Hin, list_elem_of_omap. split.
    + intros [(o & Ho & Hurl) _]. destruct o as [href|]; cbn [default] in Hurl;
        [|done].
      destruct href as [|c href]; [done|]. cbn [truthy] in Hurl.
      injection Hurl as <-. exists (c :: href). by repeat split.
    + intros (href & Hh & Hne & ->). split; [|set_solver].
      exists (Some href). split; [done|]. cbn [default].
      destruct href as [|c href]; [done|]. done.
Qed.

(** ** The items of a jachai list page *)

(** X7.  [scrapeListPage] of earki.js keeps, in page order, exactly the
    list elements that have a title link with a non-empty [href] and a
    title that is not white space only: every item has a non-empty URL and
    a non-empty headline without white space at either end, which is the
    trimmed title of an element of the page, and such an element always
    gives an item. *)
Theorem scrapeListPage_items (nodes : list Jachai.ListView) :
  (forall it, In it (Jachai.scrapeListPage nodes) ->
     exists el url text,
       In el nodes /\ Jachai.titleA el = Some (url, text)
       /\ Jachai.it_url it = Some url /\ url <> []
       /\ Jachai.it_headline it = Some (trim text) /\ trim text <> []
       /\ match trim text with c :: _ => is_ws c = false | [] => True end
       /\ match last (trim text) with Some c => is_ws c = false | None => True end
       /\ Jachai.it_categoryHref it = Jachai.catA el
       /\ Jachai.it_published_at_raw it = mjoin (Jachai.dateMeta el))
  /\ (forall el url text,
        In el nodes -> Jachai.titleA el = Some (url, text) -> url <> [] ->
        forallb is_ws text = false ->
        exists it, In it (Jachai.scrapeListPage nodes)
                   /\ Jachai.it_url it = Some url
                   /\ Jachai.it_headline it = Some (trim text))
  /\ length (Jachai.scrapeListPage nodes) <= length nodes.
Proof.
  unfold Jachai.scrapeListPage. split; [|split].
  - intros it [Hin Hok]%filter_In. apply in_map_iff in Hin as (el & <- & Hel).
    cbn [Jachai.it_url Jachai.it_headline] in Hok.
    destruct (Jachai.titleA el) as [[url text]|] eqn:Ht; [|done].
    cbn in Hok. apply andb_prop in Hok as [Hu Hh].
    exists el, url, text. cbn.
    destruct (trim_spec text) as (_ & Hhead & Hlast).
    change (truthy (trim text) = true) in Hh.
    split; [done|]. split; [done|]. split; [done|]. split; [by destruct url|].
    split; [done|]. split; [by destruct (trim text)|]. by repeat split.
  - intros el url text Hel Ht Hu Hws.
    eexists. split; [|split; cbn [Jachai.it_url Jachai.it_headline]].
    + apply filter_In. split; [apply in_map_iff; by exists el|].
      cbn [Jachai.it_url Jachai.it_headline]. rewrite Ht. cbn.
      destruct url as [|c url]; [done|]. cbn.
      change (truthy (trim text) = true).
      destruct (trim text) as [|c' t'] eqn:Htrim; [|done].
      apply trim_nil_iff in Htrim. congruence.
    + by rewrite Ht.
    + by rewrite Ht.
  - etrans; [apply List.filter_length_le|]. by rewrite length_map.
Qed.

(** ** The segments of a path *)

Lemma join_cons_cons (sep x y : jsstring) (l : list jsstring) :
  join sep (x :: y :: l) = x ++ sep ++ join sep (y :: l).
Proof. reflexivity. Qed.

Lemma split_spec (s : jsstring) :
  join [SLASH] (split SLASH s) = s
  /\ Forall (fun seg => ~ In SLASH seg) (split SLASH s)
  /\ split SLASH s <> [].
Proof.
  induction s as [|c t (Hj & Hf & Hne)].
  { split; [done|]. split; [|done]. constructor; [by intros []|constructor]. }
  cbn [split]. destruct (N.eqb_spec c SLASH) as [->|Hc].
  - destruct (split SLASH t) as [|seg segs]; [done|].
    rewrite join_cons_cons, Hj. split; [done|]. split; [|done].
    constructor; [by intros []|done].
  - destruct (split SLASH t) as [|seg segs]; [done|].
    apply Forall_cons in Hf as [Hseg Hsegs].
    split; [|split; [|done]].
    + destruct segs as [|seg' segs].
      * cbn in *. by rewrite Hj.
      * rewrite join_cons_cons. rewrite join_cons_cons in Hj. by rewrite <- Hj.
    + constructor; [|done]. intros [E|Hin]; [congruence|done].
Qed.

Lemma last_filter_truthy (l : list jsstring) (seg : jsstring) :
  last (List.filter truthy l) = Some seg ->
  exists l1 l2, l = l1 ++ seg :: l2 /\ seg <> [] /\ Forall (eq []) l2.
Proof.
  induction l as [|x l IH] using rev_ind; [done|].
  rewrite List.filter_app. cbn [List.filter]. destruct x as [|c x]; cbn [truthy].
  - rewrite app_nil_r. intros (l1 & l2 & -> & Hne & Hl2)%IH.
    exists l1, (l2 ++ [[]]). rewrite <- app_assoc. split; [done|]. split; [done|].
    apply Forall_app. split; [done|]. by constructor.
  - rewrite last_snoc. intros [= <-]. exists l, []. by repeat split.
Qed.

Lemma join_app_cons (sep : jsstring) (l1 l2 : list jsstring) (x : jsstring) :
  l1 <> [] ->
  join sep (l1 ++ x :: l2) = join sep l1 ++ sep ++ join sep (x :: l2).
Proof.
  induction l1 as [|y l1 IH]; [done|]. intros _. destruct l1 as [|z l1].
  - done.
  - cbn [app] in *. rewrite !join_cons_cons, IH by done. by rewrite <- !app_assoc.
Qed.

Lemma join_empties (seg : jsstring) (l2 : list jsstring) :
  Forall (eq []) l2 ->
  join [SLASH] (seg :: l2) = seg ++ replicate (length l2) SLASH.
Proof.
  revert seg. induction l2 as [|x l2 IH]; intros seg Hl2.
  - cbn. by rewrite app_nil_r.
  - apply Forall_cons in Hl2 as [<- Hl2].
    rewrite join_cons_cons, (IH [] Hl2). done.
Qed.

Lemma last_segment_spec (path : jsstring) :
  match last (List.filter truthy (split SLASH path)) with
  | Some seg => is_last_segment path seg
  | None => Forall (eq SLASH) path
  end.
Proof.
  destruct (split_spec path) as (Hj & Hf & _).
  destruct (last _) as [seg|] eqn:Hl.
  - apply last_filter_truthy in Hl as (l1 & l2 & Hs & Hne & Hl2).
    rewrite Hs in Hj, Hf. split; [done|]. split.
    + rewrite Forall_app, Forall_cons in Hf. tauto.
    + destruct l1 as [|x l1].
      * exists [], (replicate (length l2) SLASH). cbn [app] in *.
        rewrite <- Hj, join_empties by done.
        split; [done|]. split; [|by left]. apply Forall_forall.
        by intros c [-> _]%elem_of_replicate.
      * exists (join [SLASH] (x :: l1) ++ [SLASH]), (replicate (length l2) SLASH).
        rewrite <- Hj, join_app_cons by done.
        rewrite (join_empties seg l2) by done.
        split; [by rewrite <- !app_assoc|]. split.
        -- apply Forall_forall. by intros c [-> _]%elem_of_replicate.
        -- right. by rewrite last_snoc.
  - apply last_None in Hl. by apply filter_split_nil.
Qed.

(** X8.  [slugFromUrl] (fact-watch) returns the last non-empty segment of
    the path of the URL: a text without slash, followed in the path by
    slashes only; and the empty string when there is none or the URL is
    malformed.  [categoryFromSlug] (earki.js) returns the last non-empty
    segment of the path of the category link in the same way, and [null]
    when the link is missing or empty, malformed, or without segment. *)
Theorem last_path_segment `{Platform} (url : jsstring) (href : option jsstring) :
  match new_URL url with
  | Some u =>
      (FactWatch.slugFromUrl url = [] /\ Forall (eq SLASH) (pathname u))
      \/ is_last_segment (pathname u) (FactWatch.slugFromUrl url)
  | None => FactWatch.slugFromUrl url = []
  end
  /\ match Jachai.categoryFromSlug href with
     | Some seg =>
         exists h u, href = Some h /\ new_URL h = Some u
                     /\ is_last_segment (pathname u) seg
     | None =>
         href = None \/ href = Some []
         \/ exists h, href = Some h
                      /\ (new_URL h = None
                          \/ exists u, new_URL h = Some u
                                       /\ Forall (eq SLASH) (pathname u))
     end.
Proof.
  split.
  - unfold FactWatch.slugFromUrl. destruct (new_URL url) as [u|]; [|done].
    pose proof (last_segment_spec (pathname u)) as Hseg. unfold last_or.
    destruct (last _) as [seg|]; [|by left].
    pose proof Hseg as (Hne & _). destruct seg as [|c seg]; [done|]. by right.
  - unfold Jachai.categoryFromSlug. destruct href as [h|]; [|by left].
    destruct h as [|c h]; [right; by left|]. cbn [truthy].
    destruct (new_URL (c :: h)) as [u|] eqn:Hu.
    + pose proof (last_segment_spec (pathname u)) as Hseg. unfold last_or.
      destruct (last _) as [seg|].
      * pose proof Hseg as (Hne & _). destruct seg as [|c' seg]; [done|].
        cbn [truthy]. by exists (c :: h), u.
      * right; right. exists (c :: h). split; [done|]. right. by exists u.
    + right; right. exists (c :: h). split; [done|]. by left.
Qed.

(** ** What a run leaves in the files *)

Lemma append_all_snoc (append : Row -> FS -> FS) (rows : list Row) (r : Row)
    (fs : FS) :
  append_all append (rows ++ [r]) fs = append r (append_all append rows fs).
Proof. unfold append_all. by rewrite foldl_app. Qed.

Lemma append_all_app (append : Row -> FS -> FS) (l1 l2 : list Row) (fs : FS) :
  append_all append (l1 ++ l2) fs = append_all append l2 (append_all append l1 fs).
Proof. unfold append_all. by rewrite foldl_app. Qed.

Section jachai_files.
Context `{Platform} (site : Jachai.Site).

Lemma Jachai_each_item_files (pnum : nat) (items : list Jachai.Item)
    (st st' : Jachai.Run) (b : bool) :
  Jachai.each_item site pnum items st = (st', b) ->
  exists rows,
    Jachai.saved st' = Jachai.saved st ++ map (pair pnum) rows
    /\ Jachai.total st' = Jachai.total st + length rows
    /\ Jachai.files st' = append_all Jachai.appendRow rows (Jachai.files st).
Proof.
  revert st. induction items as [|it rest IH]; intros st; cbn [Jachai.each_item].
  - intros [= <- <-]. exists []. cbn. by rewrite app_nil_r, Nat.add_0_r.
  - destruct (Jachai.it_url it) as [url|].
    + destruct (Jachai.fetchArticleContent site _ url) as [|text].
      * intros [= <- <-]. exists []. cbn. by rewrite app_nil_r, Nat.add_0_r.
      * intros (rows & Hs & Ht & Hf)%IH. cbn in Hs, Ht, Hf.
        exists (Jachai.row it url text :: rows).
        rewrite Hs, Ht, Hf, <- app_assoc. cbn. split; [done|]. split; [lia|done].
    + intros [= <- <-]. exists []. cbn. by rewrite app_nil_r, Nat.add_0_r.
Qed.

Lemma Jachai_pages_files (fuel pnum : nat) (st : Jachai.Run) :
  exists l,
    Jachai.saved (Jachai.pages site fuel pnum st) = Jachai.saved st ++ l
    /\ Jachai.total (Jachai.pages site fuel pnum st) = Jachai.total st + length l
    /\ Jachai.files (Jachai.pages site fuel pnum st)
       = append_all Jachai.appendRow (map snd l) (Jachai.files st).
Proof.
  revert pnum st. induction fuel as [|fuel IH]; intros pnum st;
    cbn [Jachai.pages].
  { exists []. cbn. by rewrite app_nil_r, Nat.add_0_r. }
  assert (Hstop : forall st0 : Jachai.Run,
    Jachai.saved st0 = Jachai.saved st -> Jachai.total st0 = Jachai.total st ->
    Jachai.files st0 = Jachai.files st ->
    exists l, Jachai.saved st0 = Jachai.saved st ++ l
              /\ Jachai.total st0 = Jachai.total st + length l
              /\ Jachai.files st0
                 = append_all Jachai.appendRow (map snd l) (Jachai.files st)).
  { intros st0 Hs Ht Hf. exists []. cbn. by rewrite app_nil_r, Nat.add_0_r. }
  destruct (Jachai.goto site pnum) as [|status nodes]; [by apply Hstop|].
  destruct (400 <=? default 0%N status)%N; [by apply Hstop|].
  destruct nodes as [|node nodes]; [by apply Hstop|].
  destruct (Jachai.each_item _ _ _ _) as [st' b] eqn:Hitems.
  apply Jachai_each_item_files in Hitems as (rows & Hs & Ht & Hf).
  cbn in Hs, Ht, Hf.
  assert (Hsnd : map snd (map (pair pnum) rows) = rows).
  { rewrite map_map. cbn. apply map_id. }
  destruct b.
  - exists (map (pair pnum) rows). rewrite Hsnd, length_map. done.
  - destruct (IH (S pnum) st') as (l & Hs' & Ht' & Hf').
    exists (map (pair pnum) rows ++ l).
    rewrite Hs', Ht', Hf', Hs, Ht, Hf, map_app, Hsnd, append_all_app, length_app,
      length_map, <- app_assoc.
    split; [done|]. split; [lia|done].
Qed.


End jachai_files.

(** X9.  When a run of earki.js ends, its files are the files left by
    [ensureOutputs] with the rows of the log appended in order, the counter
    [total] that the script prints is the number of rows appended and the
    number of lines of the structured file, and the list pages requested
    are consecutive from the first, never past the last. *)
Theorem Jachai_run_accounting `{Platform} (site : Jachai.Site)
    (first last : nat) (fs : FS) :
  Jachai.total (Jachai.crawl site first last fs)
  = length (Jachai.saved (Jachai.crawl site first last fs))
  /\ Jachai.files (Jachai.crawl site first last fs)
     = append_all Jachai.appendRow
         (map snd (Jachai.saved (Jachai.crawl site first last fs)))
         (Jachai.ensureOutputs fs)
  /\ lines (read Jachai.OUT_JSONL (Jachai.files (Jachai.crawl site first last fs)))
     = Jachai.total (Jachai.crawl site first last fs)
  /\ exists m, m <= S last - first
               /\ Jachai.visited (Jachai.crawl site first last fs) = seq first m.
Proof.
  unfold Jachai.crawl.
  set (st0 := {| Jachai.files := Jachai.ensureOutputs fs; Jachai.total := 0;
                 Jachai.visited := []; Jachai.saved := [] |}).
  destruct (Jachai_pages_files site (S last - first) first st0)
    as (l & Hs & Ht & Hf).
  cbn [Jachai.saved Jachai.total Jachai.files st0 app] in Hs, Ht, Hf.
  rewrite Hs, Ht, Hf. split; [done|]. split; [done|]. split.
  - destruct (append_all_lines _ _ _ _ Jachai_appendRow_reads (map snd l)
                (Jachai.ensureOutputs fs)) as [Hj _].
    rewrite Hj, length_map. unfold read at 1.
    by rewrite (proj1 (Jachai_ensureOutputs_shape fs)).
  - destruct (Jachai_pages_log site (S last - first) first st0)
      as (m & ls & Hm & Hv & _). exists m. by rewrite Hv.
Qed.



Section factwatch_files.
Context `{Platform} (site : FactWatch.Site).

Lemma FactWatch_write_results_files (pageNum : nat)
    (results : list (option Row)) (st : FactWatch.Run) :
  FactWatch.total (FactWatch.write_results pageNum results st)
  = FactWatch.total st + length (omap (fun r => r) results)
  /\ FactWatch.files (FactWatch.write_results pageNum results st)
     = append_all FactWatch.writeRecord (omap (fun r => r) results)
         (FactWatch.files st).
Proof.
  revert st. induction results as [|[r|] results IH]; intros st;
    cbn [FactWatch.write_results].
  - cbn. split; [lia|done].
  - destruct (IH {| FactWatch.files := FactWatch.writeRecord r (FactWatch.files st);
                    FactWatch.total := S (FactWatch.total st);
                    FactWatch.visited := FactWatch.visited st;
                    FactWatch.saved := FactWatch.saved st ++ [(pageNum, r)] |})
      as [Ht Hf].
    rewrite Ht, Hf.
    change (omap (fun r => r) (Some r :: results))
      with (r :: omap (fun r => r) results).
    cbn [FactWatch.total FactWatch.files length append_all].
    split; [lia|done].
  - apply IH.
Qed.

(** The sources written for one page follow the links of the page. *)
Lemma FactWatch_page_sources (g : nat -> jsstring -> FactWatch.Post)
    (urls : list jsstring) :
  sublist
    (map source
       (omap (fun r => r)
          (imap (fun i u => FactWatch.scrapeSinglePost u (g i u)) urls)))
    (map Some urls).
Proof.
  revert g. induction urls as [|u urls IH]; intros g; [done|].
  rewrite imap_cons. cbn [omap map].
  destruct (FactWatch.scrapeSinglePost u (g 0 u)) as [r|] eqn:Hr.
  - cbn [map]. unfold FactWatch.scrapeSinglePost in Hr.
    destruct (g 0 u); [done..|]. injection Hr as <-. cbn [source].
    apply sublist_skip, (IH (g ∘ S)).
  - apply sublist_cons, (IH (g ∘ S)).
Qed.

Lemma FactWatch_scrapeListPage_files (pageNum : nat) (st : FactWatch.Run) :
  exists rows,
    FactWatch.saved (FactWatch.scrapeListPage site pageNum st)
    = FactWatch.saved st ++ map (pair pageNum) rows
    /\ FactWatch.total (FactWatch.scrapeListPage site pageNum st)
       = FactWatch.total st + length rows
    /\ FactWatch.files (FactWatch.scrapeListPage site pageNum st)
       = append_all FactWatch.writeRecord rows (FactWatch.files st)
    /\ NoDup (map source rows).
Proof.
  unfold FactWatch.scrapeListPage.
  assert (Hnone : exists rows : list Row,
    FactWatch.saved st = FactWatch.saved st ++ map (pair pageNum) rows
    /\ FactWatch.total st = FactWatch.total st + length rows
    /\ FactWatch.files st = append_all FactWatch.writeRecord rows (FactWatch.files st)
    /\ NoDup (map source rows)).
  { exists []. cbn. rewrite app_nil_r, Nat.add_0_r. repeat split. constructor. }
  destruct (FactWatch.list_page site pageNum) as [anchors|]; [|done].
  destruct (FactWatch.collectCardUrlsOnList anchors) as [|u0 urls] eqn:Hurls;
    [done|].
  match goal with
  | |- context [FactWatch.write_results _ ?res ?s] =>
      destruct (FactWatch_write_results_log pageNum res s) as [_ Hs];
      destruct (FactWatch_write_results_files pageNum res s) as [Ht Hf];
      exists (omap (fun x => x) res)
  end.
  rewrite Hs, Ht, Hf. split; [done|]. split; [done|]. split; [done|].
  eapply sublist_NoDup;
    [|apply (FactWatch_page_sources (FactWatch.post site pageNum))].
  apply (NoDup_fmap_2 Some). rewrite <- Hurls.
  apply first_occurrences_spec.
Qed.

Lemma FactWatch_pages_files (fuel p : nat) (st : FactWatch.Run) (n : nat) :
  (forall e, In e (FactWatch.saved st) -> e.1 < p) ->
  NoDup (map (fun e => source e.2)
           (List.filter (fun e => e.1 =? n) (FactWatch.saved st))) ->
  (exists l,
     FactWatch.saved (FactWatch.pages site fuel p st) = FactWatch.saved st ++ l
     /\ FactWatch.total (FactWatch.pages site fuel p st)
        = FactWatch.total st + length l
     /\ FactWatch.files (FactWatch.pages site fuel p st)
        = append_all FactWatch.writeRecord (map snd l) (FactWatch.files st))
  /\ NoDup (map (fun e => source e.2)
              (List.filter (fun e => e.1 =? n)
                 (FactWatch.saved (FactWatch.pages site fuel p st)))).
Proof.
  revert p st. induction fuel as [|fuel IH]; intros p st Hlt Hnd;
    cbn [FactWatch.pages].
  { split; [|done]. exists []. cbn. by rewrite app_nil_r, Nat.add_0_r. }
  destruct (FactWatch_scrapeListPage_files p st) as (rows & Hs & Ht & Hf & Hrows).
  assert (Hsnd : map snd (map (pair p) rows) = rows).
  { rewrite map_map. cbn. apply map_id. }
  destruct (IH (S p) (FactWatch.scrapeListPage site p st)) as [(l & Hs' & Ht' & Hf') Hnd'].
  - intros e. rewrite Hs, in_app_iff, in_map_iff.
    intros [He|(r & <- & _)]; [apply Hlt in He; lia|cbn; lia].
  - rewrite Hs, List.filter_app, map_app.
    destruct (decide (n = p)) as [->|Hne].
    + assert (Hold : List.filter (fun e : nat * Row => e.1 =? p) (FactWatch.saved st) = []).
      { apply filter_none. intros e He. apply Nat.eqb_neq.
        apply Hlt in He. lia. }
      assert (Hnew : List.filter (fun e : nat * Row => e.1 =? p) (map (pair p) rows)
                     = map (pair p) rows).
      { apply filter_all.
        intros e (r & <- & _)%in_map_iff. apply Nat.eqb_refl. }
      rewrite Hold, Hnew, map_map. cbn [app]. by rewrite (map_ext _ source).
    + assert (Hnew : List.filter (fun e : nat * Row => e.1 =? n) (map (pair p) rows) = []).
      { apply filter_none. intros e (r & <- & _)%in_map_iff.
        apply Nat.eqb_neq. cbn. lia. }
      by rewrite Hnew, app_nil_r.
  - split; [|done]. exists (map (pair p) rows ++ l).
    rewrite Hs', Ht', Hf', Hs, Ht, Hf, map_app, Hsnd, append_all_app, length_app,
      length_map, <- app_assoc.
    split; [done|]. split; [lia|done].
Qed.
End factwatch_files.

(** X11.  When a run of the fact-watch script ends, its files are the files
    left by [ensureOut] with the records of the log appended in order, and
    the total that the script prints is the number of records appended.
    Within one list page no source is written twice (the same source may
    come again from another page). *)
Theorem FactWatch_run_accounting `{Platform} (site : FactWatch.Site)
    (first last n : nat) (fs : FS) :
  FactWatch.total (FactWatch.crawl site first last fs)
  = length (FactWatch.saved (FactWatch.crawl site first last fs))
  /\ FactWatch.files (FactWatch.crawl site first last fs)
     = append_all FactWatch.writeRecord
         (map snd (FactWatch.saved (FactWatch.crawl site first last fs)))
         (FactWatch.ensureOut fs)
  /\ NoDup (map (fun e => source e.2)
              (List.filter (fun e => e.1 =? n)
                 (FactWatch.saved (FactWatch.crawl site first last fs)))).
Proof.
  unfold FactWatch.crawl.
  destruct (FactWatch_pages_files site (S last - first) first
              {| FactWatch.files := FactWatch.ensureOut fs; FactWatch.total := 0;
                 FactWatch.visited := []; FactWatch.saved := [] |} n)
    as [(l & Hs & Ht & Hf) Hnd]; [done|constructor|].
  cbn [FactWatch.saved FactWatch.total FactWatch.files app] in Hs, Ht, Hf.
  split; [by rewrite Ht, Hs|]. split; [by rewrite Hf, Hs|done].
Qed.

(** ** The books of the jokes and satire scripts *)

Section jokes_books.
Context (site : Jokes.Site) (fs : FS).

Lemma Jokes_each_new_books (k : nat) (newOnes : list (jsstring * jsstring))
    (st : Jokes.Run) :
  (forall url id, (url, id) ∈ newOnes ->
                  Jokes.getArticleIdFromUrl url = Some id) ->
  Jokes_books fs st ->
  Jokes_books fs (Jokes.each_new site k newOnes st)
  /\ Jokes.scans (Jokes.each_new site k newOnes st) = Jokes.scans st
  /\ Jokes.clicks (Jokes.each_new site k newOnes st) = Jokes.clicks st.
Proof.
  revert st. induction newOnes as [|[url id] rest IH]; intros st Hids Hb;
    cbn [Jokes.each_new]; [done|].
  assert (Hid : Jokes.getArticleIdFromUrl url = Some id) by (apply Hids; left).
  assert (Hrest : forall u i, (u, i) ∈ rest ->
                              Jokes.getArticleIdFromUrl u = Some i).
  { intros u i Hu. apply Hids. by right. }
  destruct Hb as [Ht Hf Hs Hseen]. unfold Jokes.scrapeOneArticle.
  destruct (Jokes.article site _ url) as [x|];
    cbn [fmap option_fmap option_map].
  - match goal with
    | |- context [Jokes.each_new site k rest ?s] =>
        destruct (IH s Hrest) as (Hb' & Hsc & Hcl); [|done]
    end.
    constructor;
      cbn [Jokes.totalSaved Jokes.saved Jokes.files Jokes.dispatched
           Jokes.seenIds].
    + rewrite length_app. cbn [length]. lia.
    + by rewrite append_all_snoc, Hf.
    + rewrite map_app, List.filter_app, map_app, Hs. done.
    + intros d. rewrite elem_of_union, elem_of_singleton, Hseen. split.
      * intros [->|(v & Hv & Hsv & Hd)].
        -- eexists. split; [apply elem_of_app; right; apply list_elem_of_singleton; done|].
           done.
        -- exists v. split; [apply elem_of_app; by left|done].
      * intros (v & [Hv| ->%list_elem_of_singleton]%elem_of_app & Hsv & Hd).
        -- right. by exists v.
        -- left. cbn [Jokes.v_url] in Hd. congruence.
  - match goal with
    | |- context [Jokes.each_new site k rest ?s] =>
        destruct (IH s Hrest) as (Hb' & Hsc & Hcl); [|done]
    end.
    constructor;
      cbn [Jokes.totalSaved Jokes.saved Jokes.files Jokes.dispatched
           Jokes.seenIds]; [done|done|..].
    + rewrite List.filter_app. cbn [List.filter Jokes.v_saved].
      by rewrite app_nil_r.
    + intros d. rewrite Hseen. split.
      * intros (v & Hv & Hsv & Hd). exists v.
        split; [apply elem_of_app; by left|done].
      * intros (v & [Hv| ->%list_elem_of_singleton]%elem_of_app & Hsv & Hd);
          [by exists v|done].
Qed.

Lemma Jokes_processNewCardsOnList_books (st : Jokes.Run) :
  Jokes_books fs st ->
  Jokes_books fs (Jokes.state_of (Jokes.processNewCardsOnList site st))
  /\ Jokes.scans (Jokes.state_of (Jokes.processNewCardsOnList site st))
     = S (Jokes.scans st)
  /\ Jokes.clicks (Jokes.state_of (Jokes.processNewCardsOnList site st))
     = Jokes.clicks st
  /\ (forall st', Jokes.processNewCardsOnList site st = Jokes.Finished st' ->
                  Jokes.cards site (Jokes.scans st) <> None).
Proof.
  intros Hb. unfold Jokes.processNewCardsOnList.
  set (st0 := {| Jokes.files := Jokes.files st; Jokes.seenIds := Jokes.seenIds st;
                 Jokes.totalSaved := Jokes.totalSaved st;
                 Jokes.clicks := Jokes.clicks st; Jokes.scans := S (Jokes.scans st);
                 Jokes.dispatched := Jokes.dispatched st;
                 Jokes.saved := Jokes.saved st |}).
  assert (Hb0 : Jokes_books fs st0) by (destruct Hb; by constructor).
  destruct (Jokes.cards site (Jokes.scans st)) as [anchors|]; [|done].
  cbn [Jokes.state_of].
  destruct (Jokes_each_new_books (Jokes.scans st)
              (Jokes.newOnes_of (Jokes.seenIds st0) (Jokes.collectLinkObjs anchors))
              st0) as (Hb' & Hsc & Hcl); [|done|].
  { intros url id Ho.
    by apply (Jokes_newOnes_spec (Jokes.seenIds st0) anchors) in Ho as (_ & Ho & _). }
  split; [done|]. split; [done|]. split; [done|]. done.
Qed.

Lemma Jokes_clicking_books (max_clicks fuel : nat) (st : Jokes.Run) :
  Jokes_books fs st ->
  Jokes.opens site = true ->
  Jokes.clicks st < Nat.max 1 max_clicks ->
  Jokes.scans st <= S (Jokes.clicks st) ->
  (forall k, k < Jokes.scans st -> Jokes.cards site k <> None) ->
  (forall k, k < Jokes.clicks st -> Jokes.poll site k <> None) ->
  Jokes_books fs (Jokes.state_of (Jokes.clicking site max_clicks fuel st))
  /\ Jokes_ending site max_clicks (Jokes.clicking site max_clicks fuel st).
Proof.
  revert st. induction fuel as [|fuel IH]; intros st Hb Hopen Hcl Hsc Hcards Hpolls;
    cbn [Jokes.clicking].
  { split; [done|]. split; cbn [Jokes.state_of]; [lia|done]. }
  destruct (Jokes.poll site (Jokes.clicks st)) as [seen|] eqn:Hpoll;
    [|split; [done|]; split; cbn [Jokes.state_of]; lia].
  destruct (Jokes.noMore seen);
    [split; [done|]; split; cbn [Jokes.state_of]; [lia|done]|].
  destruct (Jokes.button seen) as [visible|];
    [|split; [done|]; split; cbn [Jokes.state_of]; [lia|done]].
  assert (Hpolls' : forall k, k < S (Jokes.clicks st) -> Jokes.poll site k <> None).
  { intros k Hk. destruct (decide (k = Jokes.clicks st)) as [->|Hne];
      [by rewrite Hpoll|apply Hpolls; lia]. }
  destruct visible.
  - destruct (Jokes_processNewCardsOnList_books st Hb) as (Hb' & Hsc' & Hcl' & Hfound).
    destruct (Jokes.processNewCardsOnList site st) as [st'|st'];
      cbn [Jokes.state_of] in Hb', Hsc', Hcl'.
    + assert (Hb1 : Jokes_books fs (Jokes.count_click st'))
        by (destruct Hb'; by constructor).
      assert (Hcards' : forall k, k < Jokes.scans st' -> Jokes.cards site k <> None).
      { intros k Hk. destruct (decide (k = Jokes.scans st)) as [->|Hne];
          [by eapply Hfound|apply Hcards; lia]. }
      destruct (Nat.leb_spec max_clicks (Jokes.clicks (Jokes.count_click st')))
        as [Hle|Hlt].
      * split; [done|].
        split; cbn [Jokes.state_of Jokes.count_click Jokes.clicks Jokes.scans];
          [lia|]. rewrite Hcl'. split; [lia|done].
      * apply IH; [done..| | | |];
          cbn [Jokes.count_click Jokes.clicks Jokes.scans] in *;
          rewrite ?Hcl'; done || lia.
    + split; [done|]. split; cbn [Jokes.state_of]; lia.
  - assert (Hb1 : Jokes_books fs (Jokes.count_click st))
      by (destruct Hb; by constructor).
    destruct (Nat.leb_spec max_clicks (Jokes.clicks (Jokes.count_click st)))
      as [Hle|Hlt].
    + split; [done|].
      split; cbn [Jokes.state_of Jokes.count_click Jokes.clicks Jokes.scans];
        [lia|]. split; [lia|done].
    + apply IH; [done..| | | |];
        cbn [Jokes.count_click Jokes.clicks Jokes.scans] in *; done || lia.
Qed.

Lemma Jokes_run_books (max_clicks : nat) :
  Jokes_books fs (Jokes.state_of (Jokes.run site max_clicks fs))
  /\ Jokes_ending site max_clicks (Jokes.run site max_clicks fs).
Proof.
  unfold Jokes.run.
  set (st := {| Jokes.files := Jokes.ensureOut fs; Jokes.seenIds := ∅;
                Jokes.totalSaved := 0; Jokes.clicks := 0; Jokes.scans := 0;
                Jokes.dispatched := []; Jokes.saved := [] |}).
  assert (Hb : Jokes_books fs st).
  { constructor; cbn; [done..|]. intros d. split; [set_solver|].
    intros (v & Hv & _). by apply elem_of_nil in Hv. }
  destruct (Jokes.opens site) eqn:Hopen.
  - destruct (Jokes_processNewCardsOnList_books st Hb) as (Hb' & Hsc' & Hcl' & Hfound).
    destruct (Jokes.processNewCardsOnList site st) as [st'|st'];
      cbn [Jokes.state_of] in Hb', Hsc', Hcl'.
    + apply Jokes_clicking_books; [done|done|cbn in *; lia|cbn in *; lia| |].
      * intros k Hk. rewrite Hsc' in Hk. cbn in Hk.
        assert (k = 0) as -> by lia. by eapply Hfound.
      * intros k Hk. rewrite Hcl' in Hk. cbn in Hk. lia.
    + split; [done|]. split; cbn [Jokes.state_of]; cbn in *; lia.
  - split; [done|]. split; cbn; lia.
Qed.
End jokes_books.

(** X12.  The books of earki2_jokes.js at the end of a run: [totalSaved],
    which the script prints, is the number of records written; the files
    are those left by [ensureOut] with the records appended in the order of
    the visits that wrote them; and [seenIds] holds exactly the ids of the
    URLs whose visit wrote a record, so that a failed visit leaves its id
    out and the URL is tried again at the next reading of the list. *)
Theorem Jokes_run_accounting (site : Jokes.Site) (max_clicks : nat) (fs : FS) :
  let st := Jokes.state_of (Jokes.run site max_clicks fs) in
  Jokes.totalSaved st = length (Jokes.saved st)
  /\ Jokes.files st
     = append_all Jokes.writeRecord (Jokes.saved st) (Jokes.ensureOut fs)
  /\ map source (Jokes.saved st)
     = map (fun v => Some (Jokes.v_url v))
         (List.filter Jokes.v_saved (Jokes.dispatched st))
  /\ forall d,
       d ∈ Jokes.seenIds st <->
       exists v, v ∈ Jokes.dispatched st /\ Jokes.v_saved v = true
                 /\ Jokes.getArticleIdFromUrl (Jokes.v_url v) = Some d.
Proof.
  cbn zeta. destruct (Jokes_run_books site fs max_clicks) as [[Ht Hf Hs Hseen] _].
  done.
Qed.


Lemma Satire_each_link_books (site : Satire.Site) (k : nat)
    (links : list jsstring) (st : Satire.Run) :
  exists rows,
    Satire.saved (Satire.each_link site k links st) = Satire.saved st ++ rows
    /\ Satire.processed (Satire.each_link site k links st)
       = Satire.processed st + length rows
    /\ Satire.files (Satire.each_link site k links st)
       = append_all Satire.append rows (Satire.files st)
    /\ sublist (map source rows) (map Some links).
Proof.
  revert k st. induction links as [|url rest IH]; intros k st;
    cbn [Satire.each_link].
  { exists []. cbn. by rewrite app_nil_r, Nat.add_0_r. }
  destruct (Satire.article site k url) as [x|].
  - match goal with
    | |- context [Satire.each_link site (S k) rest ?s] =>
        destruct (IH (S k) s) as (rows & Hs & Hp & Hf & Hsub)
    end.
    cbn [Satire.saved Satire.processed Satire.files] in Hs, Hp, Hf.
    exists (Satire.record url x :: rows).
    rewrite Hs, Hp, Hf, <- app_assoc. cbn [app length map append_all foldl].
    split; [done|]. split; [lia|]. split; [done|].
    unfold Satire.record at 1. cbn [source]. by apply sublist_skip.
  - destruct (IH (S k) st) as (rows & Hs & Hp & Hf & Hsub).
    exists rows. split; [done|]. split; [done|]. split; [done|].
    by apply sublist_cons.
Qed.

(** X14.  The books of earki_satire_scraper.js at the end of a run:
    [processed], which the script prints, is the number of records written;
    the files are those left by [ensureOut] with the records appended in
    order; and the sources of the records follow the collected links in
    their order, so that no source is written twice and there are no more
    records than links. *)
Theorem Satire_run_accounting (site : Satire.Site) (fs : FS) :
  let st := Satire.main site fs in
  Satire.processed st = length (Satire.saved st)
  /\ Satire.files st
     = append_all Satire.append (Satire.saved st) (Satire.ensureOut fs)
  /\ sublist (map source (Satire.saved st))
       (map Some (Satire.collectAllLinks (Satire.hrefs site)))
  /\ NoDup (map source (Satire.saved st))
  /\ length (Satire.saved st)
     <= length (Satire.collectAllLinks (Satire.hrefs site)).
Proof.
  cbn zeta. unfold Satire.main.
  destruct (Satire_each_link_books site 0 (Satire.collectAllLinks (Satire.hrefs site))
              {| Satire.files := Satire.ensureOut fs; Satire.processed := 0;
                 Satire.saved := [] |}) as (rows & Hs & Hp & Hf & Hsub).
  cbn [Satire.saved Satire.processed Satire.files app] in Hs, Hp, Hf.
  rewrite Hs, Hp, Hf. split; [done|]. split; [done|]. split; [done|]. split.
  - eapply sublist_NoDup; [|exact Hsub]. apply (NoDup_fmap_2 Some).
    apply first_occurrences_spec.
  - apply sublist_length in Hsub. by rewrite !length_map in Hsub.
Qed.

(** ** Reading the JSONL line back *)

Lemma strip_prefix_app (lit s : jsstring) : strip_prefix lit (lit ++ s) = Some s.
Proof. by apply strip_prefix_Some. Qed.

Lemma json_scan_plain (c : N) (t : jsstring) :
  c <> DQUOTE -> c <> BACKSLASH ->
  json_scan (c :: t) = (fun p => (c :: p.1, p.2)) <$> json_scan t.
Proof.
  intros Hq Hb. cbn [json_scan].
  destruct (N.eqb_spec c DQUOTE); [done|]. by destruct (N.eqb_spec c BACKSLASH).
Qed.

Lemma json_scan_pair (e : N) (t : jsstring) :
  json_scan (BACKSLASH :: e :: t)
  = (fun p => (BACKSLASH :: e :: p.1, p.2)) <$> json_scan t.
Proof. reflexivity. Qed.

Lemma hexdigit_plain (n : N) :
  (n < 16)%N -> hexdigit n <> DQUOTE /\ hexdigit n <> BACKSLASH.
Proof.
  intros Hn. unfold hexdigit, DQUOTE, BACKSLASH.
  destruct (N.ltb_spec n 10); lia.
Qed.

Lemma json_scan_unicode_escape (c : N) (t : jsstring) :
  json_scan (unicode_escape c ++ t)
  = (fun p => (unicode_escape c ++ p.1, p.2)) <$> json_scan t.
Proof.
  unfold unicode_escape. cbn [app]. rewrite json_scan_pair.
  assert (Hm : forall x, (x mod 16 < 16)%N) by (intros x; by apply N.mod_lt).
  destruct (hexdigit_plain _ (Hm (c / 4096)%N)) as [? ?].
  destruct (hexdigit_plain _ (Hm (c / 256)%N)) as [? ?].
  destruct (hexdigit_plain _ (Hm (c / 16)%N)) as [? ?].
  destruct (hexdigit_plain _ (Hm c)) as [? ?].
  rewrite !json_scan_plain by done.
  by destruct (json_scan t) as [[a b]|].
Qed.

(** The body that [json_units] writes holds no quote that ends the token. *)
Lemma json_scan_units (s rest : jsstring) :
  json_scan (json_units s ++ DQUOTE :: rest) = Some (json_units s, rest).
Proof.
  remember (length s) as n eqn:Hn. revert s Hn.
  induction n as [n IH] using lt_wf_ind. intros s ->.
  destruct s as [|c t]; [by cbn; rewrite N.eqb_refl|].
  assert (IHt : json_scan (json_units t ++ DQUOTE :: rest)
                = Some (json_units t, rest))
    by (eapply IH; [|done]; simpl; lia).
  rewrite json_units_cons. unfold is_high_surrogate, is_low_surrogate.
  repeat case_match; N_props; subst;
    rewrite <- ?app_assoc, <- ?app_comm_cons;
    rewrite ?json_scan_unicode_escape, ?json_scan_pair;
    rewrite ?IHt; try done.
  - rewrite !json_scan_plain by (unfold DQUOTE, BACKSLASH in *; lia).
    erewrite IH; [done| |done]. simpl; lia.
  - rewrite json_scan_plain by (unfold DQUOTE, BACKSLASH in *; lia). by rewrite IHt.
  - rewrite json_scan_plain by (unfold DQUOTE, BACKSLASH in *; lia). by rewrite IHt.
  - rewrite json_scan_plain by (unfold DQUOTE, BACKSLASH in *; lia). by rewrite IHt.
  - rewrite json_scan_plain by (unfold DQUOTE, BACKSLASH in *; lia). by rewrite IHt.
Qed.

Lemma json_take_string_spec (v : option jsstring) (rest : jsstring) :
  json_take_string (JSON_string v ++ rest) = Some (v, rest).
Proof.
  destruct v as [s|]; unfold json_take_string, JSON_string.
  - unfold in_quotes. rewrite <- !app_assoc. cbn [app strip_prefix js map
      list_ascii_of_string N_of_ascii].
    change (N_of_ascii "n" =? DQUOTE)%N with false. cbn iota.
    rewrite N.eqb_refl, json_scan_units. cbn. by rewrite json_read_units.
  - by rewrite strip_prefix_app.
Qed.

Lemma units_uint_units (d : Decimal.uint) : units_uint (uint_units d) = d.
Proof. induction d; [done|cbn [uint_units units_uint]; by rewrite IHd..]. Qed.

Lemma uint_units_not_nil (n : N) : Number_toString n <> [].
Proof.
  unfold Number_toString. intros Hnil.
  pose proof (DecimalN.Unsigned.of_to n) as Hn.
  pose proof (DecimalN.Unsigned.of_to 0) as H0.
  destruct (N.to_uint n) eqn:Hd; try done.
  destruct n as [|p]; [done|]. cbn in Hd. unfold Pos.to_uint in Hd.
  pose proof (DecimalPos.Unsigned.to_uint_nonnil p). done.
Qed.

Lemma json_take_number_spec (n : N) (c : N) (rest : jsstring) :
  is_digit c = false ->
  json_take_number (Number_toString n ++ c :: rest) = Some (n, c :: rest).
Proof.
  intros Hc. unfold json_take_number.
  rewrite span_digits_app by apply uint_units_digits.
  cbn [span_digits]. rewrite Hc. cbn [fst snd]. rewrite app_nil_r.
  pose proof (uint_units_not_nil n) as Hnil.
  destruct (Number_toString n) as [|d ds] eqn:Hds; [done|].
  rewrite <- Hds. unfold Number_toString.
  by rewrite units_uint_units, DecimalN.Unsigned.of_to.
Qed.

Lemma json_member_at_spec (before key : string) (v : option jsstring)
    (rest : jsstring) :
  json_member_at json_take_string before key
    (js before ++ in_quotes (js key) ++ js ":" ++ JSON_string v ++ rest)
  = Some (v, rest).
Proof.
  unfold json_member_at.
  assert (Hp : strip_prefix (js before ++ in_quotes (js key) ++ js ":")
                 (js before ++ in_quotes (js key) ++ js ":"
                  ++ JSON_string v ++ rest)
               = Some (JSON_string v ++ rest)).
  { apply strip_prefix_Some. by rewrite <- !app_assoc. }
  by rewrite Hp, json_take_string_spec.
Qed.

(** X15.  The line that a script appends to its JSONL file for a record
    reads back to that record, field by field: [null] is told from the
    empty string, and line feeds, quotes and commas inside a text come back
    as they were (the CSV line keeps neither distinction). *)
Theorem jsonl_line_round_trip (r : Row) :
  json_read_row (JSON_stringify r) = Some r.
Proof.
  destruct r as [f1 f2 f3 f4 f5 f6 f7 n].
  unfold JSON_stringify, JSON_member, json_read_row.
  cbn [join article_id publisher source category published_at headline
       content label].
  rewrite <- !app_assoc.
  rewrite !json_member_at_spec.
  unfold json_member_at.
  assert (Hp : strip_prefix (js "," ++ in_quotes (js "label") ++ js ":")
                 (js "," ++ in_quotes (js "label") ++ js ":"
                  ++ Number_toString n ++ js "}")
               = Some (Number_toString n ++ js "}")).
  { apply strip_prefix_Some. by rewrite <- !app_assoc. }
  rewrite Hp. change (js "}") with [125%N].
  by rewrite (json_take_number_spec n 125 []).
Qed.
